(** * Retraining pipeline and metrics store: a shallow embedding

    This development embeds parts of the ML server in Rocq and proves
    properties of them:

    - [RetrainingPipeline]: the DAG task executor of
      [ml-server/pipelines/retraining_pipeline.py] (plan construction,
      retry loop, wave execution, notifications, the single-run flag);
    - [Monitoring]: the [MetricsCollector] of [config/monitoring.py]
      (bounded histogram series and their statistics, counters, gauges);
    - [StandardPipeline]: the bodies of [PipelineTasks] and the pipeline of
      [create_standard_retraining_pipeline];
    - [HealthChecker]: the recording methods, the metrics summary, the
      overall status and the duration text of [HealthChecker].

    Python objects are modelled as records, [dict]s as [gmap string _],
    [set]s as [gset string], exceptions as an explicit result type, and the
    mutable pipeline object as a state threaded through a small state and
    exception monad. A finite floating point number is read as the rational
    it denotes; where a statement depends on the rounding of a float
    operation ([_percentile], [_format_duration]) the operation is rounded
    to binary64, elsewhere it is exact. *)

From Stdlib Require Import QArith Qabs Qround Qpower Lqa.
From stdpp Require Import gmap strings list fin_maps pretty sorting relations.

Close Scope Q_scope.
Open Scope Z_scope.

#[local] Set Warnings "-register-all".

(** ** Python values shared by both modules *)

(** Exceptions: the class name and the text of [str(e)]. Only subclasses of
    [Exception] are modelled. *)
Record PyExc := Exc { exc_kind : string; exc_msg : string }.

(** Result of a computation that may raise. *)
Inductive Res (A : Type) : Type :=
  | Ok (a : A)
  | Raise (e : PyExc).
Arguments Ok {A} a.
Arguments Raise {A} e.

Definition is_ok {A} (r : Res A) : bool :=
  match r with Ok _ => true | Raise _ => false end.

Module RetrainingPipeline.

(** ** Data model *)

Inductive TaskStatus := PENDING | RUNNING | SUCCESS | FAILED | SKIPPED | RETRY.

Inductive TriggerCondition :=
  | SCHEDULED | DATA_DRIFT | PERFORMANCE_DEGRADATION | MANUAL | MODEL_FEEDBACK.

(** [TriggerCondition.value] *)
Definition trigger_value (t : TriggerCondition) : string :=
  match t with
  | SCHEDULED => "scheduled"
  | DATA_DRIFT => "data_drift"
  | PERFORMANCE_DEGRADATION => "performance_degradation"
  | MANUAL => "manual"
  | MODEL_FEEDBACK => "model_feedback"
  end.

(** Values stored in [Dict[str, Any]] objects. [VTime] is a [datetime],
    read off the model clock. *)
Inductive PyVal :=
  | VNone
  | VBool (b : bool)
  | VInt (z : Z)
  | VFloat (q : Q)
  | VStr (s : string)
  | VTrigger (t : TriggerCondition)
  | VTime (t : Z)
  | VDict (d : gmap string PyVal).

Abbreviation Dict := (gmap string PyVal).

(** What one call of a task body does, as seen by [asyncio.wait_for]: it
    returns a value, raises, or exceeds the timeout. *)
Inductive BodyOutcome :=
  | Returns (output : option Dict)
  | Raises (e : PyExc)
  | TimesOut.

(** [TaskConfig]. The body receives the shared [pipeline_state] by
    reference, so it yields the (possibly mutated) dictionary next to its
    outcome; the first argument numbers the body calls made so far on the
    pipeline object, so that a body may answer differently on each call. *)
Record TaskConfig := {
  task_id : string;
  function : nat -> Dict -> BodyOutcome * Dict;
  dependencies : option (list string);
  retry_count : Z;
  timeout_seconds : Z;
  resources : option Dict;
  on_failure : string
}.

Record PipelineConfig := {
  pipeline_id : string;
  model_name : string;
  schedule_interval : string;
  max_concurrent_tasks : Z;
  retry_policy : option Dict;
  notifications : option Dict
}.

Record TaskResult := {
  r_task_id : string;
  status : TaskStatus;
  start_time : Z;
  end_time : option Z;
  output : Dict;
  error : option string;
  metrics : option Dict
}.

(** The message built by [_send_notifications]. *)
Record Message := {
  m_pipeline_id : string;
  m_model_name : string;
  m_status : string;
  m_trigger : string;
  m_duration_seconds : Z;
  m_timestamp : Z;
  m_error : option string
}.

(** Effects of a run that are observable from outside, in the order in which
    they happen: a body call, a backoff sleep, a store into [task_results],
    and a completion notification. *)
Inductive Event :=
  | EvAttempt (id : string) (attempt : Z)
  | EvSleep (seconds : Z)
  | EvResult (id : string) (st : TaskStatus)
  | EvNotify (m : Message).

(** The [RetrainingPipeline] object, together with the environment it runs
    in: the clock read by [datetime.now], the number of body calls made, and
    the trace of events. *)
Record Pipeline := {
  config : PipelineConfig;
  tasks : gmap string TaskConfig;
  task_results : gmap string TaskResult;
  pipeline_state : Dict;
  is_running : bool;
  clock : Z;
  ncalls : nat;
  trace : list Event
}.

#[global] Instance TaskStatus_eq_dec : EqDecision TaskStatus.
Proof. solve_decision. Defined.

#[global] Instance TriggerCondition_eq_dec : EqDecision TriggerCondition.
Proof. solve_decision. Defined.

(** [RetrainingPipeline.__init__], without the background monitors. *)
Definition init (cfg : PipelineConfig) : Pipeline :=
  {| config := cfg; tasks := ∅; task_results := ∅; pipeline_state := ∅;
     is_running := false; clock := 0; ncalls := 0; trace := [] |}.

Definition add_task (task_config : TaskConfig) (p : Pipeline) : Pipeline :=
  {| config := config p;
     tasks := <[task_id task_config := task_config]> (tasks p);
     task_results := task_results p; pipeline_state := pipeline_state p;
     is_running := is_running p; clock := clock p; ncalls := ncalls p;
     trace := trace p |}.

(** ** The state and exception monad of the pipeline object *)

Definition M (A : Type) : Type := Pipeline -> Res A * Pipeline.

Definition ret {A} (a : A) : M A := fun p => (Ok a, p).

Definition raise {A} (e : PyExc) : M A := fun p => (Raise e, p).

Definition bind {A B} (c : M A) (k : A -> M B) : M B :=
  fun p =>
    match c p with
    | (Ok a, p') => k a p'
    | (Raise e, p') => (Raise e, p')
    end.

Declare Scope py_scope.
Delimit Scope py_scope with py.
Notation "'do' x <- c ;; k" := (bind c (fun x => k))
  (at level 10, x name, c at level 99, k at level 200) : py_scope.
Notation "'run' c ;; k" := (bind c (fun _ => k))
  (at level 10, c at level 99, k at level 200) : py_scope.

(** [try: body except Exception as e: handler(e)] *)
Definition try_except {A} (body : M A) (handler : PyExc -> M A) : M A :=
  fun p =>
    match body p with
    | (Ok a, p') => (Ok a, p')
    | (Raise e, p') => handler e p'
    end.

Definition datetime_now : M Z := fun p => (Ok (clock p), p).

Definition log_event (ev : Event) (p : Pipeline) : Pipeline :=
  {| config := config p; tasks := tasks p; task_results := task_results p;
     pipeline_state := pipeline_state p; is_running := is_running p;
     clock := clock p; ncalls := ncalls p; trace := trace p ++ [ev] |}.

Definition emit (ev : Event) : M unit := fun p => (Ok tt, log_event ev p).

(** [await asyncio.sleep(seconds)] *)
Definition asyncio_sleep (seconds : Z) : M unit :=
  fun p =>
    (Ok tt,
     log_event (EvSleep seconds)
       {| config := config p; tasks := tasks p;
          task_results := task_results p;
          pipeline_state := pipeline_state p; is_running := is_running p;
          clock := clock p + seconds; ncalls := ncalls p;
          trace := trace p |}).

(** [self.task_results[task_id] = result] *)
Definition store_result (id : string) (result : TaskResult) : M unit :=
  fun p =>
    (Ok tt,
     log_event (EvResult id (status result))
       {| config := config p; tasks := tasks p;
          task_results := <[id := result]> (task_results p);
          pipeline_state := pipeline_state p; is_running := is_running p;
          clock := clock p; ncalls := ncalls p; trace := trace p |}).

(** [self.pipeline_state = d] *)
Definition set_pipeline_state (d : Dict) : M unit :=
  fun p =>
    (Ok tt,
     {| config := config p; tasks := tasks p;
        task_results := task_results p; pipeline_state := d;
        is_running := is_running p; clock := clock p; ncalls := ncalls p;
        trace := trace p |}).

(** [await asyncio.wait_for(task_config.function(self.pipeline_state),
    timeout=...)]: one body call on the shared state. *)
Definition call_body (task_config : TaskConfig) (attempt : Z) : M BodyOutcome :=
  fun p =>
    let '(out, st) := function task_config (ncalls p) (pipeline_state p) in
    (Ok out,
     log_event (EvAttempt (task_id task_config) attempt)
       {| config := config p; tasks := tasks p;
          task_results := task_results p; pipeline_state := st;
          is_running := is_running p; clock := clock p;
          ncalls := S (ncalls p); trace := trace p |}).

Open Scope py_scope.

(** ** [_build_execution_plan] *)

(** [task.dependencies or []] *)
Definition deps_of (task : TaskConfig) : list string :=
  match dependencies task with
  | Some ds => ds
  | None => []
  end.

(** The inner [for task_id in remaining_tasks] loop: the tasks all of whose
    dependencies are completed. [self.tasks[task_id]] raises [KeyError] on
    an unknown id. *)
Fixpoint find_ready (tsk : gmap string TaskConfig) (remaining : list string)
    (completed_tasks : gset string) : Res (list string) :=
  match remaining with
  | [] => Ok []
  | id :: rest =>
      match tsk !! id with
      | None => Raise (Exc "KeyError" id)
      | Some task =>
          match find_ready tsk rest completed_tasks with
          | Raise e => Raise e
          | Ok ready_tasks =>
              if forallb (fun dep => bool_decide (dep ∈ completed_tasks))
                   (deps_of task)
              then Ok (id :: ready_tasks)
              else Ok ready_tasks
          end
      end
  end.

(** The [while remaining_tasks] loop. The sets are iterated in the order of
    [elements]. [fuel] bounds the number of iterations; [plan_loop_fuel]
    below shows that the bound used by [_build_execution_plan] is never
    reached. *)
Fixpoint plan_loop (fuel : nat) (tsk : gmap string TaskConfig)
    (execution_plan : list (list string))
    (remaining_tasks completed_tasks : gset string)
    : Res (list (list string)) :=
  match fuel with
  | O => Ok execution_plan
  | S fuel' =>
      if decide (remaining_tasks = ∅) then Ok execution_plan
      else
        match find_ready tsk (elements remaining_tasks) completed_tasks with
        | Raise e => Raise e
        | Ok [] => Ok execution_plan
        | Ok ready_tasks =>
            plan_loop fuel' tsk (execution_plan ++ [ready_tasks])
              (remaining_tasks ∖ list_to_set ready_tasks)
              (completed_tasks ∪ list_to_set ready_tasks)
        end
  end.

Definition _build_execution_plan (tsk : gmap string TaskConfig)
    : Res (list (list string)) :=
  plan_loop (S (size (dom tsk))) tsk [] (dom tsk) ∅.

(** A pure computation that may raise, run inside the monad. *)
Definition lift {A} (r : Res A) : M A := fun p => (r, p).

(** ** [_execute_task] *)

(** [output or {}] *)
Definition or_empty (o : option Dict) : Dict :=
  match o with
  | Some d => d
  | None => ∅
  end.

Definition timeout_msg (task_config : TaskConfig) : string :=
  "Task " +:+ task_id task_config +:+ " timed out after "
    +:+ pretty (timeout_seconds task_config) +:+ "s".

Definition failed_msg (task_config : TaskConfig) (e : PyExc) : string :=
  "Task " +:+ task_id task_config +:+ " failed: " +:+ exc_msg e.

(** The [except] clauses of [_execute_task], which differ only in the
    message: sleep and retry while [attempt < retry_count], otherwise build
    the FAILED result and fall out of the [try] statement. *)
Definition on_error (task_config : TaskConfig) (start_time attempt : Z)
    (error_msg : string) (result : option TaskResult)
    : M (option TaskResult) :=
  if attempt <? retry_count task_config
  then run asyncio_sleep (2 ^ attempt) ;; ret result
  else
    do now <- datetime_now ;;
    ret (Some {| r_task_id := task_id task_config; status := FAILED;
                 start_time := start_time; end_time := Some now;
                 output := ∅; error := Some error_msg; metrics := None |}).

(** The [for attempt in range(retry_count + 1)] loop over the attempts still
    to make, and the two statements after it. [result] is the local variable
    of that name; it is unbound until a FAILED result has been built. *)
Fixpoint attempt_loop (task_config : TaskConfig) (start_time : Z)
    (attempts : list Z) (result : option TaskResult) : M TaskResult :=
  match attempts with
  | [] =>
      match result with
      | None =>
          raise (Exc "UnboundLocalError"
                   "local variable 'result' referenced before assignment")
      | Some r => run store_result (task_id task_config) r ;; ret r
      end
  | attempt :: rest =>
      do out <- call_body task_config attempt ;;
      match out with
      | Returns o =>
          do now <- datetime_now ;;
          let r := {| r_task_id := task_id task_config; status := SUCCESS;
                      start_time := start_time; end_time := Some now;
                      output := or_empty o; error := None;
                      metrics := None |} in
          run store_result (task_id task_config) r ;; ret r
      | TimesOut =>
          do result' <- on_error task_config start_time attempt
                          (timeout_msg task_config) result ;;
          attempt_loop task_config start_time rest result'
      | Raises e =>
          do result' <- on_error task_config start_time attempt
                          (failed_msg task_config e) result ;;
          attempt_loop task_config start_time rest result'
      end
  end.

(** [range(n)] *)
Definition range (n : Z) : list Z := seqZ 0 n.

Definition _execute_task (task_config : TaskConfig) : M TaskResult :=
  do start_time <- datetime_now ;;
  attempt_loop task_config start_time
    (range (retry_count task_config + 1)) None.

(** ** [_send_notifications] *)

(** Truth value of an optional dictionary: [None] and [{}] are false. *)
Definition truthy (o : option Dict) : bool :=
  match o with
  | None => false
  | Some d => negb (bool_decide (d = ∅))
  end.

Definition _send_notifications (success : bool) (duration : Z)
    (trigger : TriggerCondition) (err : option string) : M unit :=
  fun p =>
    if negb (truthy (notifications (config p))) then (Ok tt, p)
    else
      let st := if success then "SUCCESS" else "FAILED" in
      let message :=
        {| m_pipeline_id := pipeline_id (config p);
           m_model_name := model_name (config p);
           m_status := st;
           m_trigger := trigger_value trigger;
           m_duration_seconds := duration;
           m_timestamp := clock p;
           m_error := err |} in
      emit (EvNotify message) p.

(** ** [_execute_pipeline] *)

(** [self.tasks[task_id]] *)
Definition get_task (id : string) : M TaskConfig :=
  fun p =>
    match tasks p !! id with
    | Some task_config => (Ok task_config, p)
    | None => (Raise (Exc "KeyError" id), p)
    end.

(** The loop that fills [batch_tasks]. *)
Fixpoint batch_configs (batch : list string) : M (list TaskConfig) :=
  match batch with
  | [] => ret []
  | id :: rest =>
      do task_config <- get_task id ;;
      do cfgs <- batch_configs rest ;;
      ret (task_config :: cfgs)
  end.

(** [asyncio.gather] over [batch_tasks] with [return_exceptions=True]: every
    task of the batch runs to its end and an exception becomes its result.
    The tasks are run one after the other, which is one of the schedules
    the event loop may choose. *)
Fixpoint gather {A} (cs : list (M A)) : M (list (Res A)) :=
  match cs with
  | [] => ret []
  | c :: rest =>
      fun p =>
        let '(r, p') := c p in
        match gather rest p' with
        | (Ok rs, p'') => (Ok (r :: rs), p'')
        | (Raise e, p'') => (Raise e, p'')
        end
  end.

(** The [for i, result in enumerate(results)] loop: yields the value of
    [pipeline_success] after it. *)
Fixpoint check_failures (batch : list string)
    (results : list (Res TaskResult)) : M bool :=
  match results with
  | [] => ret true
  | result :: results' =>
      match batch with
      | [] => raise (Exc "IndexError" "list index out of range")
      | id :: batch' =>
          match result with
          | Raise e =>
              do t1 <- datetime_now ;;
              do t2 <- datetime_now ;;
              run store_result id
                    {| r_task_id := id; status := FAILED; start_time := t1;
                       end_time := Some t2; output := ∅;
                       error := Some (exc_msg e); metrics := None |} ;;
              ret false
          | Ok _ => check_failures batch' results'
          end
      end
  end.

(** The body of the [for batch in execution_plan] loop, up to the test of
    [pipeline_success]. *)
Definition run_batch (batch : list string) : M bool :=
  do cfgs <- batch_configs batch ;;
  do results <- gather (map _execute_task cfgs) ;;
  check_failures batch results.

(** The [for batch in execution_plan] loop: yields [pipeline_success]. *)
Fixpoint run_batches (execution_plan : list (list string)) : M bool :=
  match execution_plan with
  | [] => ret true
  | batch :: rest =>
      do pipeline_success <- run_batch batch ;;
      if pipeline_success then run_batches rest else ret false
  end.

Definition initial_state (trigger : TriggerCondition) (start_time : Z)
    (name : string) : Dict :=
  <["trigger" := VTrigger trigger]>
    (<["start_time" := VTime start_time]>
       (<["model_name" := VStr name]> ∅)).

Definition _execute_pipeline (trigger : TriggerCondition) : M unit :=
  do start_time <- datetime_now ;;
  try_except
    (do name <- (fun p => (Ok (model_name (config p)), p)) ;;
     run set_pipeline_state (initial_state trigger start_time name) ;;
     do tsk <- (fun p => (Ok (tasks p), p)) ;;
     do execution_plan <- lift (_build_execution_plan tsk) ;;
     do pipeline_success <- run_batches execution_plan ;;
     do end_time <- datetime_now ;;
     _send_notifications pipeline_success (end_time - start_time) trigger
       None)
    (fun e => _send_notifications false 0 trigger (Some (exc_msg e))).

(** ** [_trigger_pipeline] *)

Definition set_running (b : bool) (p : Pipeline) : Pipeline :=
  {| config := config p; tasks := tasks p; task_results := task_results p;
     pipeline_state := pipeline_state p; is_running := b; clock := clock p;
     ncalls := ncalls p; trace := trace p |}.

(** The first [with self.lock] block: yields whether the caller may go on
    to run the pipeline. *)
Definition trigger_enter (p : Pipeline) : bool * Pipeline :=
  if is_running p then (false, p) else (true, set_running true p).

(** The [finally] block. *)
Definition trigger_exit (p : Pipeline) : Pipeline := set_running false p.

Definition _trigger_pipeline (trigger : TriggerCondition) : M unit :=
  fun p =>
    match trigger_enter p with
    | (false, p1) => (Ok tt, p1)
    | (true, p1) =>
        let '(r, p2) := _execute_pipeline trigger p1 in
        (r, trigger_exit p2)
    end.

(** ** Interleaved triggers

    Triggers come from several coroutines and from the scheduler thread, so
    a trigger may arrive while a run is suspended in [_execute_pipeline].
    [active] lists the runs that have passed the first locked block of
    [_trigger_pipeline] and have not yet reached its [finally] block. *)
Record Sys := {
  pipe : Pipeline;
  active : list TriggerCondition
}.

Inductive step : Sys -> Sys -> Prop :=
  | step_accept (s : Sys) (trigger : TriggerCondition) (p' : Pipeline) :
      trigger_enter (pipe s) = (true, p') ->
      step s {| pipe := p'; active := trigger :: active s |}
  | step_drop (s : Sys) (trigger : TriggerCondition) (p' : Pipeline) :
      trigger_enter (pipe s) = (false, p') ->
      step s {| pipe := p'; active := active s |}
  | step_work (s : Sys) (p' : Pipeline) :
      active s <> [] ->
      is_running p' = is_running (pipe s) ->
      step s {| pipe := p'; active := active s |}
  | step_finish (s : Sys) (trigger : TriggerCondition)
      (before after : list TriggerCondition) :
      active s = before ++ trigger :: after ->
      step s {| pipe := trigger_exit (pipe s); active := before ++ after |}.

(** No run is in progress. *)
Definition idle (s : Sys) : Prop :=
  is_running (pipe s) = false /\ active s = [].

(** ** Notions used in the statements *)

(** The statuses [_execute_task] and [_execute_pipeline] record. *)
Definition terminal (st : TaskStatus) : Prop := st = SUCCESS \/ st = FAILED.

(** Every task is registered under its own id, as [add_task] does. *)
Definition wf_tasks (tsk : gmap string TaskConfig) : Prop :=
  forall id task, tsk !! id = Some task -> task_id task = id.

(** Every dependency of a task of wave [i] is in a wave before [i]. *)
Definition layered (tsk : gmap string TaskConfig)
    (plan : list (list string)) : Prop :=
  forall i wave id task dep,
    plan !! i = Some wave -> id ∈ wave -> tsk !! id = Some task ->
    dep ∈ deps_of task ->
    exists j wave', (j < i)%nat /\ plan !! j = Some wave' /\ dep ∈ wave'.

(** [p'] is [p] after some steps that added the events [evs] to the trace
    and left the configuration, the tasks and the run flag alone. *)
Record extends (p p' : Pipeline) (evs : list Event) : Prop := {
  ext_config : config p' = config p;
  ext_tasks : tasks p' = tasks p;
  ext_running : is_running p' = is_running p;
  ext_trace : trace p' = trace p ++ evs
}.

(** The events [_execute_task] may add for the task [id]. *)
Definition task_event (id : string) (ev : Event) : Prop :=
  match ev with
  | EvAttempt i _ => i = id
  | EvSleep _ => True
  | EvResult i st => i = id /\ terminal st
  | EvNotify _ => False
  end.

Definition is_notify (ev : Event) : bool :=
  match ev with
  | EvNotify _ => true
  | _ => false
  end.

(** The task has a result with a terminal status. *)
Definition settled (p : Pipeline) (id : string) : Prop :=
  exists r, task_results p !! id = Some r /\ terminal (status r).

(** The body of the task was called. *)
Definition executed (id : string) (evs : list Event) : Prop :=
  exists attempt, EvAttempt id attempt ∈ evs.

(** The numbers of the attempts and the lengths of the sleeps in a trace. *)
Definition attempts_in (evs : list Event) : list Z :=
  omap (fun ev => match ev with EvAttempt _ a => Some a | _ => None end) evs.

Definition sleeps_in (evs : list Event) : list Z :=
  omap (fun ev => match ev with EvSleep d => Some d | _ => None end) evs.

(** The trace of a task that fails on each of its [retry_count + 1]
    attempts. *)
Definition failing_trace (id : string) (retry_count : Z) : list Event :=
  concat (map (fun a => [EvAttempt id a; EvSleep (2 ^ a)])
            (seqZ 0 retry_count))
    ++ [EvAttempt id retry_count; EvResult id FAILED].

(** The readiness test of the plan builder's inner loop, as a predicate on
    task ids. *)
Definition is_ready (tsk : gmap string TaskConfig)
    (completed_tasks : gset string) (id : string) : bool :=
  match tsk !! id with
  | Some task =>
      forallb (fun dep => bool_decide (dep ∈ completed_tasks)) (deps_of task)
  | None => false
  end.

(** The body raises or times out on every call. *)
Definition always_failing (task : TaskConfig) : Prop :=
  forall n st o, (function task n st).1 <> Returns o.

(** No task has a negative [retry_count]. *)
Definition retries_ok (tsk : gmap string TaskConfig) : Prop :=
  forall id task, tsk !! id = Some task -> 0 <= retry_count task.

(** The run flag is set exactly while one run is active. *)
Definition single_run (s : Sys) : Prop :=
  (is_running (pipe s) = true /\ exists trigger, active s = [trigger])
  \/ idle s.

(** Every dependency names a registered task, and no task depends on
    itself through a chain of dependencies: the dependencies go down along
    a rank. *)
Definition acyclic (tsk : gmap string TaskConfig) : Prop :=
  exists rank : string -> nat,
    forall id task dep,
      tsk !! id = Some task -> dep ∈ deps_of task ->
      is_Some (tsk !! dep) /\ (rank dep < rank id)%nat.

(** A call of a task body in a trace is a call of a registered task,
    numbered from 0 to the task's [retry_count]. *)
Definition attempt_ok (tsk : gmap string TaskConfig) (ev : Event) : Prop :=
  match ev with
  | EvAttempt id a =>
      exists task, tsk !! id = Some task /\ 0 <= a <= retry_count task
  | _ => True
  end.

(** A call of a task body in a trace is a call of the task [id], with a
    number from [attempts]. *)
Definition attempt_among (id : string) (attempts : list Z) (ev : Event)
    : Prop :=
  match ev with
  | EvAttempt u a => u = id /\ a ∈ attempts
  | _ => True
  end.

(** The body hands back the dictionary it was given, unchanged. *)
Definition read_only (task : TaskConfig) : Prop :=
  forall n st, (function task n st).2 = st.

(** The exception Python raises when the loop of [_execute_task] has not
    run and [result] is read. *)
Definition unbound_result : PyExc :=
  Exc "UnboundLocalError"
    "local variable 'result' referenced before assignment".

(** The trace of a task that fails on its attempts before [k] and returns
    on attempt [k]. *)
Definition succeeding_trace (id : string) (k : Z) : list Event :=
  concat (map (fun a => [EvAttempt id a; EvSleep (2 ^ a)]) (seqZ 0 k))
    ++ [EvAttempt id k; EvResult id SUCCESS].

(** The shared state after [k] consecutive calls of the body of a task, the
    first of which is call number [n] on the pipeline object and is given
    the state [st]. *)
Fixpoint state_after (task : TaskConfig) (k n : nat) (st : Dict) : Dict :=
  match k with
  | O => st
  | S k' => state_after task k' (S n) (function task n st).2
  end.

(** The outcome of the call that follows these [k] calls. *)
Definition outcome_after (task : TaskConfig) (k n : nat) (st : Dict)
    : BodyOutcome :=
  (function task (n + k) (state_after task k n st)).1.

(** The error text of [_execute_task] for the outcome of a body call. *)
Definition error_text (task : TaskConfig) (out : BodyOutcome)
    : option string :=
  match out with
  | Returns _ => None
  | TimesOut => Some (timeout_msg task)
  | Raises e => Some (failed_msg task e)
  end.

(** The [TaskResult] of [_execute_task] for the outcome of its last body
    call. *)
Definition result_of (task : TaskConfig) (start_time now : Z)
    (out : BodyOutcome) : TaskResult :=
  match out with
  | Returns o =>
      {| r_task_id := task_id task; status := SUCCESS;
         start_time := start_time; end_time := Some now;
         output := or_empty o; error := None; metrics := None |}
  | _ =>
      {| r_task_id := task_id task; status := FAILED;
         start_time := start_time; end_time := Some now;
         output := ∅; error := error_text task out; metrics := None |}
  end.



(** The body calls of a trace: task id and attempt number. *)
Definition calls_in (evs : list Event) : list (string * Z) :=
  omap (fun ev => match ev with
                  | EvAttempt id a => Some (id, a)
                  | _ => None
                  end) evs.

(** The notifications of a trace. *)
Definition notifications_in (evs : list Event) : list Message :=
  omap (fun ev => match ev with EvNotify m => Some m | _ => None end) evs.

(** ** [PipelineTasks] *)

(** [d.get(key, default)] *)
Definition dict_get (d : Dict) (key : string) (dflt : PyVal) : PyVal :=
  match d !! key with
  | Some v => v
  | None => dflt
  end.

Definition type_name (v : PyVal) : string :=
  match v with
  | VNone => "NoneType"
  | VBool _ => "bool"
  | VInt _ => "int"
  | VFloat _ => "float"
  | VStr _ => "str"
  | VTrigger _ => "TriggerCondition"
  | VTime _ => "datetime.datetime"
  | VDict _ => "dict"
  end.

(** [v.get(key, default)] on an arbitrary value: only dictionaries have the
    method. *)
Definition val_get (v : PyVal) (key : string) (dflt : PyVal) : Res PyVal :=
  match v with
  | VDict d => Ok (dict_get d key dflt)
  | _ =>
      Raise (Exc "AttributeError"
               ("'" +:+ type_name v +:+ "' object has no attribute 'get'"))
  end.

(** The number a value stands for in a comparison with a float. *)
Definition as_number (v : PyVal) : option Q :=
  match v with
  | VFloat q => Some q
  | VInt z => Some (inject_Z z)
  | VBool b => Some (if b then 1%Q else 0%Q)
  | _ => None
  end.

Definition Qlt_bool (x y : Q) : bool := negb (Qle_bool y x).

(** Nearest integer to a non-negative rational, ties to even. *)
Definition round_half_even (q : Q) : Z :=
  let n := Qnum q in
  let d := Z.pos (Qden q) in
  let fl := n / d in
  let r2 := 2 * (n mod d) in
  if r2 <? d then fl
  else if d <? r2 then fl + 1
  else if Z.even fl then fl else fl + 1.

(** The format specification [.2f]. *)
Definition format_2f (q : Q) : string :=
  let c := round_half_even (Qabs q * 100)%Q in
  let frac := c mod 100 in
  (if Qnum q <? 0 then "-" else "")
    +:+ pretty (c / 100) +:+ "."
    +:+ (if frac <? 10 then "0" else "") +:+ pretty frac.

(** [collect_training_data]. The three arguments are what the body draws
    from the random generator and reads from the system clock. *)
Definition collect_training_data (sample_size : Z) (data_quality : Q)
    (time_now : Z) (state : Dict) : BodyOutcome * Dict :=
  (Returns
     (Some (<["data_size" := VInt sample_size]>
              (<["data_quality" := VFloat data_quality]>
                 (<["data_path" :=
                      VStr ("/tmp/training_data_" +:+ pretty time_now)]>
                    ∅)))),
   state).

Definition validate_data_quality (state : Dict) : BodyOutcome * Dict :=
  (* Get data from previous task *)
  let data_info := dict_get state "collect_training_data" (VDict ∅) in
  match val_get data_info "data_quality" (VFloat 0) with
  | Raise e => (Raises e, state)
  | Ok data_quality =>
      match as_number data_quality with
      | None =>
          (Raises
             (Exc "TypeError"
                ("'<' not supported between instances of '"
                   +:+ type_name data_quality +:+ "' and 'float'")),
           state)
      | Some q =>
          if Qlt_bool q (90 # 100)
          then
            (Raises
               (Exc "ValueError"
                  ("Data quality " +:+ format_2f q
                     +:+ " below threshold 0.90")),
             state)
          else
            (Returns
               (Some (<["validation_passed" := VBool true]>
                        (<["quality_score" := data_quality]> ∅))),
             state)
      end
  end.

(** ** Example pipelines *)

Module Examples.

Definition cfg (notif : option Dict) : PipelineConfig :=
  {| pipeline_id := "event_classifier_retraining";
     model_name := "event_classifier";
     schedule_interval := "0 2 * * *"; max_concurrent_tasks := 2;
     retry_policy := None; notifications := notif |}.

Definition channels : option Dict :=
  Some (<["slack" := VBool true]> (<["email" := VBool true]> ∅)).

Definition mk_task (id : string) (f : nat -> Dict -> BodyOutcome * Dict)
    (deps : option (list string)) (retries : Z) (onf : string)
    : TaskConfig :=
  {| task_id := id; function := f; dependencies := deps;
     retry_count := retries; timeout_seconds := 3600; resources := None;
     on_failure := onf |}.

Definition succeeds : nat -> Dict -> BodyOutcome * Dict :=
  fun _ st => (Returns None, st).

Definition always_fails : nat -> Dict -> BodyOutcome * Dict :=
  fun _ st => (Raises (Exc "ValueError" "boom"), st).

(** A and B depend on each other; C depends on nothing. *)
Definition cyclic : Pipeline :=
  add_task (mk_task "C" succeeds None 3 "fail")
    (add_task (mk_task "B" succeeds (Some ["A"]) 3 "fail")
       (add_task (mk_task "A" succeeds (Some ["B"]) 3 "fail")
          (init (cfg channels)))).

(** A always fails and is set to continue; B depends on A. *)
Definition continue_chain : Pipeline :=
  add_task (mk_task "B" succeeds (Some ["A"]) 3 "fail")
    (add_task (mk_task "A" always_fails None 2 "continue")
       (init (cfg channels))).

(** The first two tasks of the standard pipeline. *)
Definition data_chain (notif : option Dict) : Pipeline :=
  add_task
    (mk_task "validate_data_quality" (fun _ => validate_data_quality)
       (Some ["collect_training_data"]) 3 "fail")
    (add_task
       (mk_task "collect_training_data"
          (fun _ => collect_training_data 10000 (95 # 100) 1700000000)
          None 3 "fail")
       (init (cfg notif))).

Definition busy (p : Pipeline) : Pipeline := set_running true p.

(** A has a negative [retry_count]; B depends on A. *)
Definition broken_chain : Pipeline :=
  add_task (mk_task "B" succeeds (Some ["A"]) 3 "fail")
    (add_task (mk_task "A" succeeds None (-1) "fail")
       (init (cfg channels))).

(** A always fails and is set to fail the run; C depends on nothing and D
    depends on C. *)
Definition fail_chain : Pipeline :=
  add_task (mk_task "D" succeeds (Some ["C"]) 3 "fail")
    (add_task (mk_task "C" succeeds None 3 "fail")
       (add_task (mk_task "A" always_fails None 0 "fail")
          (init (cfg channels)))).

(** A body that fails on its first two calls and returns on the third. *)
Definition third_time_lucky : nat -> Dict -> BodyOutcome * Dict :=
  fun n st =>
    if (n <? 2)%nat then (Raises (Exc "IOError" "busy"), st)
    else (Returns (Some (<["rows" := VInt 7]> ∅)), st).

End Examples.

End RetrainingPipeline.

(** * The standard retraining pipeline *)

Module StandardPipeline.

Import RetrainingPipeline.

(** ** The other bodies of [PipelineTasks] *)

Fixpoint zeros (n : nat) : string :=
  match n with
  | O => ""
  | S n' => "0" +:+ zeros n'
  end.

(** The format specification [.Nf] for [N = digits]. *)
Definition format_f (digits : nat) (q : Q) : string :=
  let scale := 10 ^ Z.of_nat digits in
  let c := round_half_even (Qabs q * inject_Z scale)%Q in
  let frac := pretty (c mod scale) in
  (if Qnum q <? 0 then "-" else "")
    +:+ pretty (c / scale) +:+ "."
    +:+ zeros (digits - String.length frac) +:+ frac.

(** The truth value of a value. A [TriggerCondition] is a string that is
    not empty. *)
Definition py_truthy (v : PyVal) : bool :=
  match v with
  | VNone => false
  | VBool b => b
  | VInt z => negb (z =? 0)
  | VFloat q => negb (Qeq_bool q 0)
  | VStr s => negb (bool_decide (s = ""))
  | VTrigger _ => true
  | VTime _ => true
  | VDict d => negb (bool_decide (d = ∅))
  end.

(** [await asyncio.wait_for(body, timeout=timeout_seconds)] for a body that
    sleeps [needed] seconds before it ends as [r]. *)
Definition within (timeout_seconds needed : Z) (r : BodyOutcome * Dict)
    : BodyOutcome * Dict :=
  if needed <? timeout_seconds then r else (TimesOut, r.2).

(** [train_candidate_model]. The arguments are what the body draws from
    the random generator and reads from the system clock. *)
Definition train_candidate_model (accuracy latency_ms model_size_mb : Q)
    (time_now : Z) (state : Dict) : BodyOutcome * Dict :=
  (Returns
     (Some (<["model_version" := VStr ("v" +:+ pretty time_now)]>
              (<["accuracy" := VFloat accuracy]>
                 (<["latency_ms" := VFloat latency_ms]>
                    (<["model_size_mb" := VFloat model_size_mb]> ∅))))),
   state).

Definition validate_candidate_model (state : Dict) : BodyOutcome * Dict :=
  let model_info := dict_get state "train_candidate_model" (VDict ∅) in
  match val_get model_info "accuracy" (VFloat 0) with
  | Raise e => (Raises e, state)
  | Ok accuracy =>
      match val_get model_info "latency_ms" (VInt 1000) with
      | Raise e => (Raises e, state)
      | Ok latency_ms =>
          match as_number accuracy with
          | None =>
              (Raises
                 (Exc "TypeError"
                    ("'<' not supported between instances of '"
                       +:+ type_name accuracy +:+ "' and 'float'")),
               state)
          | Some a =>
              if Qlt_bool a (90 # 100)
              then
                (Raises
                   (Exc "ValueError"
                      ("Model accuracy " +:+ format_f 3 a
                         +:+ " below threshold 0.90")),
                 state)
              else
                match as_number latency_ms with
                | None =>
                    (Raises
                       (Exc "TypeError"
                          ("'>' not supported between instances of '"
                             +:+ type_name latency_ms +:+ "' and 'int'")),
                     state)
                | Some l =>
                    if Qlt_bool 100 l
                    then
                      (Raises
                         (Exc "ValueError"
                            ("Model latency " +:+ format_f 1 l
                               +:+ "ms above threshold 100ms")),
                       state)
                    else
                      (Returns
                         (Some (<["validation_passed" := VBool true]> ∅)),
                       state)
                end
          end
      end
  end.

(** [register_model_version]. [render] is the text an f-string gives for a
    value. *)
Definition register_model_version (render : PyVal -> string) (state : Dict)
    : BodyOutcome * Dict :=
  let model_info := dict_get state "train_candidate_model" (VDict ∅) in
  let name := dict_get state "model_name" (VStr "unknown_model") in
  match val_get model_info "model_version" (VStr "v1") with
  | Raise e => (Raises e, state)
  | Ok version =>
      (Returns
         (Some (<["registered_version" := version]>
                  (<["stage" := VStr "staging"]>
                     (<["registry_id" :=
                          VStr (render name +:+ "_" +:+ render version)]>
                        ∅)))),
       state)
  end.

(** [run_ab_test]. [current_accuracy] is the draw of the body. *)
Definition run_ab_test (current_accuracy : Q) (state : Dict)
    : BodyOutcome * Dict :=
  let model_info := dict_get state "train_candidate_model" (VDict ∅) in
  match val_get model_info "accuracy" (VFloat (90 # 100)) with
  | Raise e => (Raises e, state)
  | Ok candidate_accuracy =>
      match as_number candidate_accuracy with
      | None =>
          (Raises
             (Exc "TypeError"
                ("unsupported operand type(s) for -: '"
                   +:+ type_name candidate_accuracy +:+ "' and 'float'")),
           state)
      | Some c =>
          let improvement := (c - current_accuracy)%Q in
          let statistical_significance :=
            Qlt_bool (2 # 100) (Qabs improvement) in
          (Returns
             (Some (<["candidate_better" := VBool (Qlt_bool 0 improvement)]>
                      (<["improvement" := VFloat improvement]>
                         (<["statistical_significance" :=
                              VBool statistical_significance]>
                            (<["test_duration_hours" := VInt 2]> ∅))))),
           state)
      end
  end.

(** [promote_to_production]. [iso_now] is the text of
    [datetime.now().isoformat()]. *)
Definition promote_to_production (iso_now : string) (state : Dict)
    : BodyOutcome * Dict :=
  let ab_test_result := dict_get state "run_ab_test" (VDict ∅) in
  let model_info := dict_get state "register_model_version" (VDict ∅) in
  match val_get ab_test_result "candidate_better" (VBool false) with
  | Raise e => (Raises e, state)
  | Ok candidate_better =>
      if negb (py_truthy candidate_better)
      then
        (Returns
           (Some (<["promoted" := VBool false]>
                    (<["reason" := VStr "candidate_not_better"]> ∅))),
         state)
      else
        match val_get model_info "registered_version" (VStr "unknown") with
        | Raise e => (Raises e, state)
        | Ok version =>
            (Returns
               (Some (<["promoted" := VBool true]>
                        (<["production_version" := version]>
                           (<["promotion_time" := VStr iso_now]> ∅)))),
             state)
        end
  end.

(** ** [create_standard_retraining_pipeline] *)

(** What the bodies draw from the random generator and read from the
    clock at one call. *)
Record Draws := {
  sample_size : Z;
  data_quality : Q;
  accuracy : Q;
  latency_ms : Q;
  model_size_mb : Q;
  current_accuracy : Q;
  time_now : Z;
  iso_now : string
}.

(** [TaskConfig(task_id=..., function=..., ...)] with the defaults of the
    dataclass for the fields that are not given. *)
Definition task (id : string) (f : nat -> Dict -> BodyOutcome * Dict)
    (deps : option (list string)) (timeout : Z) (onf : string)
    : TaskConfig :=
  {| task_id := id; function := f; dependencies := deps; retry_count := 3;
     timeout_seconds := timeout; resources := None; on_failure := onf |}.

(** [env n] holds the draws of the call numbered [n]. The bodies that
    sleep do so for 2, 5 and 3 seconds. *)
Definition create_standard_retraining_pipeline (render : PyVal -> string)
    (env : nat -> Draws) (name : string) : Pipeline :=
  let config :=
    {| pipeline_id := name +:+ "_retraining"; model_name := name;
       schedule_interval := "0 2 * * *"; max_concurrent_tasks := 2;
       retry_policy := None;
       notifications :=
         Some (<["slack" := VBool true]> (<["email" := VBool true]> ∅)) |} in
  let pipeline := init config in
  let pipeline :=
    add_task
      (task "collect_training_data"
         (fun n st =>
            within 1800 2
              (collect_training_data (sample_size (env n))
                 (data_quality (env n)) (time_now (env n)) st))
         None 1800 "fail")
      pipeline in
  let pipeline :=
    add_task
      (task "validate_data_quality"
         (fun n st => within 3600 0 (validate_data_quality st))
         (Some ["collect_training_data"]) 3600 "fail")
      pipeline in
  let pipeline :=
    add_task
      (task "train_candidate_model"
         (fun n st =>
            within 3600 5
              (train_candidate_model (accuracy (env n)) (latency_ms (env n))
                 (model_size_mb (env n)) (time_now (env n)) st))
         (Some ["validate_data_quality"]) 3600 "fail")
      pipeline in
  let pipeline :=
    add_task
      (task "validate_candidate_model"
         (fun n st => within 3600 0 (validate_candidate_model st))
         (Some ["train_candidate_model"]) 3600 "fail")
      pipeline in
  let pipeline :=
    add_task
      (task "register_model_version"
         (fun n st => within 3600 0 (register_model_version render st))
         (Some ["validate_candidate_model"]) 3600 "fail")
      pipeline in
  let pipeline :=
    add_task
      (task "run_ab_test"
         (fun n st =>
            within 7200 3 (run_ab_test (current_accuracy (env n)) st))
         (Some ["register_model_version"]) 7200 "fail")
      pipeline in
  let pipeline :=
    add_task
      (task "promote_to_production"
         (fun n st =>
            within 3600 0 (promote_to_production (iso_now (env n)) st))
         (Some ["run_ab_test"]) 3600 "continue")
      pipeline in
  pipeline.

(** The tasks of the standard pipeline, in the order they are added. *)
Definition chain : list string :=
  ["collect_training_data"; "validate_data_quality"; "train_candidate_model";
   "validate_candidate_model"; "register_model_version"; "run_ab_test";
   "promote_to_production"].

(** The statuses recorded for a list of tasks. *)
Definition statuses (p : Pipeline) (ids : list string)
    : list (option TaskStatus) :=
  map (fun id => status <$> task_results p !! id) ids.

(** The statuses of the notifications in a trace. *)
Definition notified (evs : list Event) : list string :=
  omap (fun ev => match ev with
                  | EvNotify m => Some (m_status m)
                  | _ => None
                  end) evs.

End StandardPipeline.

Module Monitoring.

(** ** Data model *)

(** [Optional[Dict[str, str]]] *)
Abbreviation Labels := (option (gmap string string)).

Record MetricPoint := {
  timestamp : Q;
  value : Q;
  labels : Labels
}.

(** [MetricsCollector]. A [deque(maxlen=max_points)] is the list of its
    items, oldest first; every series of a collector is created by the same
    factory, so the bound of each of them is the collector's [max_points]. *)
Record MetricsCollector := {
  max_points : Z;
  metrics : gmap string (list MetricPoint);
  counters : gmap string Z;
  gauges : gmap string Q
}.

Record HistogramStats := {
  count : Z;
  sum : Q;
  avg : Q;
  p50 : Q;
  p95 : Q;
  p99 : Q
}.

(** [MetricsCollector.__init__] *)
Definition init (max_points : Z) : MetricsCollector :=
  {| max_points := max_points; metrics := ∅; counters := ∅; gauges := ∅ |}.

(** ** [_make_key] *)

Definition item_le (x y : string * string) : Prop :=
  Is_true (String.leb x.1 y.1).

#[global] Instance item_le_dec x y : Decision (item_le x y).
Proof. unfold item_le. apply _. Defined.

(** [sorted(labels.items())]: the keys of a dictionary are distinct, so the
    pairs are ordered by their keys. *)
Definition sorted_items (d : gmap string string) : list (string * string) :=
  merge_sort item_le (map_to_list d).

(** [','.join(parts)] *)
Fixpoint join (sep : string) (parts : list string) : string :=
  match parts with
  | [] => ""
  | [s] => s
  | s :: rest => s +:+ sep +:+ join sep rest
  end.

Definition _make_key (name : string) (labels : Labels) : string :=
  match labels with
  | None => name
  | Some d =>
      if decide (d = ∅) then name
      else
        let label_str :=
          join "," (map (fun kv => kv.1 +:+ "=" +:+ kv.2) (sorted_items d)) in
        name +:+ "{" +:+ label_str +:+ "}"
  end.

(** ** [record_histogram] *)

(** The factory of the [defaultdict]: [deque(maxlen=max_points)]. *)
Definition new_deque (maxlen : Z) : Res (list MetricPoint) :=
  if maxlen <? 0
  then Raise (Exc "ValueError" "maxlen must be non-negative")
  else Ok [].

(** [deque.append] on a deque bounded by [maxlen]: the item is added on the
    right and items are dropped on the left while there are too many. *)
Definition deque_append (maxlen : Z) (d : list MetricPoint) (x : MetricPoint)
    : list MetricPoint :=
  let d' := d ++ [x] in
  drop (length d' - Z.to_nat maxlen) d'.

(** [self.metrics[key]] on the [defaultdict]: a missing key is filled in by
    the factory. *)
Definition metrics_getitem (c : MetricsCollector) (key : string)
    : Res (list MetricPoint) :=
  match metrics c !! key with
  | Some d => Ok d
  | None => new_deque (max_points c)
  end.

(** [now] is the value of [time.time()]. *)
Definition record_histogram (name : string) (v : Q) (labels : Labels)
    (now : Q) (c : MetricsCollector) : Res MetricsCollector :=
  let key := _make_key name labels in
  match metrics_getitem c key with
  | Raise e => Raise e
  | Ok d =>
      let point := {| timestamp := now; value := v; labels := labels |} in
      Ok {| max_points := max_points c;
            metrics := <[key := deque_append (max_points c) d point]>
                         (metrics c);
            counters := counters c; gauges := gauges c |}
  end.

(** ** [get_histogram_stats] *)

#[global] Instance Qle_dec (x y : Q) : Decision (Qle x y).
Proof. unfold Qle. apply _. Defined.

(** [values[i]] on a list: negative indices count from the end. *)
Definition list_getitem (values : list Q) (i : Z) : Res Q :=
  let n := Z.of_nat (length values) in
  let j := if i <? 0 then i + n else i in
  if (j <? 0) || (n <=? j)
  then Raise (Exc "IndexError" "list index out of range")
  else
    match values !! Z.to_nat j with
    | Some v => Ok v
    | None => Raise (Exc "IndexError" "list index out of range")
    end.

(** *** Float arithmetic

    A finite Python float is an IEEE 754 binary64 number and is read as the
    rational it denotes. An operation on floats gives the float nearest to
    its exact result, ties to the even mantissa; [binary64] is this
    rounding at 53 bits of precision. The exponent is not bounded here:
    results of magnitude [2^1024] and more (where Python gives [inf] or
    raises [OverflowError]) and below [2^-1022] (subnormal numbers) are
    outside the model, as are [nan] and [inf] themselves. *)

Definition pow2 (e : Z) : Q := (2 ^ e)%Q.

(** The exponent [e] of the last mantissa bit of a positive rational [a]:
    [2^52 <= a / 2^e < 2^53]. *)
Definition exponent (a : Q) : Z :=
  let e0 := Z.log2 (Qnum a) - Z.log2 (Z.pos (Qden a)) - 53 in
  if Qle_bool (pow2 53) (a * pow2 (- e0)) then e0 + 1 else e0.

Definition binary64 (q : Q) : Q :=
  let r := Qred q in
  if Qnum r =? 0 then 0%Q
  else
    let a := Qabs r in
    let e := exponent a in
    let m :=
      inject_Z (RetrainingPipeline.round_half_even (a * pow2 (- e))) in
    if Qnum r <? 0 then (- (m * pow2 e))%Q else (m * pow2 e)%Q.

(** [int(x)] for a float: the fraction is cut off. *)
Definition float_to_int (x : Q) : Z := Z.quot (Qnum x) (Z.pos (Qden x)).

(** [int((percentile / 100) * len(values))] for the integers [percentile]
    and [len]: the true division of two integers gives the float nearest to
    the quotient, the product converts [len] to a float and is rounded
    again, and [int] truncates towards zero. With 100 values the 29th
    percentile is at index 28, as [0.29 * 100] is [28.999999999999996]. *)
Definition percentile_index (percentile : Z) (len : Z) : Z :=
  float_to_int
    (binary64 (binary64 (inject_Z percentile / 100) * binary64 (inject_Z len))).

Definition _percentile (values : list Q) (percentile : Z) : Res Q :=
  match values with
  | [] => Ok 0%Q
  | _ =>
      let n := Z.of_nat (length values) in
      let index := percentile_index percentile n in
      list_getitem values (Z.min index (n - 1))
  end.

(** [sum(values)], as the exact sum: the rounding of the float additions
    is not modelled. *)
Definition py_sum (values : list Q) : Q := foldl Qplus 0%Q values.

(** [x / n] for a float and an integer, as the exact quotient. *)
Definition py_div (x : Q) (n : Z) : Res Q :=
  if n =? 0 then Raise (Exc "ZeroDivisionError" "float division by zero")
  else Ok (x / inject_Z n)%Q.

Definition neutral_stats : HistogramStats :=
  {| count := 0; sum := 0%Q; avg := 0%Q; p50 := 0%Q; p95 := 0%Q;
     p99 := 0%Q |}.

(** [self.metrics.get(key, deque())] *)
Definition series (c : MetricsCollector) (key : string) : list MetricPoint :=
  match metrics c !! key with
  | Some d => d
  | None => []
  end.

Definition get_histogram_stats (name : string) (labels : Labels)
    (c : MetricsCollector) : Res HistogramStats :=
  let key := _make_key name labels in
  let points := series c key in
  match points with
  | [] => Ok neutral_stats
  | _ =>
      let values := merge_sort Qle (map value points) in
      let n := Z.of_nat (length values) in
      match py_div (py_sum values) n with
      | Raise e => Raise e
      | Ok a =>
          match _percentile values 50 with
          | Raise e => Raise e
          | Ok v50 =>
              match _percentile values 95 with
              | Raise e => Raise e
              | Ok v95 =>
                  match _percentile values 99 with
                  | Raise e => Raise e
                  | Ok v99 =>
                      Ok {| count := n; sum := py_sum values; avg := a;
                            p50 := v50; p95 := v95; p99 := v99 |}
                  end
              end
          end
      end
  end.

(** ** Sequences of calls *)

(** One [record_histogram] call: name, value, labels, and the clock. *)
Record Call := {
  c_name : string;
  c_value : Q;
  c_labels : Labels;
  c_now : Q
}.

Definition call_key (k : Call) : string := _make_key (c_name k) (c_labels k).

Definition call_point (k : Call) : MetricPoint :=
  {| timestamp := c_now k; value := c_value k; labels := c_labels k |}.

(** The calls of a sequence made one after the other; the first exception
    ends the sequence. *)
Fixpoint record_all (calls : list Call) (c : MetricsCollector)
    : Res MetricsCollector :=
  match calls with
  | [] => Ok c
  | k :: rest =>
      match record_histogram (c_name k) (c_value k) (c_labels k) (c_now k) c
      with
      | Raise e => Raise e
      | Ok c' => record_all rest c'
      end
  end.

(** The points recorded under [key] by a sequence of calls, oldest first. *)
Definition recorded (key : string) (calls : list Call) : list MetricPoint :=
  map call_point (filter (fun k => call_key k = key) calls).

(** The last [n] items of a list. *)
Definition last_n {A} (n : nat) (l : list A) : list A :=
  drop (length l - n) l.

(** ** Counters and gauges *)

(** [self.counters[key] += value] on the [defaultdict(int)]: a missing key
    counts from 0. *)
Definition record_counter (name : string) (v : Z) (labels : Labels)
    (c : MetricsCollector) : MetricsCollector :=
  let key := _make_key name labels in
  {| max_points := max_points c; metrics := metrics c;
     counters := <[key := default 0 (counters c !! key) + v]> (counters c);
     gauges := gauges c |}.

(** [self.gauges[key] = value] *)
Definition record_gauge (name : string) (v : Q) (labels : Labels)
    (c : MetricsCollector) : MetricsCollector :=
  let key := _make_key name labels in
  {| max_points := max_points c; metrics := metrics c;
     counters := counters c; gauges := <[key := v]> (gauges c) |}.

(** [self.counters.get(key, 0)] *)
Definition get_counter (name : string) (labels : Labels)
    (c : MetricsCollector) : Z :=
  default 0 (counters c !! _make_key name labels).

(** [self.gauges.get(key, 0.0)] *)
Definition get_gauge (name : string) (labels : Labels)
    (c : MetricsCollector) : Q :=
  default 0%Q (gauges c !! _make_key name labels).

(** One [record_counter] or [record_gauge] call. *)
Inductive Update :=
  | Count (name : string) (v : Z) (labels : Labels)
  | Gauge (name : string) (v : Q) (labels : Labels).

Definition apply_update (u : Update) (c : MetricsCollector)
    : MetricsCollector :=
  match u with
  | Count name v labels => record_counter name v labels c
  | Gauge name v labels => record_gauge name v labels c
  end.

(** The calls of a sequence made one after the other. *)
Definition apply_updates (us : list Update) (c : MetricsCollector)
    : MetricsCollector :=
  foldl (fun c u => apply_update u c) c us.

(** The amounts a sequence of calls adds to the counter [key], in order. *)
Definition counted (key : string) (us : list Update) : list Z :=
  omap (fun u => match u with
                 | Count name v labels =>
                     if decide (_make_key name labels = key) then Some v
                     else None
                 | Gauge _ _ _ => None
                 end) us.

(** The values a sequence of calls gives the gauge [key], in order. *)
Definition gauged (key : string) (us : list Update) : list Q :=
  omap (fun u => match u with
                 | Gauge name v labels =>
                     if decide (_make_key name labels = key) then Some v
                     else None
                 | Count _ _ _ => None
                 end) us.

(** The string holds the character [c], given as a string of length one. *)
Fixpoint has_char (c : string) (s : string) : bool :=
  match s with
  | EmptyString => false
  | String a rest => bool_decide (String a "" = c) || has_char c rest
  end.

(** The labels of a call as a dictionary: no labels are the empty one. *)
Definition label_set (labels : Labels) : gmap string string :=
  match labels with
  | Some d => d
  | None => ∅
  end.

(** No key holds [=] or [,] and no value holds [,]. *)
Definition plain_labels (labels : Labels) : Prop :=
  forall k v, label_set labels !! k = Some v ->
    has_char "=" k = false /\ has_char "," k = false
    /\ has_char "," v = false.

(** The text of one label in a key. *)
Definition item_text (kv : string * string) : string :=
  kv.1 +:+ "=" +:+ kv.2.

(** [sum] of a list of integers. *)
Definition sum_Z (l : list Z) : Z := foldr Z.add 0 l.

End Monitoring.

(** * The metrics of [HealthChecker] *)

Module HealthChecker.

Import Monitoring.

(** ** Data model *)

(** Values of [Dict[str, Any]] in the details of a result. *)
Inductive Detail :=
  | DNone
  | DBool (b : bool)
  | DInt (z : Z)
  | DFloat (q : Q)
  | DStr (s : string)
  | DList (l : list Detail)
  | DDict (d : gmap string Detail).

Record HealthCheckResult := {
  hc_status : string;
  message : string;
  duration : option Q;
  hc_timestamp : option string;
  details : option (gmap string Detail);
  error : option string
}.

(** What awaiting a check function under [asyncio.wait_for] does: it
    returns a result, raises an exception, or raises
    [asyncio.TimeoutError]. *)
Inductive CheckOutcome :=
  | Returns (r : HealthCheckResult)
  | Raises (e : PyExc)
  | TimesOut.

(** ** Recording *)

(** [str(b)] for a [bool] *)
Definition str_bool (b : bool) : string := if b then "True" else "False".

(** [record_request] on the collector [self.metrics]. [now] is the value of
    [time.time()] read by [record_histogram]. *)
Definition record_request (method path : string) (status_code : Z)
    (duration : Q) (now : Q) (m : MetricsCollector) : Res MetricsCollector :=
  let labels :=
    Some (<["method" := method]>
            (<["status_code" := pretty status_code]> ∅)) in
  let m1 := record_counter "http_requests_total" 1 labels m in
  match record_histogram "http_request_duration_ms" (duration * 1000)%Q
          labels now m1 with
  | Raise e => Raise e
  | Ok m2 =>
      if 400 <=? status_code
      then Ok (record_counter "http_requests_errors_total" 1 labels m2)
      else Ok m2
  end.

(** [record_ml_inference]. [now] and [now'] are the two readings of the
    clock. *)
Definition record_ml_inference (model : string) (duration : Q)
    (success : bool) (input_tokens : Z) (now now' : Q)
    (m : MetricsCollector) : Res MetricsCollector :=
  let labels :=
    Some (<["model" := model]> (<["success" := str_bool success]> ∅)) in
  let m1 := record_counter "ml_inferences_total" 1 labels m in
  match record_histogram "ml_inference_duration_ms" (duration * 1000)%Q
          labels now m1 with
  | Raise e => Raise e
  | Ok m2 =>
      match
        (if 0 <? input_tokens
         then record_histogram "ml_input_tokens" (inject_Z input_tokens)
                labels now' m2
         else Ok m2)
      with
      | Raise e => Raise e
      | Ok m3 =>
          if negb success
          then Ok (record_counter "ml_inference_errors_total" 1 labels m3)
          else Ok m3
      end
  end.

Definition record_database_query (duration : Q) (success : bool) (now : Q)
    (m : MetricsCollector) : Res MetricsCollector :=
  let labels := Some (<["success" := str_bool success]> ∅) in
  let m1 := record_counter "database_queries_total" 1 labels m in
  match record_histogram "database_query_duration_ms" (duration * 1000)%Q
          labels now m1 with
  | Raise e => Raise e
  | Ok m2 =>
      if negb success
      then Ok (record_counter "database_errors_total" 1 labels m2)
      else Ok m2
  end.

(** ** [_get_metrics_summary] *)

Record RequestsSummary := {
  req_total : Z;
  req_errors : Z;
  req_response_time : HistogramStats
}.

Record InferencesSummary := {
  inf_total : Z;
  inf_errors : Z;
  inf_duration : HistogramStats
}.

Record DatabaseSummary := {
  db_queries : Z;
  db_errors : Z;
  db_response_time : HistogramStats
}.

Record MetricsSummary := {
  requests : RequestsSummary;
  ml_inferences : InferencesSummary;
  database : DatabaseSummary
}.

Definition _get_metrics_summary (m : MetricsCollector) : Res MetricsSummary :=
  match get_histogram_stats "http_request_duration_ms" None m with
  | Raise e => Raise e
  | Ok s1 =>
      match get_histogram_stats "ml_inference_duration_ms" None m with
      | Raise e => Raise e
      | Ok s2 =>
          match get_histogram_stats "database_query_duration_ms" None m with
          | Raise e => Raise e
          | Ok s3 =>
              Ok {| requests :=
                      {| req_total := get_counter "http_requests_total" None m;
                         req_errors :=
                           get_counter "http_requests_errors_total" None m;
                         req_response_time := s1 |};
                    ml_inferences :=
                      {| inf_total := get_counter "ml_inferences_total" None m;
                         inf_errors :=
                           get_counter "ml_inference_errors_total" None m;
                         inf_duration := s2 |};
                    database :=
                      {| db_queries :=
                           get_counter "database_queries_total" None m;
                         db_errors := get_counter "database_errors_total" None m;
                         db_response_time := s3 |} |}
          end
      end
  end.

(** One call of a recording method of [HealthChecker]. *)
Inductive Recording :=
  | Request (method path : string) (status_code : Z) (duration now : Q)
  | Inference (model : string) (duration : Q) (success : bool)
      (input_tokens : Z) (now now' : Q)
  | Query (duration : Q) (success : bool) (now : Q).

Definition record (r : Recording) (m : MetricsCollector)
    : Res MetricsCollector :=
  match r with
  | Request method path status_code duration now =>
      record_request method path status_code duration now m
  | Inference model duration success input_tokens now now' =>
      record_ml_inference model duration success input_tokens now now' m
  | Query duration success now => record_database_query duration success now m
  end.

(** The calls of a sequence made one after the other; the first exception
    ends the sequence. *)
Fixpoint record_calls (rs : list Recording) (m : MetricsCollector)
    : Res MetricsCollector :=
  match rs with
  | [] => Ok m
  | r :: rest =>
      match record r m with
      | Raise e => Raise e
      | Ok m' => record_calls rest m'
      end
  end.

(** The collector of a new [HealthChecker]: [MetricsCollector()]. *)
Definition new_metrics : MetricsCollector := Monitoring.init 1000.

(** A summary with every number zero. *)
Definition zero_summary : MetricsSummary :=
  {| requests := {| req_total := 0; req_errors := 0;
                    req_response_time := neutral_stats |};
     ml_inferences := {| inf_total := 0; inf_errors := 0;
                         inf_duration := neutral_stats |};
     database := {| db_queries := 0; db_errors := 0;
                    db_response_time := neutral_stats |} |}.

(** The character [{] occurs in the string. *)
Fixpoint has_brace (s : string) : bool :=
  match s with
  | EmptyString => false
  | String a rest => bool_decide (String a "" = "{") || has_brace rest
  end.

(** ** [run_check], [run_all_checks] and [get_overall_status] *)

(** [run_check]. The check functions are given by what awaiting them does;
    [elapsed] is the difference of the two readings of the clock and
    [stamp] the text of [datetime.utcnow().isoformat()]. *)
Definition run_check (checks : gmap string CheckOutcome) (name : string)
    (elapsed : Q) (stamp : string) : HealthCheckResult :=
  match checks !! name with
  | None =>
      {| hc_status := "fail"; message := "Check " +:+ name +:+ " not found";
         duration := None; hc_timestamp := None; details := None;
         error := None |}
  | Some (Returns result) =>
      {| hc_status := hc_status result; message := message result;
         duration := Some (elapsed * 1000)%Q;
         hc_timestamp := Some (stamp +:+ "Z");
         details := details result; error := error result |}
  | Some TimesOut =>
      {| hc_status := "fail"; message := "Check " +:+ name +:+ " timed out";
         duration := None; hc_timestamp := None; details := None;
         error := Some "Timeout after 10 seconds" |}
  | Some (Raises e) =>
      {| hc_status := "fail";
         message := "Check " +:+ name +:+ " failed: " +:+ exc_msg e;
         duration := None; hc_timestamp := None; details := None;
         error := Some (exc_msg e) |}
  end.

(** [run_all_checks]: one [run_check] for each key of [self.checks]. *)
Definition run_all_checks (checks : gmap string CheckOutcome)
    (elapsed : string -> Q) (stamp : string -> string)
    : gmap string HealthCheckResult :=
  map_imap (fun name _ =>
              Some (run_check checks name (elapsed name) (stamp name)))
    checks.

Definition get_overall_status (checks : gmap string HealthCheckResult)
    : string :=
  let statuses := map hc_status (map_to_list checks).*2 in
  if bool_decide ("fail" ∈ statuses) then "fail"
  else if bool_decide ("warn" ∈ statuses) then "warn"
  else "pass".

(** ** Notions used in the statements about the metrics *)

(** Every key in use has labels, and the series are bounded by 1000. *)
Definition labelled (m : MetricsCollector) : Prop :=
  max_points m = 1000
  /\ (forall key, is_Some (counters m !! key) -> has_brace key = true)
  /\ (forall key, is_Some (metrics m !! key) -> has_brace key = true).

(** The value of the counter stored under a key. *)
Definition cnt (m : MetricsCollector) (key : string) : Z :=
  default 0 (counters m !! key).

(** One total counter and the error counter that goes with it: under every
    label text the errors are at most the total. *)
Definition errors_below (total errors : string) (m : MetricsCollector)
    : Prop :=
  forall ls,
    cnt m (errors +:+ "{" +:+ ls +:+ "}")
    <= cnt m (total +:+ "{" +:+ ls +:+ "}").

Definition balanced (m : MetricsCollector) : Prop :=
  errors_below "http_requests_total" "http_requests_errors_total" m
  /\ errors_below "ml_inferences_total" "ml_inference_errors_total" m
  /\ errors_below "database_queries_total" "database_errors_total" m.

(** ** [_format_duration] *)

Definition Qltb (x y : Q) : bool := negb (Qle_bool y x).

(** [int(x)] for a float: the fraction is cut off. *)
Definition py_int (x : Q) : Z := Z.quot (Qnum x) (Z.pos (Qden x)).

(** [math.fmod(x, y)] of C, with [y] not zero. It is exact: [x] less [y]
    times their quotient cut towards zero. *)
Definition fmod (x y : Q) : Q := (x - y * inject_Z (py_int (x / y)))%Q.

(** The remainder has not the sign of the divisor: the test
    [(wx < 0) != (mod < 0)] of CPython's float division. *)
Definition sign_differs (y m : Q) : bool := xorb (Qltb y 0) (Qltb m 0).

(** [x % y] for floats, with [y] not zero, as CPython computes it: the
    remainder of [fmod], moved by [y] when its sign is not the sign of
    [y]. *)
Definition py_mod (x y : Q) : Q :=
  let m := fmod x y in
  if Qeq_bool m 0 then 0%Q
  else if sign_differs y m then Monitoring.binary64 (m + y) else m.

(** [x // y] for floats, with [y] not zero, as CPython computes it: the
    float quotient of [x - mod] and [y], lowered by one when the remainder
    was moved, and then snapped to the nearest whole number. Each float
    operation rounds its result. *)
Definition py_floordiv (x y : Q) : Q :=
  let m := fmod x y in
  let d := Monitoring.binary64 (Monitoring.binary64 (x - m) / y) in
  let div :=
    if negb (Qeq_bool m 0) && sign_differs y m
    then Monitoring.binary64 (d - 1) else d in
  if Qeq_bool div 0 then 0%Q
  else
    let floordiv := inject_Z (Qfloor div) in
    if Qltb (1 # 2) (Monitoring.binary64 (div - floordiv))
    then Monitoring.binary64 (floordiv + 1)
    else floordiv.

(** [seconds] is a finite float, read as the rational it denotes. For an
    infinity or a NaN the conversions [int(...)] of the code raise; these
    values are outside the model. *)
Definition _format_duration (seconds : Q) : string :=
  if Qltb seconds 60 then pretty (py_int seconds) +:+ "s"
  else if Qltb seconds 3600 then
    let minutes := py_int (py_floordiv seconds 60) in
    let secs := py_int (py_mod seconds 60) in
    pretty minutes +:+ "m " +:+ pretty secs +:+ "s"
  else if Qltb seconds 86400 then
    let hours := py_int (py_floordiv seconds 3600) in
    let minutes := py_int (py_floordiv (py_mod seconds 3600) 60) in
    pretty hours +:+ "h " +:+ pretty minutes +:+ "m"
  else
    let days := py_int (py_floordiv seconds 86400) in
    let hours := py_int (py_floordiv (py_mod seconds 86400) 3600) in
    pretty days +:+ "d " +:+ pretty hours +:+ "h".

(** The text for a whole number of seconds, by integer division. *)
Definition whole_seconds_text (n : Z) : string :=
  if n <? 60 then pretty n +:+ "s"
  else if n <? 3600 then
    pretty (n / 60) +:+ "m " +:+ pretty (n mod 60) +:+ "s"
  else if n <? 86400 then
    pretty (n / 3600) +:+ "h " +:+ pretty (n mod 3600 / 60) +:+ "m"
  else
    pretty (n / 86400) +:+ "d " +:+ pretty (n mod 86400 / 3600) +:+ "h".

End HealthChecker.

(** * Properties of the retraining pipeline *)

Module RetrainingPipelineFacts.
Import RetrainingPipeline.
Import Examples.

(** *** The execution plan *)

Lemma elem_of_concat {A} (x : A) (ls : list (list A)) :
  x ∈ concat ls ↔ ∃ l, l ∈ ls ∧ x ∈ l.
Proof.
  rewrite list_elem_of_In, in_concat. split.
  - intros (l & Hl & Hx). exists l. by rewrite !list_elem_of_In.
  - intros (l & Hl & Hx). exists l. by rewrite <- !list_elem_of_In.
Qed.

Lemma find_ready_sub tsk l c ready :
  find_ready tsk l c = Ok ready → ∀ id, id ∈ ready → id ∈ l.
Proof.
  revert ready. induction l as [|x l IH]; cbn [find_ready]; intros ready Hf id Hid.
  - injection Hf as <-. done.
  - destruct (tsk !! x) as [task|]; [|done].
    destruct (find_ready tsk l c) as [rd|e]; [|done].
    destruct (forallb _ _); injection Hf as <-.
    + apply elem_of_cons in Hid as [->|Hid]; [left|right; eauto].
    + right; eauto.
Qed.

Lemma find_ready_spec tsk l c :
  (∀ id, id ∈ l → is_Some (tsk !! id)) →
  find_ready tsk l c = Ok (filter (fun id => is_ready tsk c id = true) l).
Proof.
  induction l as [|x l IH]; intros Hdom; [done|]. cbn [find_ready].
  destruct (Hdom x) as [task Ht]; [left|].
  rewrite Ht, IH by (intros; apply Hdom; by right).
  rewrite filter_cons.
  assert (is_ready tsk c x
          = forallb (fun dep => bool_decide (dep ∈ c)) (deps_of task)) as ->.
  { unfold is_ready. by rewrite Ht. }
  destruct (forallb _ _); by case_decide.
Qed.

Lemma is_ready_deps tsk c id task dep :
  is_ready tsk c id = true → tsk !! id = Some task → dep ∈ deps_of task →
  dep ∈ c.
Proof.
  unfold is_ready. intros Hr Ht Hd. rewrite Ht in Hr.
  rewrite forallb_forall in Hr.
  apply list_elem_of_In, Hr in Hd. by apply bool_decide_eq_true in Hd.
Qed.

Lemma is_ready_false tsk c id task :
  tsk !! id = Some task → is_ready tsk c id = false →
  ∃ dep, dep ∈ deps_of task ∧ dep ∉ c.
Proof.
  unfold is_ready. intros -> Hr.
  destruct (forallb _ _) eqn:Hf; [done|]. clear Hr.
  induction (deps_of task) as [|d ds IH]; [done|]. simpl in Hf.
  apply andb_false_iff in Hf as [Hd|Hds].
  - exists d. split; [left|]. by apply bool_decide_eq_false in Hd.
  - destruct (IH Hds) as (dep & ? & ?). exists dep. split; [by right|done].
Qed.

Lemma layered_snoc tsk plan ready :
  layered tsk plan →
  (∀ id, id ∈ ready → is_ready tsk (list_to_set (concat plan)) id = true) →
  layered tsk (plan ++ [ready]).
Proof.
  intros Hl Hr i wave id task dep Hi Hid Ht Hdep.
  apply lookup_app_Some in Hi as [Hi|[Hlen Hi]].
  - destruct (Hl i wave id task dep Hi Hid Ht Hdep) as (j & w & ? & Hj & ?).
    exists j, w. split; [done|]. split; [|done].
    by apply lookup_app_l_Some.
  - apply list_lookup_singleton_Some in Hi as [Hi <-].
    pose proof (is_ready_deps _ _ _ _ _ (Hr id Hid) Ht Hdep) as Hc.
    apply elem_of_list_to_set, elem_of_concat in Hc as (w & Hw & Hdw).
    apply list_elem_of_lookup in Hw as [j Hj].
    exists j, w. split; [|split; [by apply lookup_app_l_Some|done]].
    apply lookup_lt_Some in Hj. lia.
Qed.

Lemma plan_loop_spec tsk : ∀ fuel plan rem comp,
  (size rem < fuel)%nat →
  comp = list_to_set (concat plan) →
  rem = dom tsk ∖ comp →
  (∀ id, id ∈ concat plan → id ∈ dom tsk) →
  layered tsk plan →
  NoDup (concat plan) →
  ∃ plan', plan_loop fuel tsk plan rem comp = Ok plan'
    ∧ layered tsk plan'
    ∧ (∀ id, id ∈ concat plan' → id ∈ dom tsk)
    ∧ (∀ id, id ∈ dom tsk → id ∉ concat plan' →
         is_ready tsk (list_to_set (concat plan')) id = false)
    ∧ NoDup (concat plan').
Proof.
  induction fuel as [|fuel IH]; intros plan rem comp Hfuel Hcomp Hrem Hsub Hl Hnd;
    [lia|].
  cbn [plan_loop]. case_decide as Hempty.
  { exists plan. repeat split; try done.
    intros id Hid Hnot. exfalso.
    assert (id ∈ rem) as Hin; [|by rewrite Hempty in Hin].
    rewrite Hrem, Hcomp. apply elem_of_difference. split; [done|].
    by rewrite elem_of_list_to_set. }
  assert (Hremdom : ∀ id, id ∈ rem ↔ id ∈ dom tsk ∧ id ∉ concat plan).
  { intros id. rewrite Hrem, Hcomp, elem_of_difference, elem_of_list_to_set.
    done. }
  rewrite find_ready_spec; last first.
  { intros id Hid. apply elem_of_elements, Hremdom in Hid as [Hid _].
    by apply elem_of_dom. }
  remember (filter (fun id => is_ready tsk comp id = true) (elements rem))
    as ready eqn:Hrd.
  assert (Hready : ∀ id, id ∈ ready ↔ id ∈ rem ∧ is_ready tsk comp id = true).
  { intros id. rewrite Hrd, list_elem_of_filter, elem_of_elements. tauto. }
  assert (Hndr : NoDup ready).
  { rewrite Hrd. apply NoDup_filter, NoDup_elements. }
  destruct ready as [|r rs].
  { exists plan. repeat split; try done.
    intros id Hid Hnot. rewrite <- Hcomp.
    destruct (is_ready tsk comp id) eqn:Hr; [|done]. exfalso.
    assert (id ∈ @nil string) as Hin; [|by apply elem_of_nil in Hin].
    apply Hready. split; [|done]. by apply Hremdom. }
  assert (r ∈ rem) as Hr by (apply Hready; left).
  destruct (IH (plan ++ [r :: rs]) (rem ∖ list_to_set (r :: rs))
              (comp ∪ list_to_set (r :: rs))) as (plan' & Hp & ?).
  - assert (rem ∖ list_to_set (r :: rs) ⊂ rem) as Hss.
    { clear -Hr. set_solver. }
    apply subset_size in Hss. lia.
  - rewrite concat_app, list_to_set_app_L, Hcomp. cbn [concat].
    by rewrite app_nil_r.
  - rewrite Hrem. clear. set_solver.
  - intros id. rewrite concat_app, elem_of_app. cbn [concat].
    rewrite app_nil_r.
    intros [Hid|Hid]; [by apply Hsub|].
    apply Hready in Hid as [Hid _]. by apply Hremdom in Hid as [Hid _].
  - apply layered_snoc; [done|]. intros id Hid. rewrite <- Hcomp.
    by apply Hready.
  - rewrite concat_app. cbn [concat]. rewrite app_nil_r.
    apply NoDup_app. split; [done|]. split; [|done].
    intros id Hid Hid'. apply Hready in Hid' as [Hid' _].
    apply Hremdom in Hid' as [_ Hid']. done.
  - exists plan'. by split.
Qed.

Lemma plan_loop_fuel tsk : ∀ fuel fuel' plan rem comp,
  (size rem < fuel)%nat → (size rem < fuel')%nat →
  plan_loop fuel tsk plan rem comp = plan_loop fuel' tsk plan rem comp.
Proof.
  induction fuel as [|fuel IH]; intros fuel' plan rem comp H1 H2; [lia|].
  destruct fuel' as [|fuel']; [lia|]. simpl.
  case_decide as Hempty; [done|].
  destruct (find_ready tsk (elements rem) comp) as [ready|e] eqn:Hf; [|done].
  destruct ready as [|r rs]; [done|].
  assert (rem ∖ list_to_set (r :: rs) ⊂ rem) as Hss.
  { pose proof (find_ready_sub _ _ _ _ Hf r ltac:(left)) as Hr.
    apply elem_of_elements in Hr. clear -Hr. set_solver. }
  apply subset_size in Hss. apply IH; lia.
Qed.

Lemma build_plan_spec tsk :
  ∃ plan, _build_execution_plan tsk = Ok plan
    ∧ layered tsk plan
    ∧ (∀ id, id ∈ concat plan → id ∈ dom tsk)
    ∧ (∀ id, id ∈ dom tsk → id ∉ concat plan →
         is_ready tsk (list_to_set (concat plan)) id = false)
    ∧ NoDup (concat plan).
Proof.
  unfold _build_execution_plan. apply plan_loop_spec.
  - lia.
  - done.
  - simpl. set_solver.
  - intros id Hid. by apply elem_of_nil in Hid.
  - intros i wave id task dep Hi. by rewrite lookup_nil in Hi.
  - constructor.
Qed.

(** *** Frames *)

Lemma extends_refl p : extends p p [].
Proof. split; try done. by rewrite app_nil_r. Qed.

Lemma extends_trans p1 p2 p3 e1 e2 :
  extends p1 p2 e1 → extends p2 p3 e2 → extends p1 p3 (e1 ++ e2).
Proof.
  intros [] []. split; try congruence.
  rewrite app_assoc. congruence.
Qed.

Lemma terminal_SUCCESS : terminal SUCCESS.
Proof. by left. Qed.

Lemma terminal_FAILED : terminal FAILED.
Proof. by right. Qed.

#[local] Hint Resolve terminal_SUCCESS terminal_FAILED extends_refl : core.

Lemma task_event_not_notify id ev : task_event id ev → is_notify ev = false.
Proof. by destruct ev. Qed.

Lemma task_event_result id st : terminal st → task_event id (EvResult id st).
Proof. by split. Qed.

Lemma task_event_attempt id a : task_event id (EvAttempt id a).
Proof. done. Qed.

Lemma store_result_spec id r p :
  terminal (status r) →
  ∃ p', store_result id r p = (Ok tt, p')
    ∧ extends p p' [EvResult id (status r)]
    ∧ task_results p' = <[id := r]> (task_results p)
    ∧ pipeline_state p' = pipeline_state p
    ∧ (∀ id', settled p id' → settled p' id').
Proof.
  intros Ht. eexists. split; [reflexivity|]. split; [by split|].
  split; [done|]. split; [done|].
  intros id' (r' & Hr' & Ht'). unfold settled. simpl.
  destruct (decide (id = id')) as [->|Hne].
  - exists r. by rewrite lookup_insert_eq.
  - exists r'. by rewrite lookup_insert_ne.
Qed.

Lemma on_error_spec tc start attempt msg result p :
  (∀ r0, result = Some r0 → status r0 = FAILED) →
  ∃ result' p' evs,
    on_error tc start attempt msg result p = (Ok result', p')
    ∧ extends p p' evs
    ∧ Forall (task_event (task_id tc)) evs
    ∧ task_results p' = task_results p
    ∧ (∀ r0, result' = Some r0 → status r0 = FAILED)
    ∧ (retry_count tc ≤ attempt → is_Some result')
    ∧ (is_Some result → is_Some result')
    ∧ (attempt < retry_count tc → evs = [EvSleep (2 ^ attempt)] ∧ result' = result)
    ∧ (retry_count tc ≤ attempt → evs = []).
Proof.
  intros Hres. unfold on_error.
  destruct (Z.ltb_spec attempt (retry_count tc)) as [Hlt|Hge].
  - eexists result, _, [EvSleep (2 ^ attempt)].
    split; [reflexivity|]. split; [by split|].
    split; [by repeat constructor|]. split; [done|]. split; [done|].
    split; [lia|]. split; [done|]. split; [done|lia].
  - eexists (Some _), p, []. split; [reflexivity|].
    split; [done|]. split; [constructor|]. split; [done|].
    split; [by intros r0 [= <-]|]. split; [by eauto|]. split; [by eauto|].
    split; [lia|done].
Qed.

Lemma settled_task_results p p' :
  task_results p' = task_results p → ∀ id, settled p id → settled p' id.
Proof. intros Heq id. unfold settled. by rewrite Heq. Qed.

Lemma call_body_spec tc attempt p :
  ∃ out p', call_body tc attempt p = (Ok out, p')
    ∧ extends p p' [EvAttempt (task_id tc) attempt]
    ∧ task_results p' = task_results p
    ∧ out = (function tc (ncalls p) (pipeline_state p)).1
    ∧ pipeline_state p' = (function tc (ncalls p) (pipeline_state p)).2.
Proof.
  unfold call_body.
  destruct (function tc (ncalls p) (pipeline_state p)) as [out st].
  eexists out, _. split; [reflexivity|]. split; [by split|]. done.
Qed.

Lemma attempt_loop_spec tc start : ∀ attempts result p r p',
  attempt_loop tc start attempts result p = (r, p') →
  (∀ r0, result = Some r0 → status r0 = FAILED) →
  ∃ evs, extends p p' evs
    ∧ Forall (task_event (task_id tc)) evs
    ∧ (∀ id, settled p id → settled p' id)
    ∧ ∀ r0, r = Ok r0 →
        terminal (status r0)
        ∧ task_results p' !! task_id tc = Some r0
        ∧ EvResult (task_id tc) (status r0) ∈ evs
        ∧ (result = None → executed (task_id tc) evs).
Proof.
  induction attempts as [|attempt rest IH]; intros result p r p' Hrun Hres.
  - cbn [attempt_loop] in Hrun. destruct result as [r1|].
    + unfold bind in Hrun.
      destruct (store_result_spec (task_id tc) r1 p) as (p1 & Hs & He & Htr & _ & Hset).
      { rewrite (Hres r1 eq_refl). apply terminal_FAILED. }
      rewrite Hs in Hrun. injection Hrun as <- <-.
      exists [EvResult (task_id tc) (status r1)].
      split; [done|]. split.
      { apply Forall_singleton, task_event_result.
        rewrite (Hres r1 eq_refl). apply terminal_FAILED. }
      split; [done|]. intros r0 [= <-].
      split; [rewrite (Hres r1 eq_refl); apply terminal_FAILED|].
      split; [by rewrite Htr, lookup_insert_eq|].
      split; [left|done].
    + injection Hrun as <- <-. exists []. split; [done|].
      split; [constructor|]. split; [done|]. done.
  - cbn [attempt_loop] in Hrun. unfold bind at 1 in Hrun.
    destruct (call_body_spec tc attempt p) as (out & p1 & Hc & He1 & Htr1 & _).
    rewrite Hc in Hrun.
    assert (Hex : ∀ evs', executed (task_id tc)
                    ([EvAttempt (task_id tc) attempt] ++ evs')).
    { intros evs'. exists attempt. left. }
    destruct out as [o|e|].
    + unfold bind, datetime_now in Hrun.
      set (r1 := {| r_task_id := task_id tc; status := SUCCESS |}) in Hrun.
      destruct (store_result_spec (task_id tc) r1 p1) as (p2 & Hs & He2 & Htr2 & _ & Hset);
        [apply terminal_SUCCESS|].
      rewrite Hs in Hrun. unfold ret in Hrun. injection Hrun as <- <-.
      eexists. split; [eapply extends_trans; eauto|].
      split.
      { apply Forall_app. split; apply Forall_singleton;
          [apply task_event_attempt|apply task_event_result, terminal_SUCCESS]. }
      split.
      { intros id Hid. apply Hset. by eapply settled_task_results. }
      intros r0 [= <-]. split; [apply terminal_SUCCESS|].
      split; [by rewrite Htr2, lookup_insert_eq|].
      split; [right; left|]. intros _. apply Hex.
    + unfold bind at 1 in Hrun.
      destruct (on_error_spec tc start attempt (failed_msg tc e) result p1 Hres)
        as (result' & p2 & evs2 & Ho & He2 & Hev2 & Htr2 & Hres' & _ & _).
      rewrite Ho in Hrun.
      destruct (IH _ _ _ _ Hrun Hres') as (evs3 & He3 & Hev3 & Hset3 & Hok).
      exists ([EvAttempt (task_id tc) attempt] ++ evs2 ++ evs3).
      split; [eauto using extends_trans|].
      split.
      { apply Forall_app. split; [by apply Forall_singleton|].
        apply Forall_app. by split. }
      split.
      { intros id Hid. apply Hset3.
        eapply settled_task_results; [done|].
        by eapply settled_task_results. }
      intros r0 Hr0. destruct (Hok r0 Hr0) as (? & ? & Hin & _).
      split; [done|]. split; [done|].
      split; [|intros _; apply Hex].
      rewrite !elem_of_app. by right; right.
    + unfold bind at 1 in Hrun.
      destruct (on_error_spec tc start attempt (timeout_msg tc) result p1 Hres)
        as (result' & p2 & evs2 & Ho & He2 & Hev2 & Htr2 & Hres' & _ & _).
      rewrite Ho in Hrun.
      destruct (IH _ _ _ _ Hrun Hres') as (evs3 & He3 & Hev3 & Hset3 & Hok).
      exists ([EvAttempt (task_id tc) attempt] ++ evs2 ++ evs3).
      split; [eauto using extends_trans|].
      split.
      { apply Forall_app. split; [by apply Forall_singleton|].
        apply Forall_app. by split. }
      split.
      { intros id Hid. apply Hset3.
        eapply settled_task_results; [done|].
        by eapply settled_task_results. }
      intros r0 Hr0. destruct (Hok r0 Hr0) as (? & ? & Hin & _).
      split; [done|]. split; [done|].
      split; [|intros _; apply Hex].
      rewrite !elem_of_app. by right; right.
Qed.

(** The loop ends with a result when [result] is bound or the last attempt
    is numbered at least [retry_count]. *)
Lemma attempt_loop_ok tc start : ∀ attempts result p,
  (∀ r0, result = Some r0 → status r0 = FAILED) →
  is_Some result ∨ (∃ a, last attempts = Some a ∧ retry_count tc ≤ a) →
  is_ok (attempt_loop tc start attempts result p).1 = true.
Proof.
  induction attempts as [|attempt rest IH]; intros result p Hres Hor.
  - destruct Hor as [[r1 ->]|(a & Ha & _)]; [done|done].
  - cbn [attempt_loop]. unfold bind at 1.
    destruct (call_body_spec tc attempt p) as (out & p1 & -> & _).
    assert (Hstep : ∀ msg,
      is_ok ((do result' <- on_error tc start attempt msg result;;
              attempt_loop tc start rest result') p1).1 = true).
    { intros msg. unfold bind at 1.
      destruct (on_error_spec tc start attempt msg result p1 Hres)
        as (result' & p2 & evs2 & -> & _ & _ & _ & Hres' & Hge & Hsome & _).
      apply IH; [done|].
      destruct Hor as [Hs|(a & Ha & Hle)]; [left; auto|].
      destruct rest as [|b rest'].
      - left. apply Hge. simpl in Ha. by injection Ha as ->.
      - right. exists a. split; [|done]. by rewrite last_cons_cons in Ha. }
    destruct out as [o|e|]; [done|apply Hstep|apply Hstep].
Qed.

Lemma last_range rc : 0 ≤ rc → last (range (rc + 1)) = Some rc.
Proof.
  intros Hrc. unfold range.
  replace (rc + 1) with (Z.of_nat (S (Z.to_nat rc))) by lia.
  rewrite seqZ_S, last_snoc. f_equal. lia.
Qed.

Lemma _execute_task_spec tc p r p' :
  _execute_task tc p = (r, p') →
  ∃ evs, extends p p' evs
    ∧ Forall (task_event (task_id tc)) evs
    ∧ (∀ id, settled p id → settled p' id)
    ∧ (0 ≤ retry_count tc → is_ok r = true)
    ∧ ∀ r0, r = Ok r0 →
        terminal (status r0)
        ∧ task_results p' !! task_id tc = Some r0
        ∧ EvResult (task_id tc) (status r0) ∈ evs
        ∧ executed (task_id tc) evs.
Proof.
  unfold _execute_task, bind, datetime_now. intros Hrun.
  destruct (attempt_loop_spec _ _ _ _ _ _ _ Hrun) as (evs & He & Hev & Hset & Hok);
    [done|].
  exists evs. split; [done|]. split; [done|]. split; [done|]. split.
  - intros Hrc.
    pose proof (attempt_loop_ok tc (clock p) (range (retry_count tc + 1)) None p) as H.
    rewrite Hrun in H. apply H; [done|].
    right. exists (retry_count tc). split; [by apply last_range|lia].
  - intros r0 Hr0. destruct (Hok r0 Hr0) as (? & ? & ? & Hex). auto.
Qed.

(** *** Batches *)

Lemma batch_configs_state batch : ∀ p, (batch_configs batch p).2 = p.
Proof.
  induction batch as [|id rest IH]; intros p; [done|].
  cbn [batch_configs]. unfold bind at 1, get_task.
  destruct (tasks p !! id) as [tc|]; [|done].
  unfold bind at 1. specialize (IH p).
  destruct (batch_configs rest p) as [[cfgs|e] p1]; simpl in *; by subst.
Qed.

Lemma batch_configs_ok batch : ∀ p,
  (∀ id, id ∈ batch → is_Some (tasks p !! id)) →
  ∃ cfgs, batch_configs batch p = (Ok cfgs, p)
    ∧ Forall2 (fun id tc => tasks p !! id = Some tc) batch cfgs.
Proof.
  induction batch as [|id rest IH]; intros p Hdom.
  - exists []. split; [done|constructor].
  - destruct (Hdom id) as [tc Htc]; [left|].
    destruct (IH p) as (cfgs & Hc & Hf); [intros; apply Hdom; by right|].
    exists (tc :: cfgs). split; [|by constructor].
    cbn [batch_configs]. unfold bind at 1, get_task. rewrite Htc.
    unfold bind at 1. by rewrite Hc.
Qed.

Lemma gather_spec cfgs : ∀ p r p',
  gather (map _execute_task cfgs) p = (r, p') →
  ∃ results evs, r = Ok results ∧ extends p p' evs
    ∧ Forall (fun ev => ∃ tc, tc ∈ cfgs ∧ task_event (task_id tc) ev) evs
    ∧ (∀ id, settled p id → settled p' id)
    ∧ Forall2
        (fun tc res =>
           (0 ≤ retry_count tc → is_ok res = true)
           ∧ ∀ r0, res = Ok r0 →
               (∃ st, terminal st ∧ EvResult (task_id tc) st ∈ evs)
               ∧ executed (task_id tc) evs
               ∧ settled p' (task_id tc))
        cfgs results.
Proof.
  induction cfgs as [|tc rest IH]; intros p r p' Hrun.
  - injection Hrun as <- <-. exists [], []. split; [done|]. split; [done|].
    split; [constructor|]. split; [done|constructor].
  - cbn [map gather] in Hrun.
    destruct (_execute_task tc p) as [res p1] eqn:Ht.
    destruct (gather (map _execute_task rest) p1) as [rs p2] eqn:Hg.
    destruct (IH _ _ _ Hg) as (results & evs2 & -> & He2 & Hev2 & Hset2 & Hf2).
    injection Hrun as <- <-.
    destruct (_execute_task_spec _ _ _ _ Ht) as (evs1 & He1 & Hev1 & Hset1 & Hok1 & Hr1).
    exists (res :: results), (evs1 ++ evs2). split; [done|].
    split; [by eapply extends_trans|]. split.
    { apply Forall_app. split.
      - eapply Forall_impl; [exact Hev1|]. intros ev Hev. exists tc.
        split; [left|done].
      - eapply Forall_impl; [exact Hev2|]. intros ev (tc' & Hin & Hev).
        exists tc'. split; [by right|done]. }
    split; [auto|]. constructor.
    + split; [done|]. intros r0 Hr0.
      destruct (Hr1 r0 Hr0) as (Hterm & Hlook & Hin & (a & Ha)).
      split; [|split].
      * exists (status r0). split; [done|]. apply elem_of_app. by left.
      * exists a. apply elem_of_app. by left.
      * apply Hset2. by exists r0.
    + eapply Forall2_impl; [exact Hf2|]. intros tc' res' [Hok' Hr'].
      split; [done|]. intros r0 Hr0.
      destruct (Hr' r0 Hr0) as ((st & Hst & Hin) & (a & Ha) & Hs).
      split; [|split; [|done]].
      * exists st. split; [done|]. apply elem_of_app. by right.
      * exists a. apply elem_of_app. by right.
Qed.

Lemma check_failures_frame : ∀ results batch p r p',
  check_failures batch results p = (r, p') →
  ∃ evs, extends p p' evs
    ∧ Forall (fun ev => is_notify ev = false) evs
    ∧ (∀ id, settled p id → settled p' id).
Proof.
  induction results as [|res results IH]; intros batch p r p' Hrun.
  - destruct batch; cbn [check_failures] in Hrun; unfold ret in Hrun;
      injection Hrun as <- <-; exists []; (split; [done|]);
      (split; [constructor|done]).
  - cbn [check_failures] in Hrun. destruct batch as [|id batch'].
    + unfold raise in Hrun. injection Hrun as <- <-. exists []. split; [done|].
      split; [constructor|done].
    + destruct res as [r0|e]; cbn [check_failures] in Hrun; [by eapply IH|].
      unfold bind, datetime_now in Hrun.
      match type of Hrun with context [store_result id ?r1 p] =>
        destruct (store_result_spec id r1 p) as (p1 & Hs & He & _ & _ & Hset);
          [apply terminal_FAILED|]
      end.
      rewrite Hs in Hrun. injection Hrun as <- <-.
      eexists. split; [exact He|]. split; [by repeat constructor|done].
Qed.

Lemma check_failures_spec : ∀ results batch p,
  length batch = length results →
  ∃ b p' evs, check_failures batch results p = (Ok b, p')
    ∧ extends p p' evs
    ∧ Forall (fun ev => ∃ id, id ∈ batch ∧ task_event id ev) evs
    ∧ (b = true → Forall (fun res => is_ok res = true) results)
    ∧ (Forall (fun res => is_ok res = true) results → b = true).
Proof.
  induction results as [|res results IH]; intros batch p Hlen.
  - exists true, p, []. split; [by destruct batch|]. split; [done|].
    split; [constructor|]. split; [constructor|done].
  - destruct batch as [|id batch']; [done|].
    cbn [check_failures]. destruct res as [r0|e].
    + destruct (IH batch' p) as (b & p' & evs & Hc & He & Hev & Hb1 & Hb2).
      { simpl in Hlen. lia. }
      exists b, p', evs. split; [done|]. split; [done|]. split.
      { eapply Forall_impl; [exact Hev|]. intros ev (id' & Hin & Ht).
        exists id'. split; [by right|done]. }
      split.
      * intros Hb. constructor; [done|auto].
      * intros Hall. apply Hb2. by inversion Hall.
    + unfold bind, datetime_now.
      match goal with |- context [store_result id ?r1 p] =>
        destruct (store_result_spec id r1 p) as (p1 & Hs & He & _ & _ & Hset);
          [apply terminal_FAILED|]
      end.
      rewrite Hs. eexists false, p1, _. split; [done|]. split; [exact He|].
      split.
      { apply Forall_singleton. exists id. split; [left|].
        apply task_event_result, terminal_FAILED. }
      split; [done|]. intros Hall. by inversion Hall.
Qed.

Lemma run_batch_frame batch p r p' :
  run_batch batch p = (r, p') →
  ∃ evs, extends p p' evs
    ∧ Forall (fun ev => is_notify ev = false) evs
    ∧ (∀ id, settled p id → settled p' id).
Proof.
  unfold run_batch. unfold bind at 1.
  pose proof (batch_configs_state batch p) as Hst.
  destruct (batch_configs batch p) as [[cfgs|e] p0]; simpl in Hst; subst p0.
  - unfold bind at 1.
    destruct (gather (map _execute_task cfgs) p) as [rg p1] eqn:Hg.
    destruct (gather_spec _ _ _ _ Hg) as (results & evs1 & -> & He1 & Hev1 & Hset1 & _).
    intros Hc.
    destruct (check_failures_frame _ _ _ _ _ Hc) as (evs2 & He2 & Hev2 & Hset2).
    exists (evs1 ++ evs2). split; [by eapply extends_trans|].
    split; [|auto]. apply Forall_app. split; [|done].
    eapply Forall_impl; [exact Hev1|]. intros ev (tc & _ & Hev).
    by eapply task_event_not_notify.
  - intros [= <- <-]. exists []. split; [done|]. split; [constructor|done].
Qed.

Lemma run_batch_spec batch p :
  wf_tasks (tasks p) →
  (∀ id, id ∈ batch → is_Some (tasks p !! id)) →
  ∃ b p' evs, run_batch batch p = (Ok b, p')
    ∧ extends p p' evs
    ∧ Forall (fun ev => ∃ id, id ∈ batch ∧ task_event id ev) evs
    ∧ (b = true → ∀ id, id ∈ batch →
         (∃ st, terminal st ∧ EvResult id st ∈ evs)
         ∧ executed id evs ∧ settled p' id)
    ∧ ((∀ id task, id ∈ batch → tasks p !! id = Some task →
          0 ≤ retry_count task) → b = true).
Proof.
  intros Hwf Hdom. unfold run_batch. unfold bind at 1.
  destruct (batch_configs_ok batch p Hdom) as (cfgs & -> & Hf).
  unfold bind at 1.
  destruct (gather (map _execute_task cfgs) p) as [rg p1] eqn:Hg.
  destruct (gather_spec _ _ _ _ Hg) as (results & evs1 & -> & He1 & Hev1 & Hset1 & Hf2).
  destruct (check_failures_spec results batch p1)
    as (b & p' & evs2 & Hc & He2 & Hev2 & Hb1 & Hb2).
  { rewrite (Forall2_length _ _ _ Hf). by rewrite (Forall2_length _ _ _ Hf2). }
  pose proof (check_failures_frame _ _ _ _ _ Hc) as (evs2' & He2' & _ & Hset2).
  assert (Hids : ∀ tc, tc ∈ cfgs → task_id tc ∈ batch).
  { intros tc Htc. apply list_elem_of_lookup in Htc as [i Hi].
    destruct (Forall2_lookup_r _ _ _ _ _ Hf Hi) as (id & Hid & Hl).
    rewrite (Hwf _ _ Hl). by eapply list_elem_of_lookup_2. }
  exists b, p', (evs1 ++ evs2). split; [done|].
  split; [by eapply extends_trans|]. split.
  { apply Forall_app. split; [|done].
    eapply Forall_impl; [exact Hev1|]. intros ev (tc & Htc & Hev).
    exists (task_id tc). split; [auto|done]. }
  split.
  - intros Hb id Hid. specialize (Hb1 Hb).
    apply list_elem_of_lookup in Hid as [i Hi].
    destruct (Forall2_lookup_l _ _ _ _ _ Hf Hi) as (tc & Htc & Hl).
    destruct (Forall2_lookup_l _ _ _ _ _ Hf2 Htc) as (res & Hres & _ & Hr).
    rewrite Forall_lookup in Hb1. specialize (Hb1 _ _ Hres).
    destruct res as [r0|e]; [|done].
    destruct (Hr r0 eq_refl) as ((st & Hst & Hin) & (a & Ha) & Hs).
    rewrite (Hwf _ _ Hl) in *.
    split; [|split].
    + exists st. split; [done|]. apply elem_of_app. by left.
    + exists a. apply elem_of_app. by left.
    + by apply Hset2.
  - intros Hrc. apply Hb2. apply Forall_lookup. intros i res Hres.
    destruct (Forall2_lookup_r _ _ _ _ _ Hf2 Hres) as (tc & Htc & Hok & _).
    destruct (Forall2_lookup_r _ _ _ _ _ Hf Htc) as (id & Hid & Hl).
    apply Hok. eapply Hrc; [|exact Hl]. by eapply list_elem_of_lookup_2.
Qed.

(** *** Waves *)

Lemma app_eq_mid {A} (l1 l2 pre post : list A) (x : A) :
  l1 ++ l2 = pre ++ x :: post →
  (∃ mid, l1 = pre ++ x :: mid ∧ post = mid ++ l2)
  ∨ (∃ pre2, pre = l1 ++ pre2 ∧ l2 = pre2 ++ x :: post).
Proof.
  intros Heq. apply List.app_eq_app in Heq as [l [[H1 H2]|[H1 H2]]].
  - destruct l as [|y l].
    + right. exists []. rewrite app_nil_r in H1. simpl in H2. subst.
      by rewrite app_nil_r.
    + left. exists l. simpl in H2. injection H2 as -> ->. done.
  - right. by exists l.
Qed.

Lemma run_batches_frame plan : ∀ p r p',
  run_batches plan p = (r, p') →
  ∃ evs, extends p p' evs
    ∧ Forall (fun ev => is_notify ev = false) evs
    ∧ (∀ id, settled p id → settled p' id).
Proof.
  induction plan as [|batch rest IH]; intros p r p' Hrun.
  - injection Hrun as <- <-. exists []. split; [done|]. split; [constructor|done].
  - cbn [run_batches] in Hrun. unfold bind at 1 in Hrun.
    destruct (run_batch batch p) as [rb p1] eqn:Hb.
    destruct (run_batch_frame _ _ _ _ Hb) as (evs1 & He1 & Hev1 & Hset1).
    destruct rb as [[|]|e].
    + destruct (IH _ _ _ Hrun) as (evs2 & He2 & Hev2 & Hset2).
      exists (evs1 ++ evs2). split; [by eapply extends_trans|].
      split; [by apply Forall_app|auto].
    + injection Hrun as <- <-. by exists evs1.
    + injection Hrun as <- <-. by exists evs1.
Qed.

Lemma run_batches_spec plan : ∀ p,
  wf_tasks (tasks p) →
  (∀ id, id ∈ concat plan → is_Some (tasks p !! id)) →
  ∃ b p' evs, run_batches plan p = (Ok b, p')
    ∧ extends p p' evs
    ∧ Forall (fun ev => ∃ id, id ∈ concat plan ∧ task_event id ev) evs
    ∧ (∀ pre u k post, evs = pre ++ EvAttempt u k :: post →
         ∃ j wave, plan !! j = Some wave ∧ u ∈ wave
           ∧ ∀ i wave' t, (i < j)%nat → plan !! i = Some wave' → t ∈ wave' →
               ∃ st, terminal st ∧ EvResult t st ∈ pre)
    ∧ (b = true → ∀ id, id ∈ concat plan → executed id evs ∧ settled p' id)
    ∧ ((∀ id task, id ∈ concat plan → tasks p !! id = Some task →
          0 ≤ retry_count task) → b = true).
Proof.
  induction plan as [|batch rest IH]; intros p Hwf Hdom.
  - exists true, p, []. split; [done|]. split; [done|]. split; [constructor|].
    split.
    { intros pre u k post Heq. by destruct pre. }
    split; [|done]. intros _ id Hid. by apply elem_of_nil in Hid.
  - cbn [concat] in Hdom.
    destruct (run_batch_spec batch p Hwf) as (b1 & p1 & evs1 & Hb & He1 & Hev1 & Hdone1 & Hok1).
    { intros id Hid. apply Hdom, elem_of_app. by left. }
    pose proof (run_batch_frame _ _ _ _ Hb) as (evs1' & _ & _ & Hset1).
    assert (Hatt1 : ∀ pre u k mid, evs1 = pre ++ EvAttempt u k :: mid → u ∈ batch).
    { intros pre u k mid Heq. rewrite Heq in Hev1.
      apply Forall_app in Hev1 as [_ Hev1]. apply Forall_cons in Hev1 as [Hu _].
      destruct Hu as (id & Hid & Hu). simpl in Hu. by subst. }
    cbn [run_batches]. unfold bind at 1. rewrite Hb.
    destruct b1.
    + destruct (IH p1) as (b & p' & evs2 & Hr & He2 & Hev2 & Hord2 & Hdone2 & Hok2).
      { by rewrite (ext_tasks _ _ _ He1). }
      { intros id Hid. rewrite (ext_tasks _ _ _ He1). apply Hdom, elem_of_app.
        by right. }
      pose proof (run_batches_frame _ _ _ _ Hr) as (evs2' & _ & _ & Hset2).
      exists b, p', (evs1 ++ evs2). split; [done|].
      split; [by eapply extends_trans|]. split.
      { cbn [concat]. apply Forall_app. split.
        - eapply Forall_impl; [exact Hev1|]. intros ev (id & Hid & Hev).
          exists id. split; [apply elem_of_app; by left|done].
        - eapply Forall_impl; [exact Hev2|]. intros ev (id & Hid & Hev).
          exists id. split; [apply elem_of_app; by right|done]. }
      split.
      { intros pre u k post Heq.
        apply app_eq_mid in Heq as [(mid & Heq & _)|(pre2 & -> & Heq)].
        - exists 0%nat, batch. split; [done|]. split; [by eapply Hatt1|].
          intros i wave' t Hi. lia.
        - destruct (Hord2 _ _ _ _ Heq) as (j & wave & Hj & Hu & Hprev).
          exists (S j), wave. split; [done|]. split; [done|].
          intros i wave' t Hi Hw Ht. destruct i as [|i].
          + simpl in Hw. injection Hw as <-.
            destruct (Hdone1 eq_refl t Ht) as ((st & Hst & Hin) & _).
            exists st. split; [done|]. apply elem_of_app. by left.
          + destruct (Hprev i wave' t ltac:(lia) Hw Ht) as (st & Hst & Hin).
            exists st. split; [done|]. apply elem_of_app. by right. }
      split.
      * intros -> id Hid. cbn [concat] in Hid.
        apply elem_of_app in Hid as [Hid|Hid].
        -- destruct (Hdone1 eq_refl id Hid) as (_ & (a & Ha) & Hs).
           split; [|by apply Hset2]. exists a. apply elem_of_app. by left.
        -- destruct (Hdone2 eq_refl id Hid) as ((a & Ha) & Hs).
           split; [|done]. exists a. apply elem_of_app. by right.
      * intros Hrc. apply Hok2. intros id task Hid Ht.
        rewrite (ext_tasks _ _ _ He1) in Ht.
        eapply Hrc; [|exact Ht]. cbn [concat]. apply elem_of_app. by right.
    + exists false, p1, evs1. split; [done|]. split; [done|]. split.
      { eapply Forall_impl; [exact Hev1|]. intros ev (id & Hid & Hev).
        exists id. split; [cbn [concat]; apply elem_of_app; by left|done]. }
      split.
      { intros pre u k post Heq. exists 0%nat, batch. split; [done|].
        split; [by eapply Hatt1|]. intros i wave' t Hi. lia. }
      split; [done|]. intros Hrc. apply Hok1. intros id task Hid Ht.
      eapply Hrc; [|exact Ht]. cbn [concat]. apply elem_of_app. by left.
Qed.

(** *** A task that fails on every attempt *)

Lemma attempts_in_rounds id (l : list Z) :
  attempts_in (concat (map (fun a => [EvAttempt id a; EvSleep (2 ^ a)]) l)) = l.
Proof.
  unfold attempts_in. induction l as [|a l IH]; [done|].
  cbn [map concat]. rewrite omap_app, IH. done.
Qed.

Lemma sleeps_in_rounds id (l : list Z) :
  sleeps_in (concat (map (fun a => [EvAttempt id a; EvSleep (2 ^ a)]) l))
  = (fun a => 2 ^ a) <$> l.
Proof.
  unfold sleeps_in. induction l as [|a l IH]; [done|].
  cbn [map concat]. rewrite omap_app, IH. done.
Qed.

Lemma attempts_in_failing_trace id rc :
  0 ≤ rc → attempts_in (failing_trace id rc) = seqZ 0 (rc + 1).
Proof.
  intros Hrc. unfold failing_trace, attempts_in.
  rewrite omap_app. fold (attempts_in
    (concat (map (fun a => [EvAttempt id a; EvSleep (2 ^ a)]) (seqZ 0 rc)))).
  rewrite attempts_in_rounds, seqZ_app by lia.
  rewrite (seqZ_cons (0 + rc)), (seqZ_nil _ (Z.pred 1)) by lia. done.
Qed.

Lemma sleeps_in_failing_trace id rc :
  sleeps_in (failing_trace id rc) = (fun a => 2 ^ a) <$> seqZ 0 rc.
Proof.
  unfold failing_trace, sleeps_in.
  rewrite omap_app. fold (sleeps_in
    (concat (map (fun a => [EvAttempt id a; EvSleep (2 ^ a)]) (seqZ 0 rc)))).
  rewrite sleeps_in_rounds. cbn. by rewrite app_nil_r.
Qed.

Lemma backoff_increasing (n : nat) : ∀ k, 0 ≤ k →
  StronglySorted Z.lt ((fun a => 2 ^ a) <$> seqZ k (Z.of_nat n)).
Proof.
  induction n as [|n IH]; intros k Hk.
  - rewrite seqZ_nil by lia. constructor.
  - rewrite seqZ_cons by lia.
    replace (Z.pred (Z.of_nat (S n))) with (Z.of_nat n) by lia.
    rewrite fmap_cons. constructor; [apply IH; lia|].
    apply Forall_fmap, Forall_seqZ. intros m Hm. cbn.
    apply Z.pow_lt_mono_r; lia.
Qed.

Lemma failing_attempt tc start attempt rest result p :
  always_failing tc →
  ∃ msg p1, extends p p1 [EvAttempt (task_id tc) attempt]
    ∧ task_results p1 = task_results p
    ∧ attempt_loop tc start (attempt :: rest) result p
      = (do result' <- on_error tc start attempt msg result ;;
         attempt_loop tc start rest result') p1.
Proof.
  intros Hfail. cbn [attempt_loop]. unfold bind at 1.
  destruct (call_body_spec tc attempt p) as (out & p1 & -> & He & Htr & Hout & _).
  destruct out as [o|e|].
  - exfalso. by eapply Hfail.
  - by exists (failed_msg tc e), p1.
  - by exists (timeout_msg tc), p1.
Qed.

Lemma attempt_loop_failing tc start : ∀ (n : nat) (k : Z) p,
  always_failing tc → k + Z.of_nat n = retry_count tc →
  ∃ r p', attempt_loop tc start (seqZ k (Z.of_nat n + 1)) None p = (Ok r, p')
    ∧ status r = FAILED
    ∧ task_results p' !! task_id tc = Some r
    ∧ extends p p'
        (concat (map (fun a => [EvAttempt (task_id tc) a; EvSleep (2 ^ a)])
                   (seqZ k (Z.of_nat n)))
         ++ [EvAttempt (task_id tc) (retry_count tc);
             EvResult (task_id tc) FAILED]).
Proof.
  induction n as [|n IH]; intros k p Hfail Hk.
  - rewrite seqZ_cons, !seqZ_nil by lia.
    destruct (failing_attempt tc start k [] None p Hfail)
      as (msg & p1 & He1 & Htr1 & ->).
    unfold bind at 1.
    destruct (on_error_spec tc start k msg None p1)
      as (result' & p2 & evs2 & -> & He2 & _ & Htr2 & Hres' & Hsome & _ & _ & Hevs);
      [done|].
    destruct Hsome as [r Hr]; [lia|]. subst result'.
    rewrite Hevs in He2 by lia.
    cbn [attempt_loop]. unfold bind.
    destruct (store_result_spec (task_id tc) r p2) as (p3 & -> & He3 & Htr3 & _);
      [rewrite (Hres' r eq_refl); apply terminal_FAILED|].
    exists r, p3. split; [done|]. split; [by apply Hres'|].
    split; [by rewrite Htr3, lookup_insert_eq|].
    rewrite (Hres' r eq_refl) in He3. cbn [map concat app].
    replace (retry_count tc) with k by lia.
    pose proof (extends_trans _ _ _ _ _ He1 (extends_trans _ _ _ _ _ He2 He3)) as He.
    exact He.
  - rewrite seqZ_cons by lia.
    replace (Z.pred (Z.of_nat (S n) + 1)) with (Z.of_nat n + 1) by lia.
    rewrite (seqZ_cons k (Z.of_nat (S n))) by lia.
    replace (Z.pred (Z.of_nat (S n))) with (Z.of_nat n) by lia.
    destruct (failing_attempt tc start k (seqZ (Z.succ k) (Z.of_nat n + 1)) None p Hfail)
      as (msg & p1 & He1 & Htr1 & ->).
    unfold bind at 1.
    destruct (on_error_spec tc start k msg None p1)
      as (result' & p2 & evs2 & -> & He2 & _ & Htr2 & _ & _ & _ & Hlt & _);
      [done|].
    destruct Hlt as [-> ->]; [lia|].
    destruct (IH (Z.succ k) p2 Hfail ltac:(lia)) as (r & p' & -> & Hst & Hres & He3).
    exists r, p'. split; [done|]. split; [done|]. split; [done|].
    cbn [map concat].
    pose proof (extends_trans _ _ _ _ _ He1 (extends_trans _ _ _ _ _ He2 He3)) as He.
    exact He.
Qed.

Lemma _execute_task_failing tc p :
  always_failing tc → 0 ≤ retry_count tc →
  ∃ r p', _execute_task tc p = (Ok r, p')
    ∧ status r = FAILED
    ∧ task_results p' !! task_id tc = Some r
    ∧ extends p p' (failing_trace (task_id tc) (retry_count tc)).
Proof.
  intros Hfail Hrc. unfold _execute_task, bind, datetime_now, range.
  destruct (attempt_loop_failing tc (clock p) (Z.to_nat (retry_count tc)) 0 p Hfail)
    as (r & p' & Hrun & ?); [lia|].
  rewrite Z2Nat.id in Hrun by done. rewrite Z2Nat.id in H by done.
  by exists r, p'.
Qed.

(** *** Whole runs *)

Lemma send_notifications_spec success duration trigger err p :
  ∃ p' nevs, _send_notifications success duration trigger err p = (Ok tt, p')
    ∧ extends p p' nevs
    ∧ task_results p' = task_results p
    ∧ pipeline_state p' = pipeline_state p
    ∧ if truthy (notifications (config p))
      then nevs = [EvNotify
                     {| m_pipeline_id := pipeline_id (config p);
                        m_model_name := model_name (config p);
                        m_status := if success then "SUCCESS" else "FAILED";
                        m_trigger := trigger_value trigger;
                        m_duration_seconds := duration;
                        m_timestamp := clock p;
                        m_error := err |}]
      else nevs = [].
Proof.
  unfold _send_notifications.
  destruct (truthy (notifications (config p))); cbn [negb].
  - eexists _, _. split; [reflexivity|]. split; [by split|]. done.
  - exists p, []. split; [done|]. split; [apply extends_refl|]. done.
Qed.

Lemma set_pipeline_state_extends d p :
  extends p (set_pipeline_state d p).2 []
  ∧ task_results (set_pipeline_state d p).2 = task_results p
  ∧ clock (set_pipeline_state d p).2 = clock p.
Proof. split; [|done]. split; try done. cbn. by rewrite app_nil_r. Qed.

Lemma _execute_pipeline_frame trigger p :
  ∃ p' evs nevs, _execute_pipeline trigger p = (Ok tt, p')
    ∧ extends p p' (evs ++ nevs)
    ∧ Forall (fun ev => is_notify ev = false) evs
    ∧ (∀ id, settled p id → settled p' id)
    ∧ if truthy (notifications (config p))
      then ∃ m, nevs = [EvNotify m]
             ∧ m_pipeline_id m = pipeline_id (config p)
             ∧ m_model_name m = model_name (config p)
             ∧ (m_status m = "SUCCESS" ∨ m_status m = "FAILED")
             ∧ m_trigger m = trigger_value trigger
      else nevs = [].
Proof.
  unfold _execute_pipeline, bind at 1, datetime_now, try_except.
  unfold bind at 1. unfold bind at 1.
  destruct (set_pipeline_state_extends
              (initial_state trigger (clock p) (model_name (config p))) p)
    as (He0 & Htr0 & _).
  destruct (set_pipeline_state _ p) as [r0 p0] eqn:Hs0.
  assert (r0 = Ok tt) as -> by (by injection Hs0 as <- _). cbn [snd] in He0, Htr0.
  unfold bind at 1. unfold bind at 1. unfold lift.
  destruct (_build_execution_plan (tasks p0)) as [plan|e].
  - unfold bind at 1.
    destruct (run_batches plan p0) as [rb p1] eqn:Hrb.
    destruct (run_batches_frame _ _ _ _ Hrb) as (evs & He1 & Hev1 & Hset1).
    assert (Hset : ∀ id, settled p id → settled p1 id).
    { intros id Hid. apply Hset1. by eapply settled_task_results. }
    assert (Hconf : config p1 = config p).
    { rewrite (ext_config _ _ _ He1). apply (ext_config _ _ _ He0). }
    destruct rb as [b|e].
    + unfold bind at 1.
      destruct (send_notifications_spec b (clock p1 - clock p) trigger None p1)
        as (p2 & nevs & -> & He2 & Htr2 & _ & Hn).
      exists p2, evs, nevs. split; [done|].
      split; [apply (extends_trans _ _ _ _ _ He0 (extends_trans _ _ _ _ _ He1 He2))|].
      split; [done|]. split.
      { intros id Hid. eapply settled_task_results; [done|]. by apply Hset. }
      rewrite Hconf in Hn. destruct (truthy _); [|done].
      eexists. split; [exact Hn|]. cbn. destruct b; auto.
    + destruct (send_notifications_spec false 0 trigger (Some (exc_msg e)) p1)
        as (p2 & nevs & -> & He2 & Htr2 & _ & Hn).
      exists p2, evs, nevs. split; [done|].
      split; [apply (extends_trans _ _ _ _ _ He0 (extends_trans _ _ _ _ _ He1 He2))|].
      split; [done|]. split.
      { intros id Hid. eapply settled_task_results; [done|]. by apply Hset. }
      rewrite Hconf in Hn. destruct (truthy _); [|done].
      eexists. split; [exact Hn|]. cbn. auto.
  - destruct (send_notifications_spec false 0 trigger (Some (exc_msg e)) p0)
      as (p2 & nevs & -> & He2 & Htr2 & _ & Hn).
    exists p2, [], nevs. split; [done|].
    split; [apply (extends_trans _ _ _ _ _ He0 He2)|].
    split; [constructor|]. split.
    { intros id Hid. eapply settled_task_results; [done|].
      by eapply settled_task_results. }
    rewrite (ext_config _ _ _ He0) in Hn. destruct (truthy _); [|done].
    eexists. split; [exact Hn|]. cbn. auto.
Qed.

Lemma _execute_pipeline_spec trigger p :
  wf_tasks (tasks p) →
  ∃ plan b p' evs nevs,
    _build_execution_plan (tasks p) = Ok plan
    ∧ _execute_pipeline trigger p = (Ok tt, p')
    ∧ extends p p' (evs ++ nevs)
    ∧ Forall (fun ev => is_notify ev = true) nevs
    ∧ Forall (fun ev => ∃ id, id ∈ concat plan ∧ task_event id ev) evs
    ∧ (∀ pre u k post, evs = pre ++ EvAttempt u k :: post →
         ∃ j wave, plan !! j = Some wave ∧ u ∈ wave
           ∧ ∀ i wave' t, (i < j)%nat → plan !! i = Some wave' → t ∈ wave' →
               ∃ st, terminal st ∧ EvResult t st ∈ pre)
    ∧ (b = true → ∀ id, id ∈ concat plan → executed id evs ∧ settled p' id)
    ∧ (retries_ok (tasks p) → b = true).
Proof.
  intros Hwf.
  destruct (build_plan_spec (tasks p)) as (plan & Hplan & _ & Hsub & _).
  unfold _execute_pipeline, bind at 1, datetime_now, try_except.
  unfold bind at 1. unfold bind at 1.
  destruct (set_pipeline_state_extends
              (initial_state trigger (clock p) (model_name (config p))) p)
    as (He0 & Htr0 & _).
  destruct (set_pipeline_state _ p) as [r0 p0] eqn:Hs0.
  assert (r0 = Ok tt) as -> by (by injection Hs0 as <- _). cbn [snd] in He0, Htr0.
  unfold bind at 1. unfold bind at 1. unfold lift.
  rewrite (ext_tasks _ _ _ He0), Hplan.
  unfold bind at 1.
  destruct (run_batches_spec plan p0)
    as (b & p1 & evs & -> & He1 & Hev1 & Hord & Hdone & Hok).
  { by rewrite (ext_tasks _ _ _ He0). }
  { intros id Hid. rewrite (ext_tasks _ _ _ He0). by apply elem_of_dom, Hsub. }
  unfold bind at 1.
  destruct (send_notifications_spec b (clock p1 - clock p) trigger None p1)
    as (p2 & nevs & -> & He2 & Htr2 & _ & Hn).
  exists plan, b, p2, evs, nevs. split; [done|]. split; [done|].
  split; [apply (extends_trans _ _ _ _ _ He0 (extends_trans _ _ _ _ _ He1 He2))|].
  split.
  { destruct (truthy _); subst nevs; by repeat constructor. }
  split; [done|]. split; [done|]. split.
  - intros Hb id Hid. destruct (Hdone Hb id Hid) as [Hex Hs].
    split; [done|]. by eapply settled_task_results.
  - intros Hrc. apply Hok. intros id task _ Ht.
    rewrite (ext_tasks _ _ _ He0) in Ht. by eapply Hrc.
Qed.

(** *** Triggers *)

Lemma _trigger_pipeline_running trigger p :
  is_running p = true → _trigger_pipeline trigger p = (Ok tt, p).
Proof. intros Hr. unfold _trigger_pipeline, trigger_enter. by rewrite Hr. Qed.

Lemma _trigger_pipeline_idle trigger p :
  is_running p = false →
  ∃ p2, _execute_pipeline trigger (set_running true p) = (Ok tt, p2)
    ∧ _trigger_pipeline trigger p = (Ok tt, trigger_exit p2).
Proof.
  intros Hr. unfold _trigger_pipeline, trigger_enter. rewrite Hr.
  destruct (_execute_pipeline_frame trigger (set_running true p))
    as (p2 & evs & nevs & -> & _).
  by exists p2.
Qed.

Lemma _trigger_pipeline_ok trigger p :
  ∃ p', _trigger_pipeline trigger p = (Ok tt, p') ∧ is_running p' = is_running p.
Proof.
  destruct (is_running p) eqn:Hr.
  - exists p. split; [by apply _trigger_pipeline_running|done].
  - destruct (_trigger_pipeline_idle trigger p Hr) as (p2 & _ & ->).
    by eexists.
Qed.

Lemma wf_tasks_init cfg : wf_tasks (tasks (init cfg)).
Proof. intros id task Ht. cbn in Ht. by rewrite lookup_empty in Ht. Qed.

Lemma wf_tasks_add_task tc p :
  wf_tasks (tasks p) → wf_tasks (tasks (add_task tc p)).
Proof.
  intros Hwf id task. cbn. intros Ht.
  apply lookup_insert_Some in Ht as [[<- <-]|[_ Ht]]; [done|by apply Hwf].
Qed.

Lemma wf_tasks_set_running b p :
  wf_tasks (tasks p) → wf_tasks (tasks (set_running b p)).
Proof. done. Qed.

Lemma step_single_run s s' : single_run s → step s s' → single_run s'.
Proof.
  intros Hinv Hstep. destruct Hstep as [s t p' He|s t p' He|s p' Ha Hr|s t before after Ha].
  - unfold trigger_enter in He.
    destruct (is_running (pipe s)) eqn:Hrun; [done|]. injection He as <-.
    destruct Hinv as [[Hr _]|[_ Hact]]; [congruence|].
    left. cbn. rewrite Hact. eauto.
  - unfold trigger_enter in He.
    destruct (is_running (pipe s)) eqn:Hrun; [|done]. injection He as <-.
    destruct Hinv as [[_ Hact]|[Hr _]]; [|congruence].
    left. by cbn.
  - destruct Hinv as [[Hrun Hact]|[_ Hact]]; [|done].
    left. cbn. by rewrite Hr.
  - right. destruct Hinv as [[_ [t' Hact]]|[_ Hact]].
    + rewrite Hact in Ha. destruct before as [|b before].
      * injection Ha as _ <-. by split.
      * injection Ha as _ Ha. by destruct before.
    + rewrite Hact in Ha. by destruct before.
Qed.

Lemma rtc_single_run s s' : single_run s → rtc step s s' → single_run s'.
Proof. induction 2; eauto using step_single_run. Qed.

(** *** The calls a task makes *)

Lemma extends_unique p p' evs evs' :
  extends p p' evs → trace p' = trace p ++ evs' → evs = evs'.
Proof.
  intros He Ht. rewrite (ext_trace _ _ _ He) in Ht. by apply app_inv_head in Ht.
Qed.

Lemma _execute_task_negative tc p :
  retry_count tc < 0 → _execute_task tc p = (Raise unbound_result, p).
Proof.
  intros Hrc. unfold _execute_task, bind, datetime_now, range.
  by rewrite seqZ_nil by lia.
Qed.

(** An attempt that returns ends the loop. *)
Lemma returning_step tc start a rest p o :
  (function tc (ncalls p) (pipeline_state p)).1 = Returns o →
  ∃ p2, attempt_loop tc start (a :: rest) None p
        = (Ok (result_of tc start (clock p) (Returns o)), p2)
    ∧ extends p p2 [EvAttempt (task_id tc) a; EvResult (task_id tc) SUCCESS]
    ∧ ncalls p2 = S (ncalls p)
    ∧ pipeline_state p2 = (function tc (ncalls p) (pipeline_state p)).2
    ∧ clock p2 = clock p
    ∧ task_results p2
      = <[task_id tc := result_of tc start (clock p) (Returns o)]>
          (task_results p).
Proof.
  intros Hret. cbn [attempt_loop]. unfold bind at 1, call_body.
  destruct (function tc (ncalls p) (pipeline_state p)) as [out st].
  cbn in Hret. subst out. unfold bind, datetime_now, store_result, ret.
  eexists. split; [reflexivity|]. cbn. split; [|done].
  split; try done. cbn. by rewrite <- app_assoc.
Qed.

(** An attempt before the last that fails is followed by a sleep and the
    next attempt. *)
Lemma failing_step tc start a rest p :
  a < retry_count tc →
  (∀ o, (function tc (ncalls p) (pipeline_state p)).1 ≠ Returns o) →
  ∃ p2, attempt_loop tc start (a :: rest) None p
        = attempt_loop tc start rest None p2
    ∧ extends p p2 [EvAttempt (task_id tc) a; EvSleep (2 ^ a)]
    ∧ ncalls p2 = S (ncalls p)
    ∧ pipeline_state p2 = (function tc (ncalls p) (pipeline_state p)).2
    ∧ clock p2 = clock p + 2 ^ a
    ∧ task_results p2 = task_results p.
Proof.
  intros Ha Hfail. cbn [attempt_loop]. unfold bind at 1, call_body.
  destruct (function tc (ncalls p) (pipeline_state p)) as [out st].
  assert (Hlt : (a <? retry_count tc) = true) by (apply Z.ltb_lt; lia).
  destruct out as [o|e|]; [by destruct (Hfail o)| |];
    unfold bind at 1, on_error; rewrite Hlt; unfold bind, asyncio_sleep, ret;
    (eexists; split; [reflexivity|]); (split; [|done]);
    split; try done; cbn; by rewrite <- app_assoc.
Qed.

(** The last attempt, when it fails, ends the loop with the FAILED
    result. *)
Lemma last_step tc start a p :
  retry_count tc ≤ a →
  (∀ o, (function tc (ncalls p) (pipeline_state p)).1 ≠ Returns o) →
  let out := (function tc (ncalls p) (pipeline_state p)).1 in
  ∃ p2, attempt_loop tc start [a] None p
        = (Ok (result_of tc start (clock p) out), p2)
    ∧ status (result_of tc start (clock p) out) = FAILED
    ∧ extends p p2 [EvAttempt (task_id tc) a; EvResult (task_id tc) FAILED]
    ∧ ncalls p2 = S (ncalls p)
    ∧ pipeline_state p2 = (function tc (ncalls p) (pipeline_state p)).2
    ∧ clock p2 = clock p
    ∧ task_results p2
      = <[task_id tc := result_of tc start (clock p) out]> (task_results p).
Proof.
  intros Ha Hfail out. subst out. cbn [attempt_loop]. unfold bind at 1, call_body.
  destruct (function tc (ncalls p) (pipeline_state p)) as [out st].
  assert (Hlt : (a <? retry_count tc) = false) by (apply Z.ltb_ge; lia).
  destruct out as [o|e|]; [by destruct (Hfail o)| |];
    unfold bind at 1, on_error; rewrite Hlt;
    unfold bind, datetime_now, store_result, ret;
    (eexists; split; [reflexivity|]); cbn; (split; [done|]); (split; [|done]);
    split; try done; cbn; by rewrite <- app_assoc.
Qed.

Lemma outcome_after_0 tc n st : outcome_after tc 0 n st = (function tc n st).1.
Proof. unfold outcome_after. cbn. by rewrite Nat.add_0_r. Qed.

Lemma outcome_after_S tc k n st :
  outcome_after tc (S k) n st = outcome_after tc k (S n) (function tc n st).2.
Proof.
  unfold outcome_after. cbn [state_after]. f_equal. f_equal. lia.
Qed.

(** The loop of [_execute_task] from attempt [a] on: it makes [k + 1] body
    calls, where the first [k] fail and the last one either returns or is
    the attempt numbered [retry_count]. *)
Lemma attempt_loop_run tc start : ∀ (n : nat) (a : Z) p,
  0 ≤ a → a + Z.of_nat n = retry_count tc →
  ∃ (k : nat) r p',
    (k ≤ n)%nat
    ∧ attempt_loop tc start (seqZ a (Z.of_nat n + 1)) None p = (Ok r, p')
    ∧ (∀ i o, (i < k)%nat →
         outcome_after tc i (ncalls p) (pipeline_state p) ≠ Returns o)
    ∧ r = result_of tc start (clock p')
            (outcome_after tc k (ncalls p) (pipeline_state p))
    ∧ (k = n ∨ status r = SUCCESS)
    ∧ ncalls p' = (ncalls p + k + 1)%nat
    ∧ pipeline_state p' = state_after tc (S k) (ncalls p) (pipeline_state p)
    ∧ clock p' = clock p + (2 ^ (a + Z.of_nat k) - 2 ^ a)
    ∧ task_results p' = <[task_id tc := r]> (task_results p)
    ∧ extends p p'
        (concat (map (fun a => [EvAttempt (task_id tc) a; EvSleep (2 ^ a)])
                   (seqZ a (Z.of_nat k)))
         ++ [EvAttempt (task_id tc) (a + Z.of_nat k);
             EvResult (task_id tc) (status r)]).
Proof.
  induction n as [|n IH]; intros a p Ha Hn.
  - rewrite seqZ_cons, !seqZ_nil by lia.
    destruct ((function tc (ncalls p) (pipeline_state p)).1) as [o|e|] eqn:Hout.
    + destruct (returning_step tc start a [] p o Hout)
        as (p2 & Hrun & He & Hnc & Hst & Hck & Htr).
      eexists 0%nat, _, p2. split; [done|]. split; [exact Hrun|].
      split; [intros; lia|]. rewrite outcome_after_0, Hout, Hck.
      split; [done|]. split; [by left|]. split; [lia|]. split; [done|].
      split; [rewrite Z.add_0_r; lia|]. split; [done|].
      rewrite Z.add_0_r. exact He.
    + destruct (last_step tc start a p) as (p2 & Hrun & Hfl & He & Hnc & Hst & Hck & Htr);
        [lia|intros o; by rewrite Hout|].
      rewrite Hout in *.
      eexists 0%nat, _, p2. split; [done|]. split; [exact Hrun|].
      split; [intros; lia|]. rewrite outcome_after_0, Hout, Hck.
      split; [done|]. split; [by left|]. split; [lia|]. split; [done|].
      split; [rewrite Z.add_0_r; lia|]. split; [done|].
      rewrite Z.add_0_r. exact He.
    + destruct (last_step tc start a p) as (p2 & Hrun & Hfl & He & Hnc & Hst & Hck & Htr);
        [lia|intros o; by rewrite Hout|].
      rewrite Hout in *.
      eexists 0%nat, _, p2. split; [done|]. split; [exact Hrun|].
      split; [intros; lia|]. rewrite outcome_after_0, Hout, Hck.
      split; [done|]. split; [by left|]. split; [lia|]. split; [done|].
      split; [rewrite Z.add_0_r; lia|]. split; [done|].
      rewrite Z.add_0_r. exact He.
  - rewrite seqZ_cons by lia.
    replace (Z.pred (Z.of_nat (S n) + 1)) with (Z.of_nat n + 1) by lia.
    assert (Hcase : (∃ o, (function tc (ncalls p) (pipeline_state p)).1
                          = Returns o)
                    ∨ ∀ o, (function tc (ncalls p) (pipeline_state p)).1
                           ≠ Returns o).
    { destruct ((function tc (ncalls p) (pipeline_state p)).1) as [o|e|];
        [left; by exists o|by right..]. }
    destruct Hcase as [[o Hout]|Hfail'].
    + destruct (returning_step tc start a (seqZ (Z.succ a) (Z.of_nat n + 1)) p o Hout)
        as (p2 & Hrun & He & Hnc & Hst & Hck & Htr).
      eexists 0%nat, _, p2. split; [lia|]. split; [exact Hrun|].
      split; [intros; lia|]. rewrite outcome_after_0, Hout, Hck.
      split; [done|]. split; [by right|]. split; [lia|]. split; [done|].
      split; [rewrite Z.add_0_r; lia|]. split; [done|].
      rewrite Z.add_0_r. exact He.
    + destruct (failing_step tc start a (seqZ (Z.succ a) (Z.of_nat n + 1)) p)
        as (p2 & -> & He1 & Hnc & Hst & Hck & Htr); [lia|done|].
      destruct (IH (Z.succ a) p2 ltac:(lia) ltac:(lia))
        as (k & r & p' & Hk & Hrun & Hbefore & Hr & Hlast & Hnc' & Hst' & Hck'
            & Htr' & He2).
      exists (S k), r, p'. split; [lia|]. split; [exact Hrun|].
      rewrite Hnc, Hst in *. split.
      { intros i o Hi. destruct i as [|i].
        - rewrite outcome_after_0. apply Hfail'.
        - rewrite outcome_after_S. apply Hbefore. lia. }
      split; [by rewrite outcome_after_S|].
      split; [destruct Hlast; [left; lia|by right]|].
      split; [lia|]. split; [done|]. split.
      { rewrite Hck', Hck.
        replace (Z.succ a + Z.of_nat k) with (a + Z.of_nat (S k)) by lia.
        rewrite Z.pow_succ_r by lia. lia. }
      split; [by rewrite Htr', Htr|].
      rewrite (seqZ_cons a (Z.of_nat (S k))) by lia.
      replace (Z.pred (Z.of_nat (S k))) with (Z.of_nat k) by lia.
      cbn [map concat].
      replace (a + Z.of_nat (S k)) with (Z.succ a + Z.of_nat k) by lia.
      apply (extends_trans _ _ _ _ _ He1 He2).
Qed.

(** [_execute_task] with a [retry_count] that is not negative. *)
Lemma _execute_task_run tc p :
  0 ≤ retry_count tc →
  ∃ (k : nat) r p',
    Z.of_nat k ≤ retry_count tc
    ∧ _execute_task tc p = (Ok r, p')
    ∧ (∀ i o, (i < k)%nat →
         outcome_after tc i (ncalls p) (pipeline_state p) ≠ Returns o)
    ∧ r = result_of tc (clock p) (clock p')
            (outcome_after tc k (ncalls p) (pipeline_state p))
    ∧ (Z.of_nat k = retry_count tc ∨ status r = SUCCESS)
    ∧ ncalls p' = (ncalls p + k + 1)%nat
    ∧ pipeline_state p' = state_after tc (S k) (ncalls p) (pipeline_state p)
    ∧ clock p' = clock p + (2 ^ Z.of_nat k - 1)
    ∧ task_results p' = <[task_id tc := r]> (task_results p)
    ∧ extends p p'
        (concat (map (fun a => [EvAttempt (task_id tc) a; EvSleep (2 ^ a)])
                   (seqZ 0 (Z.of_nat k)))
         ++ [EvAttempt (task_id tc) (Z.of_nat k);
             EvResult (task_id tc) (status r)]).
Proof.
  intros Hrc. unfold _execute_task, bind, datetime_now, range.
  destruct (attempt_loop_run tc (clock p) (Z.to_nat (retry_count tc)) 0 p)
    as (k & r & p' & Hk & Hrun & Hbefore & Hr & Hlast & Hnc & Hst & Hck & Htr & He);
    [done|lia|].
  rewrite Z2Nat.id in Hrun by done.
  exists k, r, p'. split; [lia|]. split; [done|]. split; [done|].
  split; [done|]. split; [destruct Hlast; [left; lia|by right]|].
  split; [done|]. split; [done|]. split; [by rewrite Hck|]. done.
Qed.

(** *** Results that report how a task ended *)














(** *** The tasks a run reaches *)

(** Every task of a wave with a [retry_count] that is not negative is
    executed, whatever the other tasks of the wave do. *)
Lemma run_batch_reached batch p r p' evs :
  wf_tasks (tasks p) →
  (∀ id, id ∈ batch → is_Some (tasks p !! id)) →
  run_batch batch p = (r, p') → trace p' = trace p ++ evs →
  ∀ id task, id ∈ batch → tasks p !! id = Some task → 0 ≤ retry_count task →
    executed id evs ∧ settled p' id.
Proof.
  intros Hwf Hdom Hrun Htrace id task Hid Ht Hrc. revert Hrun.
  unfold run_batch. unfold bind at 1.
  destruct (batch_configs_ok batch p Hdom) as (cfgs & -> & Hf).
  unfold bind at 1.
  destruct (gather (map _execute_task cfgs) p) as [rg p1] eqn:Hg.
  destruct (gather_spec _ _ _ _ Hg) as (results & evs1 & -> & He1 & _ & _ & Hf2).
  intros Hc.
  destruct (check_failures_frame _ _ _ _ _ Hc) as (evs2 & He2 & _ & Hset2).
  assert (evs1 ++ evs2 = evs) as <-.
  { eapply extends_unique; [by eapply extends_trans|done]. }
  apply list_elem_of_lookup in Hid as [i Hi].
  destruct (Forall2_lookup_l _ _ _ _ _ Hf Hi) as (tc & Htc & Hl).
  assert (tc = task) as -> by congruence.
  destruct (Forall2_lookup_l _ _ _ _ _ Hf2 Htc) as (res & Hres & Hok & Hr).
  specialize (Hok Hrc). destruct res as [r0|e]; [|done].
  destruct (Hr r0 eq_refl) as (_ & (a & Ha) & Hs).
  rewrite (Hwf _ _ Hl) in *. split.
  - exists a. apply elem_of_app. by left.
  - by apply Hset2.
Qed.

(** A task of wave [j] with a [retry_count] that is not negative is
    executed when no task of the waves before [j] has a negative
    [retry_count]. *)
Lemma run_batches_reached plan : ∀ p r p' evs,
  wf_tasks (tasks p) →
  (∀ id, id ∈ concat plan → is_Some (tasks p !! id)) →
  run_batches plan p = (r, p') → trace p' = trace p ++ evs →
  ∀ j wave id task,
    plan !! j = Some wave → id ∈ wave → tasks p !! id = Some task →
    0 ≤ retry_count task →
    (∀ i wave' t task', (i < j)%nat → plan !! i = Some wave' → t ∈ wave' →
       tasks p !! t = Some task' → 0 ≤ retry_count task') →
    executed id evs ∧ settled p' id.
Proof.
  induction plan as [|batch rest IH];
    intros p r p' evs Hwf Hdom Hrun Htrace j wave id task Hj Hid Ht Hrc Hprev.
  { done. }
  cbn [concat] in Hdom.
  destruct (run_batch_spec batch p Hwf) as (b1 & p1 & evs1 & Hb & He1 & _ & _ & Hok1).
  { intros u Hu. apply Hdom, elem_of_app. by left. }
  cbn [run_batches] in Hrun. unfold bind at 1 in Hrun. rewrite Hb in Hrun.
  destruct j as [|j].
  - cbn in Hj. injection Hj as <-.
    destruct (run_batch_reached batch p (Ok b1) p1 evs1 Hwf) with (id := id) (task := task)
      as [[a Ha] Hs]; try done.
    { intros u Hu. apply Hdom, elem_of_app. by left. }
    { apply (ext_trace _ _ _ He1). }
    destruct b1.
    + destruct (run_batches_frame _ _ _ _ Hrun) as (evs2 & He2 & _ & Hset2).
      assert (evs1 ++ evs2 = evs) as <-.
      { eapply extends_unique; [by eapply extends_trans|done]. }
      split; [|by apply Hset2]. exists a. apply elem_of_app. by left.
    + injection Hrun as _ <-.
      assert (evs1 = evs) as <- by (by eapply extends_unique).
      split; [by exists a|done].
  - cbn in Hj.
    assert (b1 = true) as ->.
    { apply Hok1. intros u task' Hu Hut.
      by apply (Hprev 0%nat batch u task' ltac:(lia)). }
    destruct (run_batches_frame _ _ _ _ Hrun) as (evs2 & He2 & _ & _).
    assert (evs1 ++ evs2 = evs) as <-.
    { eapply extends_unique; [by eapply extends_trans|done]. }
    destruct (IH p1 r p' evs2) with (j := j) (wave := wave) (id := id) (task := task)
      as [[a Ha] Hs]; try done.
    + by rewrite (ext_tasks _ _ _ He1).
    + intros u Hu. rewrite (ext_tasks _ _ _ He1). apply Hdom, elem_of_app.
      by right.
    + apply (ext_trace _ _ _ He2).
    + by rewrite (ext_tasks _ _ _ He1).
    + intros i wave' t task' Hi Hw Hin Hlook.
      rewrite (ext_tasks _ _ _ He1) in Hlook.
      by apply (Hprev (S i) wave' t task' ltac:(lia)).
    + split; [|done]. exists a. apply elem_of_app. by right.
Qed.

Lemma _execute_pipeline_reached trigger p :
  wf_tasks (tasks p) →
  ∃ plan p' evs,
    _build_execution_plan (tasks p) = Ok plan
    ∧ _execute_pipeline trigger p = (Ok tt, p')
    ∧ trace p' = trace p ++ evs
    ∧ ∀ j wave id task,
        plan !! j = Some wave → id ∈ wave → tasks p !! id = Some task →
        0 ≤ retry_count task →
        (∀ i wave' t task', (i < j)%nat → plan !! i = Some wave' → t ∈ wave' →
           tasks p !! t = Some task' → 0 ≤ retry_count task') →
        executed id evs ∧ settled p' id.
Proof.
  intros Hwf.
  destruct (build_plan_spec (tasks p)) as (plan & Hplan & _ & Hsub & _).
  unfold _execute_pipeline, bind at 1, datetime_now, try_except.
  unfold bind at 1. unfold bind at 1.
  destruct (set_pipeline_state_extends
              (initial_state trigger (clock p) (model_name (config p))) p)
    as (He0 & Htr0 & _).
  destruct (set_pipeline_state _ p) as [r0 p0] eqn:Hs0.
  assert (r0 = Ok tt) as -> by (by injection Hs0 as <- _). cbn [snd] in He0, Htr0.
  unfold bind at 1. unfold bind at 1. unfold lift.
  rewrite (ext_tasks _ _ _ He0), Hplan.
  unfold bind at 1.
  destruct (run_batches_spec plan p0)
    as (b & p1 & evs & Hrb & He1 & _).
  { by rewrite (ext_tasks _ _ _ He0). }
  { intros id Hid. rewrite (ext_tasks _ _ _ He0). by apply elem_of_dom, Hsub. }
  rewrite Hrb. unfold bind at 1.
  destruct (send_notifications_spec b (clock p1 - clock p) trigger None p1)
    as (p2 & nevs & -> & He2 & Htr2 & _ & Hn).
  exists plan, p2, (evs ++ nevs). split; [done|]. split; [done|].
  split.
  { apply (ext_trace _ _ _
             (extends_trans _ _ _ _ _ He0 (extends_trans _ _ _ _ _ He1 He2))). }
  intros j wave id task Hj Hid Ht Hrc Hprev.
  destruct (run_batches_reached plan p0 (Ok b) p1 evs) with (j := j) (wave := wave)
    (id := id) (task := task) as [[a Ha] Hs]; try done.
  - by rewrite (ext_tasks _ _ _ He0).
  - intros u Hu. rewrite (ext_tasks _ _ _ He0). by apply elem_of_dom, Hsub.
  - apply (ext_trace _ _ _ He1).
  - by rewrite (ext_tasks _ _ _ He0).
  - intros i wave' t task' Hi Hw Hin Hlook.
    rewrite (ext_tasks _ _ _ He0) in Hlook. by eapply Hprev.
  - split; [exists a; apply elem_of_app; by left|].
    by eapply settled_task_results.
Qed.

(** *** The example pipelines are well formed *)

Lemma wf_tasks_cyclic : wf_tasks (tasks cyclic).
Proof. repeat apply wf_tasks_add_task. apply wf_tasks_init. Qed.

Lemma wf_tasks_data_chain notif : wf_tasks (tasks (data_chain notif)).
Proof. repeat apply wf_tasks_add_task. apply wf_tasks_init. Qed.

(** *** The claims about the pipeline *)

(** C1, counterexample. In [Examples.cyclic] the tasks A and B depend on
    each other and C depends on nothing. [_build_execution_plan] raises
    nothing: it returns the one wave with C, and the run executes C. *)
Lemma C1_cyclic_tasks_run_partial_plan :
  deps_of <$> tasks cyclic !! "A" = Some ["B"]
  ∧ deps_of <$> tasks cyclic !! "B" = Some ["A"]
  ∧ _build_execution_plan (tasks cyclic) = Ok [["C"]]
  ∧ (_execute_pipeline MANUAL cyclic).1 = Ok tt
  ∧ attempts_in (trace (_execute_pipeline MANUAL cyclic).2) = [0]
  ∧ executed "C" (trace (_execute_pipeline MANUAL cyclic).2).
Proof.
  split; [by vm_compute|]. split; [by vm_compute|]. split; [by vm_compute|].
  split; [by vm_compute|]. split; [by vm_compute|].
  exists 0. apply list_elem_of_In. vm_compute. by left.
Qed.

(** C1, as the code behaves. For every set of tasks registered by
    [add_task] (each task under its own id), those with a cycle or a missing
    dependency included, [_build_execution_plan] raises no error: it stops
    at the first iteration that finds no ready task and returns the waves
    built so far, so that every task left out has a dependency that is not
    in the plan. The run then goes through that plan wave by wave and
    returns: a task of the plan is executed, and ends with a result, when
    its [retry_count] and those of the tasks of the waves before it are not
    negative; so every task of the plan is executed when no [retry_count]
    is negative. *)
Theorem C1_partial_plan_returned_and_run (p : Pipeline)
    (trigger : TriggerCondition) :
  wf_tasks (tasks p) →
  ∃ plan p' evs,
    _build_execution_plan (tasks p) = Ok plan
    ∧ layered (tasks p) plan
    ∧ (∀ id task, tasks p !! id = Some task → id ∉ concat plan →
         ∃ dep, dep ∈ deps_of task ∧ dep ∉ concat plan)
    ∧ _execute_pipeline trigger p = (Ok tt, p')
    ∧ trace p' = trace p ++ evs
    ∧ (∀ j wave id task,
         plan !! j = Some wave → id ∈ wave → tasks p !! id = Some task →
         0 ≤ retry_count task →
         (∀ i wave' t task', (i < j)%nat → plan !! i = Some wave' →
            t ∈ wave' → tasks p !! t = Some task' → 0 ≤ retry_count task') →
         executed id evs ∧ settled p' id)
    ∧ (retries_ok (tasks p) →
       ∀ id, id ∈ concat plan → executed id evs ∧ settled p' id).
Proof.
  intros Hwf.
  destruct (build_plan_spec (tasks p)) as (plan & Hplan & Hlay & Hsub & Hleft & _).
  destruct (_execute_pipeline_reached trigger p Hwf)
    as (plan' & p' & evs & Hplan' & Hrun & Htrace & Hreach).
  assert (plan' = plan) as -> by congruence.
  exists plan, p', evs. split; [done|]. split; [done|]. split.
  { intros id task Ht Hnot.
    destruct (is_ready_false _ _ _ _ Ht
                (Hleft id ltac:(by apply elem_of_dom) Hnot)) as (dep & Hd & Hn).
    exists dep. split; [done|]. by rewrite elem_of_list_to_set in Hn. }
  split; [done|]. split; [done|]. split; [done|].
  intros Hrc id Hid.
  assert (Hdom : id ∈ dom (tasks p)) by (by apply Hsub).
  apply elem_of_dom in Hdom as [task Ht].
  apply elem_of_concat in Hid as (wave & Hwave & Hid).
  apply list_elem_of_lookup in Hwave as [j Hj].
  apply (Hreach j wave id task Hj Hid Ht); [by eapply Hrc|].
  intros i wave' t task' _ _ _ Hlook. by eapply Hrc.
Qed.

(** C1 at [Examples.cyclic]. *)
Lemma C1_partial_plan_witness :
  ∃ plan p' evs,
    _build_execution_plan (tasks cyclic) = Ok plan
    ∧ layered (tasks cyclic) plan
    ∧ (∀ id task, tasks cyclic !! id = Some task → id ∉ concat plan →
         ∃ dep, dep ∈ deps_of task ∧ dep ∉ concat plan)
    ∧ _execute_pipeline MANUAL cyclic = (Ok tt, p')
    ∧ trace p' = trace cyclic ++ evs
    ∧ (∀ j wave id task,
         plan !! j = Some wave → id ∈ wave → tasks cyclic !! id = Some task →
         0 ≤ retry_count task →
         (∀ i wave' t task', (i < j)%nat → plan !! i = Some wave' →
            t ∈ wave' → tasks cyclic !! t = Some task' →
            0 ≤ retry_count task') →
         executed id evs ∧ settled p' id)
    ∧ (retries_ok (tasks cyclic) →
       ∀ id, id ∈ concat plan → executed id evs ∧ settled p' id).
Proof.
  exact (C1_partial_plan_returned_and_run cyclic MANUAL wf_tasks_cyclic).
Defined.

(** C2. In every state reached from an idle pipeline by interleaved
    triggers, at most one run is in progress. A trigger of any condition
    that arrives while [is_running] is set leaves the first locked block
    with the pipeline as it was, so [_trigger_pipeline] returns the
    unchanged pipeline: nothing is executed and nothing is queued. When
    the flag is not set no run is active, and a run that is started ends
    with the flag cleared. *)
Theorem C2_single_run_in_progress (s0 s : Sys) (trigger : TriggerCondition) :
  idle s0 → rtc step s0 s →
  (length (active s) ≤ 1)%nat
  ∧ if is_running (pipe s)
    then trigger_enter (pipe s) = (false, pipe s)
         ∧ _trigger_pipeline trigger (pipe s) = (Ok tt, pipe s)
    else active s = []
         ∧ ∃ p', _trigger_pipeline trigger (pipe s) = (Ok tt, p')
             ∧ is_running p' = false.
Proof.
  intros Hidle Hsteps.
  assert (Hinv : single_run s).
  { eapply rtc_single_run; [|done]. by right. }
  destruct Hinv as [[Hr [t Hact]]|[Hr Hact]]; rewrite Hr, Hact.
  - split; [simpl; lia|]. split.
    + unfold trigger_enter. by rewrite Hr.
    + by apply _trigger_pipeline_running.
  - split; [simpl; lia|]. split; [done|].
    destruct (_trigger_pipeline_ok trigger (pipe s)) as (p' & Hp & Hrun).
    exists p'. split; [done|]. congruence.
Qed.

(** C2 at a pipeline that has accepted a manual trigger: a data drift
    trigger is dropped. *)
Lemma C2_single_run_witness :
  let s0 := {| pipe := init (cfg channels); active := [] |} in
  let s := {| pipe := busy (init (cfg channels)); active := [MANUAL] |} in
  idle s0 ∧ rtc step s0 s
  ∧ (length (active s) ≤ 1)%nat
  ∧ trigger_enter (pipe s) = (false, pipe s)
  ∧ _trigger_pipeline DATA_DRIFT (pipe s) = (Ok tt, pipe s).
Proof.
  intros s0 s.
  assert (Hidle : idle s0) by (by split).
  assert (Hsteps : rtc step s0 s).
  { apply rtc_once. exact (step_accept s0 MANUAL _ eq_refl). }
  split; [done|]. split; [done|].
  exact (C2_single_run_in_progress s0 s DATA_DRIFT Hidle Hsteps).
Defined.

(** What a run of the first two tasks of the standard pipeline leaves
    behind. *)
Lemma data_chain_observed (trigger : TriggerCondition) :
  let rp := _execute_pipeline trigger (data_chain channels) in
  (rp.1,
   (fun r => (status r, output r !! "data_quality"))
     <$> task_results rp.2 !! "collect_training_data",
   pipeline_state rp.2 !! "collect_training_data",
   (fun r => (status r, error r))
     <$> task_results rp.2 !! "validate_data_quality")
  = (Ok tt, Some (SUCCESS, Some (VFloat (95 # 100))), None,
     Some (FAILED,
           Some "Task validate_data_quality failed: Data quality 0.00 below threshold 0.90")).
Proof. destruct trigger; vm_compute; reflexivity. Qed.

(** C3. The code does not do what the claim says. In
    [Examples.data_chain], [collect_training_data] succeeds with a data
    quality of 0.95 in its output, but the output is stored in
    [task_results] only: [pipeline_state] has no entry under the task's id
    after the run. [validate_data_quality], which looks for that entry,
    finds its default of 0.0 and fails on each of its attempts. *)
Theorem C3_output_missing_from_context (trigger : TriggerCondition) :
  ∃ p' r1 r2,
    _execute_pipeline trigger (data_chain channels) = (Ok tt, p')
    ∧ task_results p' !! "collect_training_data" = Some r1
    ∧ status r1 = SUCCESS
    ∧ output r1 !! "data_quality" = Some (VFloat (95 # 100))
    ∧ pipeline_state p' !! "collect_training_data" = None
    ∧ task_results p' !! "validate_data_quality" = Some r2
    ∧ status r2 = FAILED
    ∧ error r2
      = Some "Task validate_data_quality failed: Data quality 0.00 below threshold 0.90".
Proof.
  pose proof (data_chain_observed trigger) as Hobs. cbv zeta in Hobs.
  destruct (_execute_pipeline trigger (data_chain channels)) as [r p'].
  cbn [fst snd] in Hobs.
  destruct (task_results p' !! "collect_training_data") as [r1|] eqn:H1;
    [|done].
  destruct (task_results p' !! "validate_data_quality") as [r2|] eqn:H2;
    [|done].
  cbn [fmap option_fmap option_map] in Hobs.
  injection Hobs as -> Hs1 Ho1 Hst Hs2 He2.
  by exists p', r1, r2.
Qed.

(** What the runs of [Examples.continue_chain] and of
    [Examples.fail_chain] leave behind, with the tasks of a wave taken in
    the order of the model. *)
Lemma failure_chains_observed (trigger : TriggerCondition) :
  let rc := _execute_pipeline trigger continue_chain in
  let rf := _execute_pipeline trigger fail_chain in
  (rc.1, status <$> task_results rc.2 !! "A",
   status <$> task_results rc.2 !! "B", calls_in (trace rc.2),
   (fun m => (m_status m, m_error m)) <$> notifications_in (trace rc.2))
  = (Ok tt, Some FAILED, Some SUCCESS,
     [("A", 0); ("A", 1); ("A", 2); ("B", 0)], [("SUCCESS", None)])
  ∧ (rf.1, status <$> task_results rf.2 !! "A",
     status <$> task_results rf.2 !! "C",
     status <$> task_results rf.2 !! "D", calls_in (trace rf.2),
     (fun m => (m_status m, m_error m)) <$> notifications_in (trace rf.2))
    = (Ok tt, Some FAILED, Some SUCCESS, Some SUCCESS,
       [("C", 0); ("A", 0); ("D", 0)], [("SUCCESS", None)]).
Proof. destruct trigger; split; vm_compute; reflexivity. Qed.

(** C4. The code does not do what the claim says. [on_failure] is never
    read and the status SKIPPED is never assigned. In
    [Examples.continue_chain] the task A has [on_failure = "continue"] and
    fails on each of its three attempts; B, which depends on A, is executed
    all the same and ends SUCCESS, not SKIPPED. In [Examples.fail_chain]
    the task A has [on_failure = "fail"] and fails in the first wave, which
    it shares with C; the run is not aborted after that wave: D, alone in
    the second wave, is executed last and ends SUCCESS, and the run is
    notified as a SUCCESS. The order of A and C within their wave is left
    open. *)
Theorem C4_on_failure_is_ignored (trigger : TriggerCondition) :
  let rc := _execute_pipeline trigger continue_chain in
  let rf := _execute_pipeline trigger fail_chain in
  (on_failure <$> tasks continue_chain !! "A" = Some "continue"
   ∧ deps_of <$> tasks continue_chain !! "B" = Some ["A"]
   ∧ _build_execution_plan (tasks continue_chain) = Ok [["A"]; ["B"]]
   ∧ rc.1 = Ok tt
   ∧ status <$> task_results rc.2 !! "A" = Some FAILED
   ∧ status <$> task_results rc.2 !! "B" = Some SUCCESS
   ∧ calls_in (trace rc.2) = [("A", 0); ("A", 1); ("A", 2); ("B", 0)])
  ∧ (on_failure <$> tasks fail_chain !! "A" = Some "fail"
     ∧ deps_of <$> tasks fail_chain !! "D" = Some ["C"]
     ∧ (∃ wave, _build_execution_plan (tasks fail_chain) = Ok [wave; ["D"]]
          ∧ wave ≡ₚ ["A"; "C"])
     ∧ rf.1 = Ok tt
     ∧ status <$> task_results rf.2 !! "A" = Some FAILED
     ∧ status <$> task_results rf.2 !! "D" = Some SUCCESS
     ∧ calls_in (trace rf.2) ≡ₚ [("A", 0); ("C", 0); ("D", 0)]
     ∧ last (calls_in (trace rf.2)) = Some ("D", 0)
     ∧ (fun m => (m_status m, m_error m)) <$> notifications_in (trace rf.2)
       = [("SUCCESS", None)]).
Proof.
  intros rc rf.
  destruct (failure_chains_observed trigger) as [Hc Hf].
  cbv zeta in Hc, Hf. fold rc in Hc. fold rf in Hf.
  apply pair_equal_spec in Hc as [Hc Hc5].
  apply pair_equal_spec in Hc as [Hc Hc4].
  apply pair_equal_spec in Hc as [Hc Hc3].
  apply pair_equal_spec in Hc as [Hc1 Hc2].
  apply pair_equal_spec in Hf as [Hf Hf6].
  apply pair_equal_spec in Hf as [Hf Hf5].
  apply pair_equal_spec in Hf as [Hf Hf4].
  apply pair_equal_spec in Hf as [Hf Hf3].
  apply pair_equal_spec in Hf as [Hf1 Hf2].
  split.
  - split; [by vm_compute|]. split; [by vm_compute|]. split; [by vm_compute|].
    split; [exact Hc1|]. split; [exact Hc2|]. split; [exact Hc3|exact Hc4].
  - split; [by vm_compute|]. split; [by vm_compute|]. split.
    { exists ["C"; "A"]. split; [by vm_compute|]. apply perm_swap. }
    split; [exact Hf1|]. split; [exact Hf2|]. split; [exact Hf4|].
    rewrite Hf5. split; [apply perm_swap|]. split; [done|exact Hf6].
Qed.

(** C5. A task whose body raises or times out on every call, with a
    [retry_count] that is not negative, has its body called exactly
    [retry_count + 1] times, numbered from 0: the count of body calls of
    the pipeline grows by that number and the shared state is the one these
    calls leave. Between the attempts [a] and [a + 1] the task sleeps
    [2 ^ a] seconds, so the delays increase strictly. After the last
    attempt the result FAILED is recorded, with an empty output and the
    error text of the outcome of the last call. *)
Theorem C5_retries_with_backoff (task_config : TaskConfig) (p : Pipeline) :
  always_failing task_config → 0 ≤ retry_count task_config →
  ∃ r p' evs,
    _execute_task task_config p = (Ok r, p')
    ∧ trace p' = trace p ++ evs
    ∧ evs = failing_trace (task_id task_config) (retry_count task_config)
    ∧ attempts_in evs = seqZ 0 (retry_count task_config + 1)
    ∧ Z.of_nat (length (attempts_in evs)) = retry_count task_config + 1
    ∧ sleeps_in evs = (fun a => 2 ^ a) <$> seqZ 0 (retry_count task_config)
    ∧ StronglySorted Z.lt (sleeps_in evs)
    ∧ status r = FAILED
    ∧ task_results p' !! task_id task_config = Some r
    ∧ Z.of_nat (ncalls p')
      = Z.of_nat (ncalls p) + (retry_count task_config + 1)
    ∧ pipeline_state p'
      = state_after task_config (Z.to_nat (retry_count task_config + 1))
          (ncalls p) (pipeline_state p)
    ∧ r = result_of task_config (clock p) (clock p')
            (outcome_after task_config (Z.to_nat (retry_count task_config))
               (ncalls p) (pipeline_state p))
    ∧ output r = ∅
    ∧ error r
      = error_text task_config
          (outcome_after task_config (Z.to_nat (retry_count task_config))
             (ncalls p) (pipeline_state p))
    ∧ is_Some (error r).
Proof.
  intros Hfail Hrc.
  destruct (_execute_task_run task_config p Hrc)
    as (k & r & p' & Hk & Hrun & _ & Hr & Hlast & Hnc & Hst & Hck & Htr & He).
  assert (Hout : ∀ o, outcome_after task_config k (ncalls p) (pipeline_state p)
                      ≠ Returns o).
  { intros o. apply Hfail. }
  assert (Hshape : status r = FAILED ∧ output r = ∅
                   ∧ error r = error_text task_config
                       (outcome_after task_config k (ncalls p)
                          (pipeline_state p))
                   ∧ is_Some (error r)).
  { rewrite Hr.
    destruct (outcome_after task_config k (ncalls p) (pipeline_state p))
      as [o|e|]; [by destruct (Hout o)|cbn; eauto..]. }
  destruct Hshape as (Hstatus & Houtput & Herror & Hsome).
  assert (Hkrc : Z.of_nat k = retry_count task_config).
  { destruct Hlast as [Hl|Hl]; [done|congruence]. }
  assert (Hkn : k = Z.to_nat (retry_count task_config)) by lia.
  rewrite Hstatus, Hkrc in He.
  exists r, p', (failing_trace (task_id task_config) (retry_count task_config)).
  split; [done|]. split; [apply (ext_trace _ _ _ He)|]. split; [done|].
  rewrite attempts_in_failing_trace, sleeps_in_failing_trace by done.
  split; [done|]. split; [rewrite length_seqZ; lia|]. split; [done|].
  split.
  { rewrite <- (Z2Nat.id (retry_count task_config)) by done.
    by apply backoff_increasing. }
  split; [done|]. split; [by rewrite Htr, lookup_insert_eq|].
  split; [lia|]. split.
  { rewrite Hst. f_equal. lia. }
  rewrite <- Hkn. done.
Qed.

(** C5 at a task with [retry_count = 2]. *)
Lemma C5_retries_witness :
  let task_config := mk_task "A" always_fails None 2 "fail" in
  let p := init (cfg channels) in
  ∃ r p' evs,
    _execute_task task_config p = (Ok r, p')
    ∧ trace p' = trace p ++ evs
    ∧ evs = failing_trace (task_id task_config) (retry_count task_config)
    ∧ attempts_in evs = seqZ 0 (retry_count task_config + 1)
    ∧ Z.of_nat (length (attempts_in evs)) = retry_count task_config + 1
    ∧ sleeps_in evs = (fun a => 2 ^ a) <$> seqZ 0 (retry_count task_config)
    ∧ StronglySorted Z.lt (sleeps_in evs)
    ∧ status r = FAILED
    ∧ task_results p' !! task_id task_config = Some r
    ∧ Z.of_nat (ncalls p')
      = Z.of_nat (ncalls p) + (retry_count task_config + 1)
    ∧ pipeline_state p'
      = state_after task_config (Z.to_nat (retry_count task_config + 1))
          (ncalls p) (pipeline_state p)
    ∧ r = result_of task_config (clock p) (clock p')
            (outcome_after task_config (Z.to_nat (retry_count task_config))
               (ncalls p) (pipeline_state p))
    ∧ output r = ∅
    ∧ error r
      = error_text task_config
          (outcome_after task_config (Z.to_nat (retry_count task_config))
             (ncalls p) (pipeline_state p))
    ∧ is_Some (error r).
Proof.
  intros task_config p.
  apply (C5_retries_with_backoff task_config p).
  - intros n st o. discriminate.
  - vm_compute. discriminate.
Defined.

(** C6. In every run the plan puts each task in a wave after the waves of
    all its dependencies, and the waves are run one after the other: when
    the body of a task of wave [j] is called, every task of the waves before
    [j] has a result with a terminal status. Hence every dependency of a
    task has settled before the task starts. Within a wave the tasks are
    taken in one of the orders the event loop may choose; the statement
    does not depend on that order. *)
Theorem C6_dependencies_settle_first (p : Pipeline)
    (trigger : TriggerCondition) :
  wf_tasks (tasks p) →
  ∃ plan p' evs nevs,
    _build_execution_plan (tasks p) = Ok plan
    ∧ layered (tasks p) plan
    ∧ _execute_pipeline trigger p = (Ok tt, p')
    ∧ trace p' = trace p ++ evs ++ nevs
    ∧ Forall (fun ev => is_notify ev = true) nevs
    ∧ (∀ pre u k post, evs = pre ++ EvAttempt u k :: post →
         ∃ j wave, plan !! j = Some wave ∧ u ∈ wave
           ∧ ∀ i wave' t, (i < j)%nat → plan !! i = Some wave' → t ∈ wave' →
               ∃ st, terminal st ∧ EvResult t st ∈ pre)
    ∧ (∀ pre u k post task dep,
         evs = pre ++ EvAttempt u k :: post →
         tasks p !! u = Some task → dep ∈ deps_of task →
         ∃ st, terminal st ∧ EvResult dep st ∈ pre).
Proof.
  intros Hwf.
  destruct (build_plan_spec (tasks p)) as (plan & Hplan & Hlay & _).
  destruct (_execute_pipeline_spec trigger p Hwf)
    as (plan' & b & p' & evs & nevs & Hplan' & Hrun & He & Hnot & _ & Hord & _).
  assert (plan' = plan) as -> by congruence.
  exists plan, p', evs, nevs. split; [done|]. split; [done|]. split; [done|].
  split; [apply (ext_trace _ _ _ He)|]. split; [done|]. split; [done|].
  intros pre u k post task dep Heq Ht Hdep.
  destruct (Hord _ _ _ _ Heq) as (j & wave & Hj & Hu & Hprev).
  destruct (Hlay j wave u task dep Hj Hu Ht Hdep) as (i & wave' & Hi & Hw & Hd).
  by eapply Hprev.
Qed.

(** C6 at [Examples.data_chain]. *)
Lemma C6_dependencies_witness :
  ∃ plan p' evs nevs,
    _build_execution_plan (tasks (data_chain channels)) = Ok plan
    ∧ layered (tasks (data_chain channels)) plan
    ∧ _execute_pipeline SCHEDULED (data_chain channels) = (Ok tt, p')
    ∧ trace p' = trace (data_chain channels) ++ evs ++ nevs
    ∧ Forall (fun ev => is_notify ev = true) nevs
    ∧ (∀ pre u k post, evs = pre ++ EvAttempt u k :: post →
         ∃ j wave, plan !! j = Some wave ∧ u ∈ wave
           ∧ ∀ i wave' t, (i < j)%nat → plan !! i = Some wave' → t ∈ wave' →
               ∃ st, terminal st ∧ EvResult t st ∈ pre)
    ∧ (∀ pre u k post task dep,
         evs = pre ++ EvAttempt u k :: post →
         tasks (data_chain channels) !! u = Some task → dep ∈ deps_of task →
         ∃ st, terminal st ∧ EvResult dep st ∈ pre).
Proof.
  exact (C6_dependencies_settle_first (data_chain channels) SCHEDULED
           (wf_tasks_data_chain channels)).
Defined.

(** C7, counterexample. A pipeline whose configuration has no
    [notifications], which is the default, runs its tasks and sends no
    notification. *)
Lemma C7_no_notification_without_channels :
  notifications (config (data_chain None)) = None
  ∧ (_execute_pipeline MANUAL (data_chain None)).1 = Ok tt
  ∧ filter (fun ev => is_notify ev = true)
      (trace (_execute_pipeline MANUAL (data_chain None)).2) = []
  ∧ attempts_in (trace (_execute_pipeline MANUAL (data_chain None)).2)
    = [0; 0; 1; 2; 3].
Proof.
  split; [done|]. split; [by vm_compute|]. split; by vm_compute.
Qed.

(** C7, as the code behaves. Every run ends with exactly one notification
    when the configuration has a non-empty [notifications] dictionary, and
    with none otherwise. The message has the fields [pipeline_id],
    [model_name], [status], [trigger], [duration_seconds], [timestamp] and
    [error] of the record [Message]; its status is SUCCESS or FAILED. *)
Theorem C7_one_notification_when_configured (p : Pipeline)
    (trigger : TriggerCondition) :
  ∃ p' evs nevs,
    _execute_pipeline trigger p = (Ok tt, p')
    ∧ trace p' = trace p ++ evs ++ nevs
    ∧ Forall (fun ev => is_notify ev = false) evs
    ∧ if truthy (notifications (config p))
      then ∃ m, nevs = [EvNotify m]
             ∧ m_pipeline_id m = pipeline_id (config p)
             ∧ m_model_name m = model_name (config p)
             ∧ (m_status m = "SUCCESS" ∨ m_status m = "FAILED")
             ∧ m_trigger m = trigger_value trigger
      else nevs = [].
Proof.
  destruct (_execute_pipeline_frame trigger p)
    as (p' & evs & nevs & Hrun & He & Hev & _ & Hn).
  exists p', evs, nevs. split; [done|].
  split; [apply (ext_trace _ _ _ He)|]. done.
Qed.



End RetrainingPipelineFacts.

(** * Properties of the float arithmetic *)

Module FloatFacts.
Import Monitoring.

(** *** Powers of two *)

Lemma two_neq_0 : ¬ (2 == 0)%Q.
Proof. discriminate. Qed.

Lemma pow2_pos (e : Z) : (0 < pow2 e)%Q.
Proof. unfold pow2. by apply Qpower_0_lt. Qed.

Lemma pow2_add (a b : Z) : (pow2 (a + b) == pow2 a * pow2 b)%Q.
Proof. unfold pow2. apply Qpower_plus, two_neq_0. Qed.

Lemma pow2_cancel (e : Z) : (pow2 e * pow2 (- e) == 1)%Q.
Proof. rewrite <- pow2_add, Z.add_opp_diag_r. reflexivity. Qed.

Lemma pow2_Z (n : Z) : 0 ≤ n → (pow2 n == inject_Z (2 ^ n))%Q.
Proof. intros Hn. unfold pow2. by rewrite Zpower_Qpower. Qed.

Lemma pow2_le (a b : Z) : a ≤ b → (pow2 a <= pow2 b)%Q.
Proof. intros Hab. unfold pow2. by apply Qpower_le_compat_l. Qed.

Lemma pow2_lt (a b : Z) : a < b → (pow2 a < pow2 b)%Q.
Proof. intros Hab. unfold pow2. by apply Qpower_lt_compat_l. Qed.

Lemma pow2_succ (a : Z) : (pow2 (a + 1) == 2 * pow2 a)%Q.
Proof. rewrite pow2_add. change (pow2 1) with 2%Q. ring. Qed.

(** Scaling by a power of two and back. *)
Lemma scale_back (a : Q) (e : Z) : (a * pow2 (- e) * pow2 e == a)%Q.
Proof.
  rewrite <- Qmult_assoc, (Qmult_comm (pow2 (- e))), pow2_cancel. ring.
Qed.

Lemma scale_le (a b : Q) (e : Z) : (a <= b)%Q → (a * pow2 e <= b * pow2 e)%Q.
Proof. intros H. apply Qmult_le_compat_r; [done|]. apply Qlt_le_weak, pow2_pos. Qed.

Lemma scale_lt (a b : Q) (e : Z) : (a < b)%Q → (a * pow2 e < b * pow2 e)%Q.
Proof. intros H. apply Qmult_lt_compat_r; [apply pow2_pos|done]. Qed.

(** *** The exponent *)

Lemma log2_bounds (a : Q) :
  (0 < a)%Q →
  let k := Z.log2 (Qnum a) - Z.log2 (Z.pos (Qden a)) in
  (pow2 (k - 1) < a)%Q ∧ (a < pow2 (k + 1))%Q.
Proof.
  destruct a as [n d]. intros Hpos k. cbn [Qnum Qden] in k.
  assert (Hn : 0 < n) by (unfold Qlt in Hpos; cbn in Hpos; lia).
  destruct (Z.log2_spec n Hn) as [HnL HnU].
  destruct (Z.log2_spec (Z.pos d) ltac:(lia)) as [HdL HdU].
  set (A := Z.log2 n) in *. set (B := Z.log2 (Z.pos d)) in *.
  assert (HA : 0 ≤ A) by apply Z.log2_nonneg.
  assert (HB : 0 ≤ B) by apply Z.log2_nonneg.
  assert (HnLq : (pow2 A <= inject_Z n)%Q).
  { rewrite pow2_Z by done. by rewrite <- Zle_Qle. }
  assert (HnUq : (inject_Z n < pow2 (A + 1))%Q).
  { rewrite pow2_Z by lia. rewrite <- Zlt_Qlt. by rewrite <- Z.add_1_r in HnU. }
  assert (HdLq : (pow2 B <= inject_Z (Z.pos d))%Q).
  { rewrite pow2_Z by done. by rewrite <- Zle_Qle. }
  assert (HdUq : (inject_Z (Z.pos d) < pow2 (B + 1))%Q).
  { rewrite pow2_Z by lia. rewrite <- Zlt_Qlt. by rewrite <- Z.add_1_r in HdU. }
  assert (Hd0 : (0 < inject_Z (Z.pos d))%Q) by done.
  assert (Had : ((n # d) * inject_Z (Z.pos d) == inject_Z n)%Q).
  { unfold Qeq, inject_Z. cbn. lia. }
  split.
  - apply (Qmult_lt_r _ _ (inject_Z (Z.pos d)) Hd0). rewrite Had.
    eapply Qlt_le_trans; [|exact HnLq].
    apply Qlt_le_trans with (pow2 (k - 1) * pow2 (B + 1))%Q.
    + apply Qmult_lt_l; [apply pow2_pos|done].
    + rewrite <- pow2_add. replace (k - 1 + (B + 1)) with A by (unfold k; lia).
      apply Qle_refl.
  - apply (Qmult_lt_r _ _ (inject_Z (Z.pos d)) Hd0). rewrite Had.
    eapply Qlt_le_trans; [exact HnUq|].
    apply Qle_trans with (pow2 (k + 1) * pow2 B)%Q.
    + rewrite <- pow2_add. replace (k + 1 + B) with (A + 1) by (unfold k; lia).
      apply Qle_refl.
    + apply Qmult_le_l; [apply pow2_pos|done].
Qed.

(** The exponent puts the scaled value between [2^52] and [2^53]. *)
Lemma exponent_spec (a : Q) :
  (0 < a)%Q →
  (pow2 52 <= a * pow2 (- exponent a))%Q
  ∧ (a * pow2 (- exponent a) < pow2 53)%Q.
Proof.
  intros Hpos. destruct (log2_bounds a Hpos) as [HL HU].
  unfold exponent.
  set (k := Z.log2 (Qnum a) - Z.log2 (Z.pos (Qden a))) in *.
  set (e0 := k - 53).
  assert (HL' : (pow2 52 < a * pow2 (- e0))%Q).
  { apply Qle_lt_trans with (pow2 (k - 1) * pow2 (- e0))%Q.
    - rewrite <- pow2_add. replace (k - 1 + - e0) with 52 by (unfold e0; lia).
      apply Qle_refl.
    - by apply scale_lt. }
  assert (HU' : (a * pow2 (- e0) < pow2 54)%Q).
  { apply Qlt_le_trans with (pow2 (k + 1) * pow2 (- e0))%Q.
    - by apply scale_lt.
    - rewrite <- pow2_add. replace (k + 1 + - e0) with 54 by (unfold e0; lia).
      apply Qle_refl. }
  destruct (Qle_bool (pow2 53) (a * pow2 (- e0))) eqn:Hb.
  - apply Qle_bool_iff in Hb.
    assert (Heq : (a * pow2 (- (e0 + 1)) == a * pow2 (- e0) * (1 # 2))%Q).
    { replace (- (e0 + 1)) with (- e0 + -1) by lia. rewrite pow2_add.
      change (pow2 (-1)) with (1 # 2)%Q. ring. }
    rewrite Heq.
    pose proof (pow2_succ 52) as H53. pose proof (pow2_succ 53) as H54.
    change (52 + 1) with 53 in H53. change (53 + 1) with 54 in H54.
    revert HL' HU' Hb H53 H54.
    generalize (pow2 52), (pow2 53), (pow2 54), (a * pow2 (- e0))%Q.
    intros p52 p53 p54 x. intros.
    split; lra.
  - assert (Hlt : (a * pow2 (- e0) < pow2 53)%Q).
    { apply Qnot_le_lt. intros Hle. apply Qle_bool_iff in Hle. congruence. }
    split; [by apply Qlt_le_weak|done].
Qed.

(** The exponent of a value is determined by the bounds. *)
Lemma exponent_unique (a : Q) (e : Z) :
  (0 < a)%Q → (pow2 52 <= a * pow2 (- e))%Q → (a * pow2 (- e) < pow2 53)%Q →
  exponent a = e.
Proof.
  intros Hpos HL HU. destruct (exponent_spec a Hpos) as [HL' HU'].
  set (e' := exponent a) in *.
  assert (H1 : ∀ x y, (pow2 52 <= a * pow2 (- x))%Q →
                      (a * pow2 (- y) < pow2 53)%Q → y ≤ x → y = x ∨ False).
  { intros x y Hx Hy Hyx. destruct (decide (y = x)) as [|Hne]; [by left|right].
    assert (Hlt : y + 1 ≤ x) by lia.
    assert (Hs : (a * pow2 (- x) * pow2 x == a)%Q) by apply scale_back.
    assert (Ht : (a * pow2 (- y) * pow2 y == a)%Q) by apply scale_back.
    assert (Hxa : (pow2 52 * pow2 x <= a)%Q).
    { rewrite <- Hs. by apply scale_le. }
    assert (Hya : (a < pow2 53 * pow2 y)%Q).
    { rewrite <- Ht at 1. by apply scale_lt. }
    rewrite <- pow2_add in Hxa, Hya.
    assert (Hp : (pow2 (53 + y) <= pow2 (52 + x))%Q) by (apply pow2_le; lia).
    lra. }
  destruct (Z.le_gt_cases e e') as [Hle|Hgt].
  - destruct (H1 e' e HL' HU Hle) as [->|[]]. done.
  - destruct (H1 e e' HL HU' ltac:(lia)) as [->|[]]. done.
Qed.

(** *** Rounding to the nearest integer *)

Import RetrainingPipeline.

Lemma round_half_even_inject (q : Q) (z : Z) :
  (q == inject_Z z)%Q → round_half_even q = z.
Proof.
  destruct q as [n d]. unfold Qeq, inject_Z, round_half_even. cbn.
  intros H. rewrite Z.mul_1_r in H. subst n.
  rewrite Z.div_mul by lia. rewrite Z.mod_mul by lia.
  destruct (Z.ltb_spec (2 * 0) (Z.pos d)); [done|lia].
Qed.

Lemma round_half_even_floor (q : Q) :
  Qfloor q ≤ round_half_even q ≤ Qfloor q + 1.
Proof.
  destruct q as [n d]. unfold round_half_even, Qfloor. cbn.
  repeat case_match; lia.
Qed.

Lemma round_half_even_mono (q q' : Q) :
  (q <= q')%Q → round_half_even q ≤ round_half_even q'.
Proof.
  intros Hle.
  pose proof (Qfloor_resp_le _ _ Hle) as Hfl.
  pose proof (round_half_even_floor q) as Hq.
  pose proof (round_half_even_floor q') as Hq'.
  destruct (decide (Qfloor q = Qfloor q')) as [Heq|Hne]; [|lia].
  clear Hq Hq' Hfl.
  destruct q as [n d], q' as [n' d']. unfold Qle, Qfloor in *.
  unfold round_half_even. cbn in *.
  pose proof (Z.div_mod n (Z.pos d) ltac:(lia)) as Hn.
  pose proof (Z.div_mod n' (Z.pos d') ltac:(lia)) as Hn'.
  pose proof (Z.mod_pos_bound n (Z.pos d) ltac:(lia)) as Hr.
  pose proof (Z.mod_pos_bound n' (Z.pos d') ltac:(lia)) as Hr'.
  set (f := n / Z.pos d) in *. set (r := n mod Z.pos d) in *.
  set (r' := n' mod Z.pos d') in *. rewrite <- Heq in *.
  assert (Hrr : r * Z.pos d' ≤ r' * Z.pos d) by nia.
  destruct (Z.ltb_spec (2 * r) (Z.pos d)), (Z.ltb_spec (Z.pos d) (2 * r)),
    (Z.ltb_spec (2 * r') (Z.pos d')), (Z.ltb_spec (Z.pos d') (2 * r'));
    try destruct (Z.even f); try lia; nia.
Qed.

Lemma round_half_even_proper (q q' : Q) :
  (q == q')%Q → round_half_even q = round_half_even q'.
Proof.
  intros H. apply Z.le_antisymm; apply round_half_even_mono; rewrite H;
    apply Qle_refl.
Qed.

(** *** Rounding to a float *)

Lemma exponent_proper (a b : Q) :
  (0 < a)%Q → (a == b)%Q → exponent a = exponent b.
Proof.
  intros Ha Hab. assert (Hb : (0 < b)%Q) by (by rewrite <- Hab).
  destruct (exponent_spec b Hb) as [HL HU].
  apply exponent_unique; [done|by rewrite Hab..].
Qed.

Lemma binary64_proper (q q' : Q) : (q == q')%Q → binary64 q = binary64 q'.
Proof. intros H. unfold binary64. by rewrite (Qred_complete _ _ H). Qed.

Lemma binary64_pos (q : Q) :
  (0 < q)%Q →
  binary64 q
  = (inject_Z (round_half_even (q * pow2 (- exponent q))) * pow2 (exponent q))%Q.
Proof.
  intros Hpos. unfold binary64.
  pose proof (Qred_correct q) as Hr.
  assert (Hrpos : (0 < Qred q)%Q) by (by rewrite Hr).
  destruct (Qred q) as [n d] eqn:Hq.
  assert (Hn : 0 < n) by (unfold Qlt in Hrpos; cbn in Hrpos; lia).
  cbn [Qnum].
  destruct (Z.eqb_spec n 0); [lia|].
  destruct (Z.ltb_spec n 0); [lia|].
  assert (Habs : Qabs (n # d)%Q = (n # d)%Q).
  { unfold Qabs. by rewrite Z.abs_eq by lia. }
  rewrite Habs.
  rewrite (exponent_proper (n # d)%Q q Hrpos Hr).
  f_equal. f_equal. apply round_half_even_proper. by rewrite Hr.
Qed.

Lemma mantissa_bounds (q : Q) :
  (0 < q)%Q →
  2 ^ 52 ≤ round_half_even (q * pow2 (- exponent q)) ≤ 2 ^ 53.
Proof.
  intros Hpos. destruct (exponent_spec q Hpos) as [HL HU].
  rewrite (pow2_Z 52) in HL by lia. rewrite (pow2_Z 53) in HU by lia.
  split.
  - rewrite <- (round_half_even_inject (inject_Z (2 ^ 52)) (2 ^ 52))
      by reflexivity.
    by apply round_half_even_mono.
  - rewrite <- (round_half_even_inject (inject_Z (2 ^ 53)) (2 ^ 53))
      by reflexivity.
    by apply round_half_even_mono, Qlt_le_weak.
Qed.

Lemma binary64_nonneg (q : Q) : (0 <= q)%Q → (0 <= binary64 q)%Q.
Proof.
  intros Hq. destruct (Qle_lt_or_eq _ _ Hq) as [Hpos|Hz].
  - rewrite binary64_pos by done.
    apply Qmult_le_0_compat; [|apply Qlt_le_weak, pow2_pos].
    pose proof (mantissa_bounds q Hpos) as [Hm _].
    change 0%Q with (inject_Z 0). rewrite <- Zle_Qle. lia.
  - rewrite (binary64_proper q 0) by (by symmetry). apply Qle_refl.
Qed.

(** Rounding keeps the order. *)
Lemma binary64_mono (q q' : Q) :
  (0 <= q)%Q → (q <= q')%Q → (binary64 q <= binary64 q')%Q.
Proof.
  intros Hq Hle. destruct (Qle_lt_or_eq _ _ Hq) as [Hpos|Hz].
  2:{ rewrite (binary64_proper q 0) by (by symmetry).
      apply binary64_nonneg. by rewrite Hz. }
  assert (Hpos' : (0 < q')%Q) by (by eapply Qlt_le_trans).
  rewrite !binary64_pos by done.
  destruct (exponent_spec q Hpos) as [HL HU].
  destruct (exponent_spec q' Hpos') as [HL' HU'].
  pose proof (mantissa_bounds q Hpos) as [Hm1 Hm2].
  pose proof (mantissa_bounds q' Hpos') as [Hm1' Hm2'].
  set (e := exponent q) in *. set (e' := exponent q') in *.
  set (m := round_half_even (q * pow2 (- e))) in *.
  set (m' := round_half_even (q' * pow2 (- e'))) in *.
  destruct (Z.lt_trichotomy e e') as [Hlt|[Heq|Hgt]].
  - apply Qle_trans with (pow2 53 * pow2 e)%Q.
    { apply scale_le. rewrite pow2_Z by lia. by rewrite <- Zle_Qle. }
    apply Qle_trans with (pow2 52 * pow2 e')%Q.
    { rewrite <- !pow2_add. apply pow2_le. lia. }
    apply scale_le. rewrite pow2_Z by lia. by rewrite <- Zle_Qle.
  - subst m m'. rewrite <- Heq. apply scale_le. rewrite <- Zle_Qle.
    apply round_half_even_mono. by apply scale_le.
  - exfalso.
    assert (H1 : (pow2 52 * pow2 e <= q)%Q).
    { rewrite <- (scale_back q e). by apply scale_le. }
    assert (H2 : (q' < pow2 53 * pow2 e')%Q).
    { rewrite <- (scale_back q' e') at 1. by apply scale_lt. }
    rewrite <- pow2_add in H1, H2.
    assert (H3 : (pow2 (53 + e') <= pow2 (52 + e))%Q) by (apply pow2_le; lia).
    lra.
Qed.

(** Integers below [2^53] are floats. *)
Lemma binary64_int (z : Z) :
  0 ≤ z < 2 ^ 53 → (binary64 (inject_Z z) == inject_Z z)%Q.
Proof.
  intros [Hz0 Hz]. destruct (decide (z = 0)) as [->|Hne]; [reflexivity|].
  assert (Hpos : (0 < inject_Z z)%Q).
  { change 0%Q with (inject_Z 0). rewrite <- Zlt_Qlt. lia. }
  rewrite binary64_pos by done.
  destruct (exponent_spec _ Hpos) as [HL HU].
  set (e := exponent (inject_Z z)) in *.
  assert (He : e ≤ 0).
  { apply Z.lt_succ_r. apply Z.lt_nge. intros Hge.
    assert (H1 : (pow2 52 * pow2 e <= inject_Z z)%Q).
    { rewrite <- (scale_back (inject_Z z) e). by apply scale_le. }
    rewrite <- pow2_add in H1.
    assert (H2 : (pow2 53 <= pow2 (52 + e))%Q) by (apply pow2_le; lia).
    assert (H3 : (inject_Z z < pow2 53)%Q).
    { rewrite pow2_Z by lia. by rewrite <- Zlt_Qlt. }
    lra. }
  assert (Hint : (inject_Z z * pow2 (- e) == inject_Z (z * 2 ^ (- e)))%Q).
  { rewrite pow2_Z by lia. by rewrite inject_Z_mult. }
  rewrite (round_half_even_inject _ _ Hint), <- Hint.
  apply scale_back.
Qed.

(** *** Truncation *)

Lemma float_to_int_floor (x : Q) : (0 <= x)%Q → float_to_int x = Qfloor x.
Proof.
  destruct x as [a b]. unfold Qle, float_to_int, Qfloor. cbn. intros Ha.
  apply Z.quot_div_nonneg; lia.
Qed.

(** *** The index of a percentile *)

Lemma percentile_scaled_nonneg (percentile len : Z) :
  0 ≤ percentile → 0 ≤ len →
  (0 <= binary64 (inject_Z percentile / 100) * binary64 (inject_Z len))%Q.
Proof.
  intros Hp Hl. apply Qmult_le_0_compat; apply binary64_nonneg.
  - apply Qle_shift_div_l; [done|]. rewrite Qmult_0_l.
    change 0%Q with (inject_Z 0). by rewrite <- Zle_Qle.
  - change 0%Q with (inject_Z 0). by rewrite <- Zle_Qle.
Qed.

Lemma percentile_index_floor (percentile len : Z) :
  0 ≤ percentile → 0 ≤ len →
  percentile_index percentile len
  = Qfloor (binary64 (binary64 (inject_Z percentile / 100)
                      * binary64 (inject_Z len))).
Proof.
  intros Hp Hl. unfold percentile_index. apply float_to_int_floor.
  apply binary64_nonneg. by apply percentile_scaled_nonneg.
Qed.

Lemma percentile_index_nonneg (percentile len : Z) :
  0 ≤ percentile → 0 ≤ len → 0 ≤ percentile_index percentile len.
Proof.
  intros Hp Hl. rewrite percentile_index_floor by done.
  rewrite <- (Qfloor_Z 0). apply Qfloor_resp_le.
  apply binary64_nonneg. by apply percentile_scaled_nonneg.
Qed.

(** A higher percentile is never at a lower index. *)
Lemma percentile_index_mono (p q len : Z) :
  0 ≤ p → p ≤ q → 0 ≤ len →
  percentile_index p len ≤ percentile_index q len.
Proof.
  intros Hp Hpq Hl. rewrite !percentile_index_floor by lia.
  apply Qfloor_resp_le. apply binary64_mono.
  { by apply percentile_scaled_nonneg. }
  apply Qmult_le_compat_r.
  - apply binary64_mono.
    + apply Qle_shift_div_l; [done|]. rewrite Qmult_0_l.
      change 0%Q with (inject_Z 0). by rewrite <- Zle_Qle.
    + apply Qmult_le_compat_r; [by rewrite <- Zle_Qle|done].
  - apply binary64_nonneg. change 0%Q with (inject_Z 0). by rewrite <- Zle_Qle.
Qed.

(** The index follows the rounding of the floats: [0.29 * 100] is just
    below 29. *)
Lemma percentile_index_29_of_100 :
  percentile_index 29 100 = 28 ∧ percentile_index 58 100 = 57
  ∧ percentile_index 50 100 = 50 ∧ percentile_index 95 100 = 95
  ∧ percentile_index 99 100 = 99.
Proof. by vm_compute. Qed.

(** The 100th percentile of a list that fits a float is one past its last
    index. *)
Lemma percentile_index_100 (len : Z) :
  0 ≤ len < 2 ^ 53 → percentile_index 100 len = len.
Proof.
  intros Hl. rewrite percentile_index_floor by lia.
  rewrite <- (Qfloor_Z len) at 2. apply Qfloor_comp.
  rewrite (binary64_proper (inject_Z 100 / 100) (inject_Z 1)) by reflexivity.
  rewrite <- (binary64_int len Hl) at 2.
  assert (H1 : (binary64 (inject_Z 1) == 1)%Q) by (by apply binary64_int).
  assert (Heq : (binary64 (inject_Z 1) * binary64 (inject_Z len)
                 == inject_Z len)%Q).
  { rewrite H1, Qmult_1_l. by apply binary64_int. }
  rewrite (binary64_proper _ _ Heq). reflexivity.
Qed.

End FloatFacts.

(** * Properties of the metrics collector *)

Module MonitoringFacts.
Import Monitoring.

(** *** Bounded series *)

Lemma last_n_length {A} (n : nat) (l : list A) :
  (length (last_n n l) ≤ n)%nat.
Proof. unfold last_n. rewrite length_drop. lia. Qed.

Lemma deque_append_last_n (maxlen : Z) (l : list MetricPoint) x :
  deque_append maxlen (last_n (Z.to_nat maxlen) l) x
  = last_n (Z.to_nat maxlen) (l ++ [x]).
Proof.
  unfold deque_append, last_n.
  set (m := Z.to_nat maxlen).
  rewrite !length_app, length_drop. simpl.
  destruct (decide (length l ≤ m)%nat) as [Hle|Hgt].
  - replace (length l - m)%nat with 0%nat by lia. simpl.
    f_equal. lia.
  - rewrite <- drop_app_le by lia.
    rewrite drop_drop. f_equal. lia.
Qed.

Lemma recorded_snoc key calls k :
  recorded key (calls ++ [k])
  = recorded key calls
      ++ (if decide (call_key k = key) then [call_point k] else []).
Proof.
  unfold recorded. rewrite filter_app, map_app. f_equal.
  rewrite filter_cons, filter_nil. by case_decide.
Qed.

Lemma record_histogram_series name v labels now c :
  0 ≤ max_points c →
  ∃ c', record_histogram name v labels now c = Ok c'
    ∧ max_points c' = max_points c
    ∧ ∀ key,
        series c' key
        = if decide (_make_key name labels = key)
          then deque_append (max_points c) (series c key)
                 {| timestamp := now; value := v; labels := labels |}
          else series c key.
Proof.
  intros Hmp. unfold record_histogram, metrics_getitem, series.
  destruct (metrics c !! _make_key name labels) as [d|] eqn:Hd.
  - eexists. split; [done|]. split; [done|]. intros key. simpl.
    case_decide as Hk.
    + subst key. by rewrite lookup_insert_eq, Hd.
    + by rewrite lookup_insert_ne.
  - unfold new_deque. destruct (Z.ltb_spec (max_points c) 0); [lia|].
    eexists. split; [done|]. split; [done|]. intros key. simpl.
    case_decide as Hk.
    + subst key. by rewrite lookup_insert_eq, Hd.
    + by rewrite lookup_insert_ne.
Qed.

Lemma record_all_series calls : ∀ done c0,
  0 ≤ max_points c0 →
  (∀ key, series c0 key = last_n (Z.to_nat (max_points c0)) (recorded key done)) →
  ∃ c, record_all calls c0 = Ok c
    ∧ max_points c = max_points c0
    ∧ ∀ key,
        series c key
        = last_n (Z.to_nat (max_points c0)) (recorded key (done ++ calls)).
Proof.
  induction calls as [|k calls IH]; intros done c0 Hmp Hinv.
  - exists c0. rewrite app_nil_r. done.
  - simpl.
    destruct (record_histogram_series (c_name k) (c_value k) (c_labels k)
                (c_now k) c0 Hmp) as (c1 & -> & Hmp1 & Hs1).
    destruct (IH (done ++ [k]) c1) as (c & Hc & Hmpc & Hsc).
    + lia.
    + intros key. rewrite Hs1, Hmp1, recorded_snoc. fold (call_key k).
      case_decide.
      * rewrite Hinv. apply deque_append_last_n.
      * rewrite app_nil_r. apply Hinv.
    + exists c. split; [done|]. split; [congruence|].
      intros key. rewrite Hsc, Hmp1, <- app_assoc. done.
Qed.

(** C9. Every sequence of [record_histogram] calls on a collector built
    with a capacity [max_points] (a non-negative integer) succeeds, and
    after it the series of every key holds at most [max_points] points,
    which are exactly the last [max_points] points recorded under that key,
    in the order of recording. As the sequence is arbitrary, this holds
    after each call. *)
Theorem C9_series_bounded_most_recent (max_points : Z) (calls : list Call)
    (key : string) (Hcap : 0 ≤ max_points) :
  ∃ c, record_all calls (init max_points) = Ok c
    ∧ Z.of_nat (length (series c key)) ≤ max_points
    ∧ series c key = last_n (Z.to_nat max_points) (recorded key calls).
Proof.
  destruct (record_all_series calls [] (init max_points)) as (c & Hc & _ & Hs).
  - done.
  - intros k. unfold series, recorded, last_n. simpl.
    by rewrite lookup_empty.
  - exists c. split; [done|]. simpl in Hs. rewrite Hs. split; [|done].
    pose proof (last_n_length (Z.to_nat max_points) (recorded key calls)).
    lia.
Qed.

(** C9 at a collector of capacity 2 and three calls under one key: the
    first point is evicted. *)
Lemma C9_series_witness :
  let calls :=
    [ {| c_name := "latency"; c_value := 1%Q; c_labels := None; c_now := 10 |};
      {| c_name := "latency"; c_value := 2%Q; c_labels := None; c_now := 11 |};
      {| c_name := "latency"; c_value := 3%Q; c_labels := None; c_now := 12 |} ]
  in
  ∃ c, record_all calls (init 2) = Ok c
    ∧ Z.of_nat (length (series c "latency")) ≤ 2
    ∧ series c "latency" = last_n (Z.to_nat 2) (recorded "latency" calls).
Proof.
  intros calls. apply (C9_series_bounded_most_recent 2 calls "latency"). lia.
Defined.

(** *** Statistics *)

Lemma list_getitem_in_range (values : list Q) (i : Z) :
  0 ≤ i < Z.of_nat (length values) →
  ∃ v, list_getitem values i = Ok v ∧ values !! Z.to_nat i = Some v.
Proof.
  intros Hi. unfold list_getitem.
  destruct (Z.ltb_spec i 0); [lia|].
  destruct (Z.ltb_spec i 0); [lia|].
  destruct (Z.leb_spec (Z.of_nat (length values)) i); [lia|]. simpl.
  destruct (lookup_lt_is_Some_2 values (Z.to_nat i)) as [v Hv]; [lia|].
  exists v. by rewrite Hv.
Qed.

Lemma _percentile_elem (values : list Q) (percentile : Z) :
  values ≠ [] → 0 ≤ percentile →
  ∃ v, _percentile values percentile = Ok v
    ∧ values
        !! Z.to_nat (Z.min (percentile_index percentile
                              (Z.of_nat (length values)))
                       (Z.of_nat (length values) - 1)) = Some v.
Proof.
  intros Hne Hp. unfold _percentile.
  destruct values as [|x l]; [done|].
  apply list_getitem_in_range.
  pose proof (FloatFacts.percentile_index_nonneg percentile
                (Z.of_nat (length (x :: l))) Hp ltac:(lia)).
  simpl length in *. lia.
Qed.

Lemma py_div_ok x n : n ≠ 0 → ∃ a, py_div x n = Ok a.
Proof.
  intros Hn. unfold py_div. destruct (Z.eqb_spec n 0); [done|]. eauto.
Qed.

Lemma sorted_values_elem (points : list MetricPoint) v :
  v ∈ merge_sort Qle (map value points) → v ∈ map value points.
Proof. intros Hv. by rewrite merge_sort_Permutation in Hv. Qed.

Lemma lookup_last (values : list Q) (v : Q) :
  values !! Z.to_nat (Z.of_nat (length values) - 1) = Some v →
  values ≠ [] → List.last values 0%Q = v.
Proof.
  intros Hl Hne. destruct values as [|x l] using rev_ind; [done|].
  rewrite List.last_last.
  rewrite length_app in Hl. simpl in Hl.
  rewrite lookup_app_r in Hl by lia.
  replace (Z.to_nat (Z.of_nat (length l + 1) - 1) - length l)%nat
    with 0%nat in Hl by lia.
  simpl in Hl. congruence.
Qed.

(** C10. [get_histogram_stats] returns a result for every metric name, label
    map and collector, and never raises: when the collector holds no point
    under the key (no series, or an empty one) the result is the neutral
    one, with every field zero, and otherwise [count] is the number of
    points of the series and each of p50, p95 and p99 is the value of one of
    them. For a non-empty list and a percentile between 0 and 100,
    [_percentile] reads the list at the index computed in float arithmetic,
    cut down to the index of the last element, so that it returns an element
    of the list; at 100 (for a list of fewer than [2^53] items, whose length
    is a float) this is the last element. *)
Theorem C10_histogram_stats_total (name : string) (labels : Labels)
    (c : MetricsCollector) (values : list Q) (percentile : Z)
    (Hne : values ≠ []) (Hp : 0 ≤ percentile ≤ 100) :
  (∃ s, get_histogram_stats name labels c = Ok s
     ∧ match metrics c !! _make_key name labels with
       | None | Some [] => s = neutral_stats
       | Some points =>
           count s = Z.of_nat (length points)
           ∧ p50 s ∈ map value points
           ∧ p95 s ∈ map value points
           ∧ p99 s ∈ map value points
       end)
  ∧ (∃ v, _percentile values percentile = Ok v
       ∧ v ∈ values
       ∧ values
           !! Z.to_nat (Z.min (percentile_index percentile
                                 (Z.of_nat (length values)))
                          (Z.of_nat (length values) - 1)) = Some v)
  ∧ (Z.of_nat (length values) < 2 ^ 53 →
     _percentile values 100 = Ok (List.last values 0%Q)).
Proof.
  split; [|split].
  - unfold get_histogram_stats, series.
    destruct (metrics c !! _make_key name labels) as [[|pt points]|] eqn:Hs.
    { by exists neutral_stats. }
    2:{ by exists neutral_stats. }
    set (pts := pt :: points).
    set (vals := merge_sort Qle (map value pts)).
    assert (Hlen : length vals = length pts).
    { unfold vals. rewrite merge_sort_Permutation. apply length_map. }
    assert (Hvne : vals ≠ []).
    { intros Hnil. rewrite Hnil in Hlen. done. }
    destruct (py_div_ok (py_sum vals) (Z.of_nat (length vals))) as [a ->].
    { rewrite Hlen. simpl. lia. }
    destruct (_percentile_elem vals 50 Hvne) as (v50 & -> & H50); [lia|].
    destruct (_percentile_elem vals 95 Hvne) as (v95 & -> & H95); [lia|].
    destruct (_percentile_elem vals 99 Hvne) as (v99 & -> & H99); [lia|].
    eexists. split; [done|]. cbn [count p50 p95 p99].
    split; [by rewrite Hlen|].
    split; [|split]; apply sorted_values_elem; fold pts; fold vals;
      eapply list_elem_of_lookup_2; eauto.
  - destruct (_percentile_elem values percentile Hne) as (v & Hv & Hl); [lia|].
    exists v. split; [done|]. split; [|done].
    eapply list_elem_of_lookup_2; eauto.
  - intros Hlen.
    destruct (_percentile_elem values 100 Hne) as (v & Hv & Hl); [lia|].
    rewrite Hv. f_equal.
    rewrite FloatFacts.percentile_index_100 in Hl by lia.
    rewrite Z.min_r in Hl by lia.
    symmetry. by apply lookup_last.
Qed.

(** C10 at a collector that holds three points under one key, and at the
    95th percentile of three values. *)
Lemma C10_histogram_stats_witness :
  let point v := {| timestamp := 10; value := v; labels := None |} in
  let c :=
    {| max_points := 10;
       metrics := {[ "latency" := [point 3%Q; point 1%Q; point 2%Q] ]};
       counters := ∅; gauges := ∅ |} in
  (∃ s, get_histogram_stats "latency" None c = Ok s
     ∧ count s = 3
     ∧ p50 s ∈ [3%Q; 1%Q; 2%Q]
     ∧ p95 s ∈ [3%Q; 1%Q; 2%Q]
     ∧ p99 s ∈ [3%Q; 1%Q; 2%Q])
  ∧ (∃ v, _percentile [1%Q; 2%Q; 3%Q] 95 = Ok v
       ∧ v ∈ [1%Q; 2%Q; 3%Q]
       ∧ [1%Q; 2%Q; 3%Q] !! 2%nat = Some v)
  ∧ (3 < 2 ^ 53 → _percentile [1%Q; 2%Q; 3%Q] 100 = Ok 3%Q).
Proof.
  intros point c.
  exact (C10_histogram_stats_total "latency" None c [1%Q; 2%Q; 3%Q] 95
           ltac:(discriminate) ltac:(lia)).
Defined.

End MonitoringFacts.

(** * Further properties of the retraining pipeline *)

Module PipelineRunFacts.
Import RetrainingPipeline.
Import Examples.
Import RetrainingPipelineFacts.
Import StandardPipeline.

(** *** The shape of the execution plan *)

Lemma plan_loop_waves tsk : ∀ fuel plan rem comp plan',
  plan_loop fuel tsk plan rem comp = Ok plan' →
  Forall (fun wave => wave ≠ []) plan →
  Forall (fun wave => wave ≠ []) plan'.
Proof.
  induction fuel as [|fuel IH]; intros plan rem comp plan' Hrun Hne.
  - by injection Hrun as <-.
  - cbn [plan_loop] in Hrun. case_decide; [by injection Hrun as <-|].
    destruct (find_ready tsk (elements rem) comp) as [ready|e]; [|done].
    destruct ready as [|r rs]; [by injection Hrun as <-|].
    eapply IH; [exact Hrun|]. apply Forall_app. split; [done|].
    by apply Forall_singleton.
Qed.

(** For every set of tasks the plan has no empty wave, lists registered
    tasks only, lists no task twice, and puts every task after all of its
    dependencies. *)
Theorem plan_is_well_formed (tsk : gmap string TaskConfig) :
  ∃ plan, _build_execution_plan tsk = Ok plan
    ∧ Forall (fun wave => wave ≠ []) plan
    ∧ (∀ id, id ∈ concat plan → is_Some (tsk !! id))
    ∧ NoDup (concat plan)
    ∧ layered tsk plan.
Proof.
  destruct (build_plan_spec tsk) as (plan & Hplan & Hlay & Hsub & _ & Hnd).
  exists plan. split; [done|]. split.
  { eapply plan_loop_waves; [exact Hplan|constructor]. }
  split; [|done]. intros id Hid. by apply elem_of_dom, Hsub.
Qed.

Lemma acyclic_planned tsk plan :
  acyclic tsk →
  (∀ id, id ∈ dom tsk → id ∉ concat plan →
     is_ready tsk (list_to_set (concat plan)) id = false) →
  ∀ id, id ∈ dom tsk → id ∈ concat plan.
Proof.
  intros [rank Hrank] Hleft.
  assert (Hind : ∀ n id, (rank id < n)%nat → id ∈ dom tsk → id ∈ concat plan).
  { induction n as [|n IH]; intros id Hn Hid; [lia|].
    destruct (decide (id ∈ concat plan)) as [|Hnot]; [done|]. exfalso.
    pose proof Hid as Hid'. apply elem_of_dom in Hid' as [task Ht].
    destruct (is_ready_false _ _ _ _ Ht (Hleft id Hid Hnot)) as (dep & Hd & Hn').
    destruct (Hrank id task dep Ht Hd) as [Hsome Hlt].
    apply Hn'. apply elem_of_list_to_set, IH; [lia|].
    by apply elem_of_dom. }
  intros id. by apply (Hind (S (rank id))); lia.
Qed.

Lemma planned_acyclic tsk plan :
  layered tsk plan →
  (∀ id, id ∈ concat plan → id ∈ dom tsk) →
  (∀ id, id ∈ dom tsk → id ∈ concat plan) →
  acyclic tsk.
Proof.
  intros Hlay Hsub Hall.
  exists (fun id => default 0%nat (fst <$> list_find (fun wave => id ∈ wave) plan)).
  intros id task dep Ht Hd.
  assert (Hid : id ∈ concat plan) by (apply Hall, elem_of_dom; eauto).
  apply elem_of_concat in Hid as (wave & Hw & Hidw).
  destruct (list_find (fun wave => id ∈ wave) plan) as [[i w]|] eqn:Hfind.
  2: { apply list_find_None in Hfind. rewrite Forall_forall in Hfind.
       by destruct (Hfind wave Hw). }
  apply list_find_Some in Hfind as (Hi & Hin & _).
  destruct (Hlay i w id task dep Hi Hin Ht Hd) as (j & w' & Hj & Hlj & Hdj).
  split.
  { apply elem_of_dom, Hsub, elem_of_concat. exists w'. split; [|done].
    by eapply list_elem_of_lookup_2. }
  destruct (list_find (fun wave => dep ∈ wave) plan) as [[j' w'']|] eqn:Hfind'.
  2: { apply list_find_None in Hfind'. rewrite Forall_forall in Hfind'.
       destruct (Hfind' w'); [by eapply list_elem_of_lookup_2|done]. }
  apply list_find_Some in Hfind' as (_ & _ & Hmin). cbn.
  destruct (decide (j' ≤ j)%nat) as [|Hgt]; [lia|].
  destruct (Hmin j w' Hlj ltac:(lia)). done.
Qed.

(** The plan lists every registered task exactly when the dependencies are
    acyclic and name registered tasks only; it then is a permutation of the
    registered task ids. *)
Theorem plan_complete_iff_acyclic (tsk : gmap string TaskConfig) :
  ∃ plan, _build_execution_plan tsk = Ok plan
    ∧ ((∀ id, is_Some (tsk !! id) → id ∈ concat plan) ↔ acyclic tsk)
    ∧ (acyclic tsk → concat plan ≡ₚ elements (dom tsk)).
Proof.
  destruct (build_plan_spec tsk) as (plan & Hplan & Hlay & Hsub & Hleft & Hnd).
  exists plan. split; [done|].
  assert (Hcomplete : acyclic tsk → ∀ id, id ∈ dom tsk → id ∈ concat plan).
  { intros Hac. by apply acyclic_planned. }
  split; [split|].
  - intros Hall. apply (planned_acyclic tsk plan Hlay Hsub).
    intros id Hid. by apply Hall, elem_of_dom.
  - intros Hac id Hid. by apply Hcomplete, elem_of_dom.
  - intros Hac. apply NoDup_Permutation; [done|apply NoDup_elements|].
    intros id. rewrite elem_of_elements. split; [apply Hsub|by apply Hcomplete].
Qed.

(** *** Attempt numbers *)

Lemma attempt_among_mono id l l' ev :
  (∀ a, a ∈ l → a ∈ l') → attempt_among id l ev → attempt_among id l' ev.
Proof. intros Hsub. destruct ev; cbn; naive_solver. Qed.

Lemma on_error_trace tc start attempt msg result p :
  ∃ result' p' evs,
    on_error tc start attempt msg result p = (Ok result', p')
    ∧ trace p' = trace p ++ evs
    ∧ Forall (fun ev => ∀ u a, ev ≠ EvAttempt u a) evs
    ∧ tasks p' = tasks p ∧ pipeline_state p' = pipeline_state p
    ∧ ncalls p' = ncalls p.
Proof.
  unfold on_error. destruct (attempt <? retry_count tc).
  - eexists result, _, [EvSleep (2 ^ attempt)]. split; [reflexivity|].
    split; [done|]. split; [by repeat constructor|done].
  - eexists (Some _), p, []. split; [reflexivity|].
    split; [by rewrite app_nil_r|]. split; [constructor|done].
Qed.

Lemma attempt_loop_attempts tc start : ∀ attempts result p r p',
  attempt_loop tc start attempts result p = (r, p') →
  ∃ evs, trace p' = trace p ++ evs
    ∧ Forall (attempt_among (task_id tc) attempts) evs.
Proof.
  induction attempts as [|attempt rest IH]; intros result p r p' Hrun.
  - cbn [attempt_loop] in Hrun. destruct result as [r1|].
    + injection Hrun as <- <-. exists [EvResult (task_id tc) (status r1)].
      split; [done|]. by repeat constructor.
    + injection Hrun as <- <-. exists []. split; [by rewrite app_nil_r|constructor].
  - cbn [attempt_loop] in Hrun. unfold bind at 1, call_body in Hrun.
    destruct (function tc (ncalls p) (pipeline_state p)) as [out st].
    assert (Hstep : ∀ msg p1,
      trace p1 = trace p ++ [EvAttempt (task_id tc) attempt] →
      (do result' <- on_error tc start attempt msg result ;;
       attempt_loop tc start rest result') p1 = (r, p') →
      ∃ evs, trace p' = trace p ++ evs
        ∧ Forall (attempt_among (task_id tc) (attempt :: rest)) evs).
    { intros msg p1 Hp1 Hrun1. unfold bind at 1 in Hrun1.
      destruct (on_error_trace tc start attempt msg result p1)
        as (result' & p2 & evs2 & Ho & Ht2 & Hev2 & _).
      rewrite Ho in Hrun1.
      destruct (IH _ _ _ _ Hrun1) as (evs3 & Ht3 & Hev3).
      exists ([EvAttempt (task_id tc) attempt] ++ evs2 ++ evs3). split.
      { rewrite Ht3, Ht2, Hp1. by rewrite <- !app_assoc. }
      apply Forall_app. split.
      { apply Forall_singleton. split; [done|left]. }
      apply Forall_app. split.
      - eapply Forall_impl; [exact Hev2|]. intros ev Hev.
        destruct ev as [u a| | |]; try done. by destruct (Hev u a).
      - eapply Forall_impl; [exact Hev3|]. intros ev.
        apply attempt_among_mono. intros a Ha. by right. }
    destruct out as [o|e|].
    + injection Hrun as <- <-. eexists [_; _]. split; [cbn; by rewrite <- app_assoc|].
      constructor; [split; [done|left]|]. by repeat constructor.
    + by refine (Hstep _ _ _ Hrun).
    + by refine (Hstep _ _ _ Hrun).
Qed.

Lemma _execute_task_attempts tc p r p' :
  _execute_task tc p = (r, p') →
  ∃ evs, trace p' = trace p ++ evs
    ∧ Forall (fun ev => ∀ u a, ev = EvAttempt u a →
                u = task_id tc ∧ 0 ≤ a ≤ retry_count tc) evs.
Proof.
  unfold _execute_task, bind, datetime_now. intros Hrun.
  destruct (attempt_loop_attempts _ _ _ _ _ _ _ Hrun) as (evs & Ht & Hev).
  exists evs. split; [done|]. eapply Forall_impl; [exact Hev|].
  intros ev Hin u a ->. destruct Hin as [-> Ha]. split; [done|].
  unfold range in Ha. apply elem_of_seqZ in Ha. lia.
Qed.

Lemma gather_attempts cfgs : ∀ p r p',
  gather (map _execute_task cfgs) p = (r, p') →
  ∃ results evs, r = Ok results ∧ trace p' = trace p ++ evs
    ∧ Forall (fun ev => ∀ u a, ev = EvAttempt u a →
                ∃ tc, tc ∈ cfgs ∧ u = task_id tc ∧ 0 ≤ a ≤ retry_count tc) evs
    ∧ Forall2 (fun tc res => retry_count tc < 0 → is_ok res = false)
        cfgs results.
Proof.
  induction cfgs as [|tc rest IH]; intros p r p' Hrun.
  - injection Hrun as <- <-. exists [], []. split; [done|].
    split; [by rewrite app_nil_r|]. split; constructor.
  - cbn [map gather] in Hrun.
    destruct (_execute_task tc p) as [res p1] eqn:Ht.
    destruct (gather (map _execute_task rest) p1) as [rs p2] eqn:Hg.
    destruct (IH _ _ _ Hg) as (results & evs2 & -> & Ht2 & Hev2 & Hf2).
    injection Hrun as <- <-.
    destruct (_execute_task_attempts _ _ _ _ Ht) as (evs1 & Ht1 & Hev1).
    exists (res :: results), (evs1 ++ evs2). split; [done|].
    split; [by rewrite Ht2, Ht1, app_assoc|]. split.
    + apply Forall_app. split.
      * eapply Forall_impl; [exact Hev1|]. intros ev Hev u a Heq.
        exists tc. split; [left|]. by apply Hev.
      * eapply Forall_impl; [exact Hev2|]. intros ev Hev u a Heq.
        destruct (Hev u a Heq) as (tc' & Hin & Hrest).
        exists tc'. split; [by right|done].
    + constructor; [|done]. intros Hneg.
      rewrite (_execute_task_negative tc p Hneg) in Ht. by injection Ht as <- _.
Qed.

Lemma check_failures_attempts : ∀ results batch p r p',
  check_failures batch results p = (r, p') →
  ∃ evs, trace p' = trace p ++ evs
    ∧ Forall (fun ev => ∀ u a, ev ≠ EvAttempt u a) evs.
Proof.
  induction results as [|res results IH]; intros batch p r p' Hrun.
  - destruct batch; cbn [check_failures] in Hrun; unfold ret in Hrun;
      injection Hrun as <- <-; exists []; (split; [by rewrite app_nil_r|constructor]).
  - cbn [check_failures] in Hrun. destruct batch as [|id batch'].
    + unfold raise in Hrun. injection Hrun as <- <-. exists [].
      split; [by rewrite app_nil_r|constructor].
    + destruct res as [r0|e]; cbn [check_failures] in Hrun; [by eapply IH|].
      injection Hrun as <- <-. eexists [_]. split; [done|].
      by repeat constructor.
Qed.

Lemma run_batch_attempts batch p :
  wf_tasks (tasks p) →
  (∀ id, id ∈ batch → is_Some (tasks p !! id)) →
  ∃ b p' evs, run_batch batch p = (Ok b, p')
    ∧ extends p p' evs
    ∧ Forall (attempt_ok (tasks p)) evs
    ∧ Forall (fun ev => ∃ id, id ∈ batch ∧ task_event id ev) evs
    ∧ (b = true ↔
       ∀ id task, id ∈ batch → tasks p !! id = Some task →
         0 ≤ retry_count task).
Proof.
  intros Hwf Hdom.
  destruct (run_batch_spec batch p Hwf Hdom) as (b & p' & evs & Hrun & He & Hev & _ & Hok).
  exists b, p', evs. split; [done|]. split; [done|].
  unfold run_batch in Hrun. unfold bind at 1 in Hrun.
  destruct (batch_configs_ok batch p Hdom) as (cfgs & Hcfg & Hf).
  rewrite Hcfg in Hrun. unfold bind at 1 in Hrun.
  destruct (gather (map _execute_task cfgs) p) as [rg p1] eqn:Hg.
  destruct (gather_attempts _ _ _ _ Hg) as (results & evs1 & -> & Ht1 & Hev1 & Hneg).
  destruct (check_failures_attempts _ _ _ _ _ Hrun) as (evs2 & Ht2 & Hev2).
  assert (Hevs : evs = evs1 ++ evs2).
  { apply (extends_unique p p'); [done|]. by rewrite Ht2, Ht1, app_assoc. }
  assert (Hreg : ∀ tc, tc ∈ cfgs → tasks p !! task_id tc = Some tc).
  { intros tc Htc. apply list_elem_of_lookup in Htc as [i Hi].
    destruct (Forall2_lookup_r _ _ _ _ _ Hf Hi) as (id & Hid & Hl).
    by rewrite (Hwf _ _ Hl). }
  split.
  { rewrite Hevs. apply Forall_app. split.
    - eapply Forall_impl; [exact Hev1|]. intros ev Hin.
      destruct ev as [u a| | |]; try done.
      destruct (Hin u a eq_refl) as (tc & Htc & -> & Ha).
      exists tc. split; [by apply Hreg|done].
    - eapply Forall_impl; [exact Hev2|]. intros ev Hin.
      destruct ev as [u a| | |]; try done. by destruct (Hin u a). }
  split; [done|]. split; [|done].
  intros -> id task Hid Htask.
  destruct (Z.le_gt_cases 0 (retry_count task)) as [|Hlt]; [done|]. exfalso.
  destruct (check_failures_spec results batch p1) as (b' & p'' & evs' & Hc & _ & _ & Hb1 & _).
  { rewrite (Forall2_length _ _ _ Hf). by rewrite (Forall2_length _ _ _ Hneg). }
  rewrite Hrun in Hc. injection Hc as <- _.
  specialize (Hb1 eq_refl).
  apply list_elem_of_lookup in Hid as [i Hi].
  destruct (Forall2_lookup_l _ _ _ _ _ Hf Hi) as (tc & Htc & Hl).
  assert (tc = task) as -> by congruence.
  destruct (Forall2_lookup_l _ _ _ _ _ Hneg Htc) as (res & Hres & Hbad).
  rewrite Forall_lookup in Hb1. specialize (Hb1 _ _ Hres).
  rewrite Hbad in Hb1 by lia. done.
Qed.

Lemma run_batches_attempts plan : ∀ p,
  wf_tasks (tasks p) →
  (∀ id, id ∈ concat plan → is_Some (tasks p !! id)) →
  ∃ b p' evs, run_batches plan p = (Ok b, p')
    ∧ extends p p' evs
    ∧ Forall (attempt_ok (tasks p)) evs
    ∧ (b = true ↔
       ∀ id task, id ∈ concat plan → tasks p !! id = Some task →
         0 ≤ retry_count task)
    ∧ (∀ i wave id task,
         plan !! i = Some wave → id ∈ wave → tasks p !! id = Some task →
         retry_count task < 0 →
         Forall (fun ev => ∃ u, u ∈ concat (take (S i) plan) ∧ task_event u ev)
           evs).
Proof.
  induction plan as [|batch rest IH]; intros p Hwf Hdom.
  - exists true, p, []. split; [done|]. split; [apply extends_refl|].
    split; [constructor|]. split.
    + split; [|done]. intros _ id task Hid. by apply elem_of_nil in Hid.
    + intros i wave id task Hi. by rewrite lookup_nil in Hi.
  - cbn [concat] in Hdom.
    destruct (run_batch_attempts batch p Hwf) as (b1 & p1 & evs1 & Hb & He1 & Hok1 & Hev1 & Hiff1).
    { intros id Hid. apply Hdom, elem_of_app. by left. }
    cbn [run_batches]. unfold bind at 1. rewrite Hb.
    assert (Hin1 : ∀ i, Forall (fun ev => ∃ u, u ∈ concat (take (S i) (batch :: rest))
                                            ∧ task_event u ev) evs1).
    { intros i. eapply Forall_impl; [exact Hev1|]. intros ev (u & Hu & Hev).
      exists u. split; [|done]. cbn [take concat]. apply elem_of_app. by left. }
    destruct b1.
    + destruct (IH p1) as (b & p' & evs2 & Hr & He2 & Hok2 & Hiff2 & Hpre2).
      { by rewrite (ext_tasks _ _ _ He1). }
      { intros id Hid. rewrite (ext_tasks _ _ _ He1). apply Hdom, elem_of_app.
        by right. }
      rewrite (ext_tasks _ _ _ He1) in Hok2, Hiff2, Hpre2.
      exists b, p', (evs1 ++ evs2). split; [done|].
      split; [by eapply extends_trans|].
      split; [by apply Forall_app|]. split.
      * rewrite Hiff2. cbn [concat]. split.
        -- intros Hrest id task Hid Ht. apply elem_of_app in Hid as [Hid|Hid].
           ++ destruct Hiff1 as [Hall _]. by eapply (Hall eq_refl).
           ++ by eapply Hrest.
        -- intros Hall id task Hid Ht. eapply Hall; [|done].
           apply elem_of_app. by right.
      * intros i wave id task Hi Hid Ht Hneg. apply Forall_app. split; [done|].
        destruct i as [|i].
        -- exfalso. simpl in Hi. injection Hi as <-.
           destruct Hiff1 as [Hall _]. specialize (Hall eq_refl id task Hid Ht). lia.
        -- simpl in Hi. specialize (Hpre2 i wave id task Hi Hid Ht Hneg).
           eapply Forall_impl; [exact Hpre2|]. intros ev (u & Hu & Hev).
           exists u. split; [|done]. cbn [take concat]. apply elem_of_app. by right.
    + exists false, p1, evs1. split; [done|]. split; [done|]. split; [done|].
      split.
      * split; [done|]. intros Hall. apply Hiff1. intros id task Hid Ht.
        eapply Hall; [|done]. cbn [concat]. apply elem_of_app. by left.
      * intros i wave id task _ _ _ _. apply Hin1.
Qed.

(** *** The run, step by step *)

Lemma _execute_pipeline_unfold trigger p :
  ∃ plan p0,
    _build_execution_plan (tasks p) = Ok plan
    ∧ (∀ id, id ∈ concat plan → is_Some (tasks p !! id))
    ∧ NoDup (concat plan)
    ∧ p0 = (set_pipeline_state
              (initial_state trigger (clock p) (model_name (config p))) p).2
    ∧ _execute_pipeline trigger p
      = match run_batches plan p0 with
        | (Ok b, p1) =>
            _send_notifications b (clock p1 - clock p) trigger None p1
        | (Raise e, p1) =>
            _send_notifications false 0 trigger (Some (exc_msg e)) p1
        end.
Proof.
  destruct (build_plan_spec (tasks p)) as (plan & Hplan & _ & Hsub & _ & Hnd).
  eexists plan, _. split; [done|]. split.
  { intros id Hid. by apply elem_of_dom, Hsub. }
  split; [done|]. split; [reflexivity|].
  unfold _execute_pipeline, bind at 1, datetime_now, try_except.
  unfold bind at 1. unfold bind at 1. unfold bind at 1. unfold bind at 1.
  unfold lift. cbn [set_pipeline_state fst snd tasks].
  rewrite Hplan. unfold bind at 1.
  destruct (run_batches plan _) as [[b|e] p1]; [|done].
  unfold bind at 1, datetime_now.
  destruct (send_notifications_spec b (clock p1 - clock p) trigger None p1)
    as (p2 & nevs & Hs & _).
  by rewrite Hs.
Qed.

(** *** What the notification reports *)

(** The notification of a run says SUCCESS exactly when no task of the
    plan has a negative [retry_count], whatever the results of the tasks
    are: a run in which task bodies failed, even all of them, is reported
    as SUCCESS with no error text. It says FAILED only when the coroutine
    of a task itself raised. *)
Theorem notification_status_ignores_failed_tasks (p : Pipeline)
    (trigger : TriggerCondition) :
  wf_tasks (tasks p) → truthy (notifications (config p)) = true →
  ∃ plan p' evs m,
    _build_execution_plan (tasks p) = Ok plan
    ∧ _execute_pipeline trigger p = (Ok tt, p')
    ∧ trace p' = trace p ++ evs ++ [EvNotify m]
    ∧ m_error m = None
    ∧ (m_status m = "SUCCESS" ∨ m_status m = "FAILED")
    ∧ (m_status m = "SUCCESS"
       ↔ ∀ id task, id ∈ concat plan → tasks p !! id = Some task →
           0 ≤ retry_count task).
Proof.
  intros Hwf Hnot.
  destruct (_execute_pipeline_unfold trigger p) as (plan & p0 & Hplan & Hdom & _ & Hp0 & Hrun).
  assert (He0 : extends p p0 []).
  { subst p0. split; try done. cbn. by rewrite app_nil_r. }
  destruct (run_batches_attempts plan p0) as (b & p1 & evs & Hrb & He1 & _ & Hiff & _).
  { by rewrite (ext_tasks _ _ _ He0). }
  { intros id Hid. rewrite (ext_tasks _ _ _ He0). by apply Hdom. }
  rewrite Hrb in Hrun.
  destruct (send_notifications_spec b (clock p1 - clock p) trigger None p1)
    as (p2 & nevs & Hs & He2 & _ & _ & Hn).
  rewrite Hs in Hrun.
  rewrite (ext_config _ _ _ He1), (ext_config _ _ _ He0), Hnot in Hn.
  rewrite (ext_tasks _ _ _ He0) in Hiff.
  eexists plan, p2, evs, _. split; [done|]. split; [done|]. split.
  { rewrite (ext_trace _ _ _ He2), (ext_trace _ _ _ He1), (ext_trace _ _ _ He0), Hn.
    by rewrite app_nil_r, app_assoc. }
  cbn [m_error m_status]. split; [done|]. split; [destruct b; auto|].
  rewrite <- Hiff. by destruct b.
Qed.

(** At [Examples.continue_chain], where task A ends FAILED. *)
Lemma notification_status_witness :
  ∃ plan p' evs m,
    _build_execution_plan (tasks continue_chain) = Ok plan
    ∧ _execute_pipeline MANUAL continue_chain = (Ok tt, p')
    ∧ trace p' = trace continue_chain ++ evs ++ [EvNotify m]
    ∧ m_error m = None
    ∧ (m_status m = "SUCCESS" ∨ m_status m = "FAILED")
    ∧ (m_status m = "SUCCESS"
       ↔ ∀ id task, id ∈ concat plan →
           tasks continue_chain !! id = Some task → 0 ≤ retry_count task).
Proof.
  apply (notification_status_ignores_failed_tasks continue_chain MANUAL).
  - repeat apply wf_tasks_add_task. apply wf_tasks_init.
  - reflexivity.
Defined.

(** *** Attempt numbers and aborted runs *)

Lemma run_attempts trigger p :
  wf_tasks (tasks p) →
  ∃ plan p' evs nevs,
    _build_execution_plan (tasks p) = Ok plan
    ∧ NoDup (concat plan)
    ∧ _execute_pipeline trigger p = (Ok tt, p')
    ∧ trace p' = trace p ++ evs ++ nevs
    ∧ Forall (fun ev => is_notify ev = true) nevs
    ∧ Forall (attempt_ok (tasks p)) evs
    ∧ (∀ i wave id task,
         plan !! i = Some wave → id ∈ wave → tasks p !! id = Some task →
         retry_count task < 0 →
         Forall (fun ev => ∃ u, u ∈ concat (take (S i) plan) ∧ task_event u ev)
           evs).
Proof.
  intros Hwf.
  destruct (_execute_pipeline_unfold trigger p) as (plan & p0 & Hplan & Hdom & Hnd & Hp0 & Hrun).
  assert (He0 : extends p p0 []).
  { subst p0. split; try done. cbn. by rewrite app_nil_r. }
  destruct (run_batches_attempts plan p0) as (b & p1 & evs & Hrb & He1 & Hok & _ & Hpre).
  { by rewrite (ext_tasks _ _ _ He0). }
  { intros id Hid. rewrite (ext_tasks _ _ _ He0). by apply Hdom. }
  rewrite Hrb in Hrun.
  destruct (send_notifications_spec b (clock p1 - clock p) trigger None p1)
    as (p2 & nevs & Hs & He2 & _ & _ & Hn).
  rewrite Hs in Hrun. rewrite (ext_tasks _ _ _ He0) in Hok, Hpre.
  exists plan, p2, evs, nevs. split; [done|]. split; [done|]. split; [done|].
  split.
  { rewrite (ext_trace _ _ _ He2), (ext_trace _ _ _ He1), (ext_trace _ _ _ He0).
    by rewrite app_nil_r, app_assoc. }
  split; [|done].
  destruct (truthy _); subst nevs; by repeat constructor.
Qed.

(** In every run, each call of a task body is a call of a registered task
    and is numbered between 0 and the [retry_count] of that task; the body
    of a task with a negative [retry_count] is never called. *)
Theorem attempts_stay_within_retry_count (p : Pipeline)
    (trigger : TriggerCondition) :
  wf_tasks (tasks p) →
  ∃ p', _execute_pipeline trigger p = (Ok tt, p')
    ∧ ∀ id a, EvAttempt id a ∈ drop (length (trace p)) (trace p') →
        ∃ task, tasks p !! id = Some task ∧ 0 ≤ a ≤ retry_count task.
Proof.
  intros Hwf.
  destruct (run_attempts trigger p Hwf)
    as (plan & p' & evs & nevs & _ & _ & Hrun & Ht & Hnot & Hok & _).
  exists p'. split; [done|]. intros id a Hin.
  rewrite Ht, drop_app_length in Hin. apply elem_of_app in Hin as [Hin|Hin].
  - rewrite Forall_forall in Hok. apply (Hok _ Hin).
  - rewrite Forall_forall in Hnot. by specialize (Hnot _ Hin).
Qed.

(** At [Examples.continue_chain]. *)
Lemma attempts_within_witness :
  ∃ p', _execute_pipeline MANUAL continue_chain = (Ok tt, p')
    ∧ ∀ id a,
        EvAttempt id a ∈ drop (length (trace continue_chain)) (trace p') →
        ∃ task, tasks continue_chain !! id = Some task
                ∧ 0 ≤ a ≤ retry_count task.
Proof.
  apply (attempts_stay_within_retry_count continue_chain MANUAL).
  repeat apply wf_tasks_add_task. apply wf_tasks_init.
Defined.

(** A task with a negative [retry_count] makes its coroutine raise before
    the body is called. The run then stops after the wave of that task: no
    task of a later wave is executed. *)
Theorem negative_retry_count_aborts_run (p : Pipeline)
    (trigger : TriggerCondition) :
  wf_tasks (tasks p) →
  ∃ plan p' evs,
    _build_execution_plan (tasks p) = Ok plan
    ∧ _execute_pipeline trigger p = (Ok tt, p')
    ∧ trace p' = trace p ++ evs
    ∧ ∀ i wave id task,
        plan !! i = Some wave → id ∈ wave → tasks p !! id = Some task →
        retry_count task < 0 →
        ¬ executed id evs
        ∧ ∀ j wave' u, (i < j)%nat → plan !! j = Some wave' → u ∈ wave' →
            ¬ executed u evs.
Proof.
  intros Hwf.
  destruct (run_attempts trigger p Hwf)
    as (plan & p' & evs & nevs & Hplan & Hnd & Hrun & Ht & Hnot & Hok & Hpre).
  exists plan, p', (evs ++ nevs). split; [done|]. split; [done|].
  split; [done|]. intros i wave id task Hi Hid Htask Hneg.
  assert (Hsplit : ∀ u a, EvAttempt u a ∈ evs ++ nevs → EvAttempt u a ∈ evs).
  { intros u a Hin. apply elem_of_app in Hin as [Hin|Hin]; [done|].
    rewrite Forall_forall in Hnot. by specialize (Hnot _ Hin). }
  split.
  - intros [a Ha]. apply Hsplit in Ha.
    rewrite Forall_forall in Hok. destruct (Hok _ Ha) as (task' & Ht' & Hrange).
    assert (task' = task) as -> by congruence. lia.
  - intros j wave' u Hij Hj Hu [a Ha]. apply Hsplit in Ha.
    specialize (Hpre i wave id task Hi Hid Htask Hneg).
    rewrite Forall_forall in Hpre. destruct (Hpre _ Ha) as (u' & Hu' & Hev).
    cbn in Hev. subst u'.
    rewrite <- (take_drop (S i) plan), concat_app in Hnd.
    apply NoDup_app in Hnd as (_ & Hdisj & _).
    apply (Hdisj u Hu'). apply elem_of_concat. exists wave'. split; [|done].
    apply list_elem_of_lookup. exists (j - S i)%nat.
    rewrite lookup_drop. by replace (S i + (j - S i))%nat with j by lia.
Qed.

(** At [Examples.broken_chain], where A has [retry_count = -1]. *)
Lemma negative_retry_count_witness :
  ∃ plan p' evs,
    _build_execution_plan (tasks broken_chain) = Ok plan
    ∧ _execute_pipeline MANUAL broken_chain = (Ok tt, p')
    ∧ trace p' = trace broken_chain ++ evs
    ∧ ∀ i wave id task,
        plan !! i = Some wave → id ∈ wave →
        tasks broken_chain !! id = Some task →
        retry_count task < 0 →
        ¬ executed id evs
        ∧ ∀ j wave' u, (i < j)%nat → plan !! j = Some wave' → u ∈ wave' →
            ¬ executed u evs.
Proof.
  apply (negative_retry_count_aborts_run broken_chain MANUAL).
  repeat apply wf_tasks_add_task. apply wf_tasks_init.
Defined.

(** *** Retrying until the body returns *)

Lemma failing_round tc start a rest p :
  a < retry_count tc →
  (∀ o, (function tc (ncalls p) (pipeline_state p)).1 ≠ Returns o) →
  ∃ p2, attempt_loop tc start (a :: rest) None p
        = attempt_loop tc start rest None p2
    ∧ extends p p2 [EvAttempt (task_id tc) a; EvSleep (2 ^ a)]
    ∧ ncalls p2 = S (ncalls p)
    ∧ task_results p2 = task_results p.
Proof.
  intros Ha Hfail. cbn [attempt_loop]. unfold bind at 1, call_body.
  destruct (function tc (ncalls p) (pipeline_state p)) as [out st].
  assert (Hlt : (a <? retry_count tc) = true) by (apply Z.ltb_lt; lia).
  destruct out as [o|e|]; [by destruct (Hfail o)| |];
    unfold bind at 1, on_error; rewrite Hlt; unfold bind, asyncio_sleep, ret;
    (eexists; split; [reflexivity|]); (split; [|done]);
    split; try done; cbn; by rewrite <- app_assoc.
Qed.

Lemma returning_round tc start a rest p o :
  (function tc (ncalls p) (pipeline_state p)).1 = Returns o →
  ∃ r p2, attempt_loop tc start (a :: rest) None p = (Ok r, p2)
    ∧ status r = SUCCESS ∧ output r = or_empty o ∧ error r = None
    ∧ extends p p2 [EvAttempt (task_id tc) a; EvResult (task_id tc) SUCCESS]
    ∧ task_results p2 !! task_id tc = Some r.
Proof.
  intros Hret. cbn [attempt_loop]. unfold bind at 1, call_body.
  destruct (function tc (ncalls p) (pipeline_state p)) as [out st].
  cbn in Hret. subst out. unfold bind, datetime_now, store_result, ret.
  eexists _, _. split; [reflexivity|]. cbn. split; [done|]. split; [done|].
  split; [done|]. split; [|by rewrite lookup_insert_eq].
  split; try done. cbn. by rewrite <- app_assoc.
Qed.

Lemma attempt_loop_first_success tc start o : ∀ (k : nat) (a : Z) rest p,
  a + Z.of_nat k ≤ retry_count tc →
  (∀ i st, (i < k)%nat → ∀ o', (function tc (ncalls p + i)%nat st).1 ≠ Returns o') →
  (∀ st, (function tc (ncalls p + k)%nat st).1 = Returns o) →
  ∃ r p', attempt_loop tc start (seqZ a (Z.of_nat k + 1) ++ rest) None p = (Ok r, p')
    ∧ status r = SUCCESS ∧ output r = or_empty o ∧ error r = None
    ∧ task_results p' !! task_id tc = Some r
    ∧ extends p p'
        (concat (map (fun a => [EvAttempt (task_id tc) a; EvSleep (2 ^ a)])
                   (seqZ a (Z.of_nat k)))
         ++ [EvAttempt (task_id tc) (a + Z.of_nat k);
             EvResult (task_id tc) SUCCESS]).
Proof.
  induction k as [|k IH]; intros a rest p Hle Hfail Hret.
  - rewrite seqZ_cons, !seqZ_nil by lia. cbn [app].
    destruct (returning_round tc start a rest p o) as (r & p2 & Hrun & ? & ? & ? & He & ?).
    { specialize (Hret (pipeline_state p)). by rewrite Nat.add_0_r in Hret. }
    exists r, p2. rewrite Z.add_0_r. by cbn.
  - rewrite seqZ_cons by lia.
    replace (Z.pred (Z.of_nat (S k) + 1)) with (Z.of_nat k + 1) by lia.
    rewrite (seqZ_cons a (Z.of_nat (S k))) by lia.
    replace (Z.pred (Z.of_nat (S k))) with (Z.of_nat k) by lia.
    cbn [app].
    destruct (failing_round tc start a (seqZ (Z.succ a) (Z.of_nat k + 1) ++ rest) p)
      as (p2 & -> & He1 & Hn & Htr); [lia| |].
    { intros o'. specialize (Hfail 0%nat (pipeline_state p) ltac:(lia) o').
      by rewrite Nat.add_0_r in Hfail. }
    destruct (IH (Z.succ a) rest p2) as (r & p' & -> & ? & ? & ? & ? & He2).
    + lia.
    + intros i st Hi o'. rewrite Hn.
      replace (S (ncalls p) + i)%nat with (ncalls p + S i)%nat by lia.
      apply Hfail. lia.
    + intros st. rewrite Hn.
      replace (S (ncalls p) + k)%nat with (ncalls p + S k)%nat by lia.
      apply Hret.
    + exists r, p'. split; [done|]. split; [done|]. split; [done|].
      split; [done|]. split; [done|]. cbn [map concat].
      replace (a + Z.of_nat (S k)) with (Z.succ a + Z.of_nat k) by lia.
      apply (extends_trans _ _ _ _ _ He1 He2).
Qed.

(** A task whose body fails on its first [k] calls and returns on the next
    one, with [k] at most [retry_count], is attempted exactly [k + 1]
    times: it sleeps [2 ^ a] seconds after each failed attempt [a], and the
    first return ends the loop with the result SUCCESS, which holds the
    returned output, or the empty dictionary when the body returned
    [None]. *)
Theorem first_success_ends_retries (task_config : TaskConfig) (p : Pipeline)
    (k : nat) (o : option Dict) :
  Z.of_nat k ≤ retry_count task_config →
  (∀ i st, (i < k)%nat →
     ∀ o', (function task_config (ncalls p + i)%nat st).1 ≠ Returns o') →
  (∀ st, (function task_config (ncalls p + k)%nat st).1 = Returns o) →
  ∃ r p',
    _execute_task task_config p = (Ok r, p')
    ∧ status r = SUCCESS ∧ output r = or_empty o ∧ error r = None
    ∧ task_results p' !! task_id task_config = Some r
    ∧ trace p' = trace p ++ succeeding_trace (task_id task_config) (Z.of_nat k).
Proof.
  intros Hk Hfail Hret. unfold _execute_task, bind, datetime_now, range.
  replace (retry_count task_config + 1)
    with ((Z.of_nat k + 1) + (retry_count task_config - Z.of_nat k)) by lia.
  rewrite seqZ_app by lia.
  destruct (attempt_loop_first_success task_config (clock p) o k 0
              (seqZ (0 + (Z.of_nat k + 1)) (retry_count task_config - Z.of_nat k))
              p) as (r & p' & -> & ? & ? & ? & ? & He); [lia|done|done|].
  exists r, p'. split; [done|]. split; [done|]. split; [done|].
  split; [done|]. split; [done|]. apply (ext_trace _ _ _ He).
Qed.

(** At a body that returns on its third call, with [retry_count = 3]. *)
Lemma first_success_witness :
  let task_config := mk_task "load" third_time_lucky None 3 "fail" in
  ∃ r p',
    _execute_task task_config (init (cfg channels)) = (Ok r, p')
    ∧ status r = SUCCESS
    ∧ output r = or_empty (Some (<["rows" := VInt 7]> ∅))
    ∧ error r = None
    ∧ task_results p' !! task_id task_config = Some r
    ∧ trace p'
      = trace (init (cfg channels)) ++ succeeding_trace (task_id task_config) 2.
Proof.
  intros task_config.
  apply (first_success_ends_retries task_config (init (cfg channels)) 2
           (Some (<["rows" := VInt 7]> ∅))).
  - cbn. lia.
  - intros i st Hi o'. cbn. unfold third_time_lucky.
    destruct (Nat.ltb_spec i 2); [done|lia].
  - intros st. reflexivity.
Defined.

(** *** The shared state *)

Lemma on_error_state tc start attempt msg result p :
  pipeline_state (on_error tc start attempt msg result p).2 = pipeline_state p.
Proof. unfold on_error. by destruct (attempt <? retry_count tc). Qed.

Lemma on_error_ok tc start attempt msg result p :
  ∃ result', (on_error tc start attempt msg result p).1 = Ok result'.
Proof. unfold on_error. destruct (attempt <? retry_count tc); by eexists. Qed.

Lemma attempt_loop_state tc start : ∀ attempts result p,
  read_only tc →
  pipeline_state (attempt_loop tc start attempts result p).2 = pipeline_state p.
Proof.
  induction attempts as [|attempt rest IH]; intros result p Hro.
  - cbn [attempt_loop]. by destruct result.
  - cbn [attempt_loop]. unfold bind at 1, call_body.
    pose proof (Hro (ncalls p) (pipeline_state p)) as Hst.
    destruct (function tc (ncalls p) (pipeline_state p)) as [out st].
    cbn in Hst. subst st.
    assert (Hstep : ∀ msg p1, pipeline_state p1 = pipeline_state p →
      pipeline_state
        ((do result' <- on_error tc start attempt msg result ;;
          attempt_loop tc start rest result') p1).2 = pipeline_state p).
    { intros msg p1 Hp1. unfold bind at 1.
      pose proof (on_error_state tc start attempt msg result p1) as Hs.
      destruct (on_error_ok tc start attempt msg result p1) as [result' Hr].
      destruct (on_error tc start attempt msg result p1) as [r1 p2].
      cbn in Hs, Hr. subst r1. rewrite IH by done. congruence. }
    destruct out as [o|e|]; [done| |]; by apply Hstep.
Qed.

Lemma _execute_task_state tc p :
  read_only tc → pipeline_state (_execute_task tc p).2 = pipeline_state p.
Proof.
  intros Hro. unfold _execute_task, bind, datetime_now.
  by apply attempt_loop_state.
Qed.

Lemma gather_state cfgs : ∀ p,
  Forall read_only cfgs →
  pipeline_state (gather (map _execute_task cfgs) p).2 = pipeline_state p.
Proof.
  induction cfgs as [|tc rest IH]; intros p Hro; [done|].
  apply Forall_cons in Hro as [Htc Hrest]. cbn [map gather].
  pose proof (_execute_task_state tc p Htc) as H1.
  destruct (_execute_task tc p) as [res p1]. cbn in H1.
  pose proof (IH p1 Hrest) as H2.
  destruct (gather (map _execute_task rest) p1) as [[rs|e] p2]; cbn in *;
    congruence.
Qed.

Lemma check_failures_state : ∀ results batch p,
  pipeline_state (check_failures batch results p).2 = pipeline_state p.
Proof.
  induction results as [|res results IH]; intros batch p.
  - by destruct batch.
  - destruct batch as [|id batch']; [done|]. cbn [check_failures].
    destruct res as [r0|e]; [apply IH|done].
Qed.

Lemma batch_configs_sound batch : ∀ p cfgs p',
  batch_configs batch p = (Ok cfgs, p') →
  Forall (fun tc => ∃ id, tasks p !! id = Some tc) cfgs.
Proof.
  induction batch as [|id rest IH]; intros p cfgs p' Hrun.
  - injection Hrun as <- _. constructor.
  - cbn [batch_configs] in Hrun. unfold bind at 1, get_task in Hrun.
    destruct (tasks p !! id) as [tc|] eqn:Ht; [|done].
    unfold bind at 1 in Hrun.
    destruct (batch_configs rest p) as [[cfgs'|e] p1] eqn:Hr; [|done].
    injection Hrun as <- _. constructor; [by exists id|by eapply IH].
Qed.

Lemma run_batch_state batch p :
  (∀ id task, tasks p !! id = Some task → read_only task) →
  pipeline_state (run_batch batch p).2 = pipeline_state p.
Proof.
  intros Hro. unfold run_batch. unfold bind at 1.
  pose proof (batch_configs_state batch p) as Hst.
  destruct (batch_configs batch p) as [[cfgs|e] p0] eqn:Hb; simpl in Hst; subst p0;
    [|done].
  unfold bind at 1.
  pose proof (gather_state cfgs p) as Hg.
  destruct (gather (map _execute_task cfgs) p) as [[results|e] p1]; cbn in Hg.
  - rewrite check_failures_state. apply Hg.
    eapply Forall_impl; [by eapply batch_configs_sound|].
    intros tc [id Hid]. by eapply Hro.
  - apply Hg. eapply Forall_impl; [by eapply batch_configs_sound|].
    intros tc [id Hid]. by eapply Hro.
Qed.

Lemma run_batches_state plan : ∀ p,
  (∀ id task, tasks p !! id = Some task → read_only task) →
  pipeline_state (run_batches plan p).2 = pipeline_state p.
Proof.
  induction plan as [|batch rest IH]; intros p Hro; [done|].
  cbn [run_batches]. unfold bind at 1.
  pose proof (run_batch_state batch p Hro) as Hb.
  destruct (run_batch batch p) as [rb p1] eqn:Hrun. cbn in Hb.
  destruct (run_batch_frame _ _ _ _ Hrun) as (evs & He & _).
  destruct rb as [[|]|e]; [|done|done].
  rewrite IH; [done|]. intros id task. rewrite (ext_tasks _ _ _ He). apply Hro.
Qed.

(** When no task body changes the dictionary it is given, as none of
    [PipelineTasks] does, the shared state after a run is the state the
    run started with: the three entries [trigger], [start_time] and
    [model_name]. No output of a task is ever added to it, so no task can
    read the output of another one from the state. *)
Theorem outputs_never_enter_shared_state (p : Pipeline)
    (trigger : TriggerCondition) :
  (∀ id task, tasks p !! id = Some task → read_only task) →
  ∃ p', _execute_pipeline trigger p = (Ok tt, p')
    ∧ pipeline_state p'
      = initial_state trigger (clock p) (model_name (config p))
    ∧ ∀ key, key ≠ "trigger" → key ≠ "start_time" → key ≠ "model_name" →
        pipeline_state p' !! key = None.
Proof.
  intros Hro.
  destruct (_execute_pipeline_frame trigger p) as (p' & evs & nevs & Hrun & _).
  exists p'. split; [done|].
  assert (Hstate : pipeline_state p'
                   = initial_state trigger (clock p) (model_name (config p))).
  { destruct (_execute_pipeline_unfold trigger p) as (plan & p0 & _ & _ & _ & Hp0 & Hun).
    rewrite Hrun in Hun.
    pose proof (run_batches_state plan p0) as Hs.
    destruct (run_batches plan p0) as [[b|e] p1]; cbn in Hs.
    - destruct (send_notifications_spec b (clock p1 - clock p) trigger None p1)
        as (p2 & nevs' & Hsend & _ & _ & Hst & _).
      rewrite Hsend in Hun. injection Hun as ->. rewrite Hst, Hs; [by subst p0|].
      subst p0. exact Hro.
    - destruct (send_notifications_spec false 0 trigger (Some (exc_msg e)) p1)
        as (p2 & nevs' & Hsend & _ & _ & Hst & _).
      rewrite Hsend in Hun. injection Hun as ->. rewrite Hst, Hs; [by subst p0|].
      subst p0. exact Hro. }
  split; [done|]. intros key H1 H2 H3. rewrite Hstate. unfold initial_state.
  by rewrite !lookup_insert_ne, lookup_empty by done.
Qed.

Lemma read_only_data_chain notif :
  ∀ id task, tasks (data_chain notif) !! id = Some task → read_only task.
Proof.
  intros id task Ht. cbn in Ht.
  apply lookup_insert_Some in Ht as [[_ <-]|[_ Ht]].
  { intros n st. cbn. unfold validate_data_quality.
    repeat (case_match; try done). }
  apply lookup_insert_Some in Ht as [[_ <-]|[_ Ht]]; [by intros n st|].
  by rewrite lookup_empty in Ht.
Qed.

(** At [Examples.data_chain]. *)
Lemma outputs_never_enter_witness :
  ∃ p', _execute_pipeline MANUAL (data_chain channels) = (Ok tt, p')
    ∧ pipeline_state p'
      = initial_state MANUAL (clock (data_chain channels))
          (model_name (config (data_chain channels)))
    ∧ ∀ key, key ≠ "trigger" → key ≠ "start_time" → key ≠ "model_name" →
        pipeline_state p' !! key = None.
Proof.
  exact (outputs_never_enter_shared_state (data_chain channels) MANUAL
           (read_only_data_chain channels)).
Defined.

(** *** The standard pipeline *)

Lemma standard_plan render env name :
  _build_execution_plan (tasks (create_standard_retraining_pipeline render env name))
  = Ok (map (fun id => [id]) chain).
Proof. vm_compute. reflexivity. Qed.

Lemma standard_observed (render : PyVal -> string) (env : nat -> Draws)
    (name : string) (trigger : TriggerCondition) :
  let ran := _execute_pipeline trigger
               (create_standard_retraining_pipeline render env name) in
  (ran.1, statuses ran.2 chain,
   error <$> task_results ran.2 !! "validate_candidate_model",
   (fun r => output r !! "registered_version")
     <$> task_results ran.2 !! "register_model_version",
   output <$> task_results ran.2 !! "promote_to_production",
   notified (trace ran.2))
  = (Ok tt,
     [Some SUCCESS; Some FAILED; Some SUCCESS; Some FAILED;
      Some SUCCESS; Some SUCCESS; Some SUCCESS],
     Some (Some "Task validate_candidate_model failed: Model accuracy 0.000 below threshold 0.90"),
     Some (Some (VStr "v1")),
     Some (<["promoted" := VBool false]>
             (<["reason" := VStr "candidate_not_better"]> ∅)),
     ["SUCCESS"]).
Proof. vm_compute. reflexivity. Qed.

(** Every run of the standard pipeline, for every model name, trigger and
    outcome of the random draws, goes through the seven tasks one after the
    other. As no output reaches the shared state, [validate_data_quality]
    and [validate_candidate_model] read their defaults and end FAILED, the
    version registered is the default [v1], and [promote_to_production]
    finds no test result and does not promote. The notification says
    SUCCESS. *)
Theorem standard_pipeline_never_promotes (render : PyVal -> string)
    (env : nat -> Draws) (name : string) (trigger : TriggerCondition) :
  let pipeline := create_standard_retraining_pipeline render env name in
  let ran := _execute_pipeline trigger pipeline in
  _build_execution_plan (tasks pipeline) = Ok (map (fun id => [id]) chain)
  ∧ ran.1 = Ok tt
  ∧ statuses ran.2 chain
    = [Some SUCCESS; Some FAILED; Some SUCCESS; Some FAILED; Some SUCCESS;
       Some SUCCESS; Some SUCCESS]
  ∧ error <$> task_results ran.2 !! "validate_candidate_model"
    = Some (Some "Task validate_candidate_model failed: Model accuracy 0.000 below threshold 0.90")
  ∧ (fun r => output r !! "registered_version")
      <$> task_results ran.2 !! "register_model_version"
    = Some (Some (VStr "v1"))
  ∧ output <$> task_results ran.2 !! "promote_to_production"
    = Some (<["promoted" := VBool false]>
              (<["reason" := VStr "candidate_not_better"]> ∅))
  ∧ notified (trace ran.2) = ["SUCCESS"].
Proof.
  intros pipeline ran. subst ran pipeline.
  split; [apply standard_plan|].
  pose proof (standard_observed render env name trigger) as Hobs.
  cbv zeta in Hobs.
  apply pair_equal_spec in Hobs as [Hobs H6].
  apply pair_equal_spec in Hobs as [Hobs H5].
  apply pair_equal_spec in Hobs as [Hobs H4].
  apply pair_equal_spec in Hobs as [Hobs H3].
  apply pair_equal_spec in Hobs as [H1 H2].
  split; [exact H1|]. split; [exact H2|]. split; [exact H3|].
  split; [exact H4|]. split; [exact H5|exact H6].
Qed.

End PipelineRunFacts.

(** * Properties of counters, gauges and statistics *)

Module CollectorFacts.
Import Monitoring.

(** *** Counters and gauges *)

Lemma get_counter_record_counter name v labels name' labels' c :
  get_counter name' labels' (record_counter name v labels c)
  = if decide (_make_key name labels = _make_key name' labels')
    then get_counter name' labels' c + v
    else get_counter name' labels' c.
Proof.
  unfold get_counter, record_counter. cbn [counters].
  case_decide as Hk.
  - by rewrite Hk, lookup_insert_eq.
  - by rewrite lookup_insert_ne.
Qed.

Lemma get_gauge_record_gauge name v labels name' labels' c :
  get_gauge name' labels' (record_gauge name v labels c)
  = if decide (_make_key name labels = _make_key name' labels')
    then v
    else get_gauge name' labels' c.
Proof.
  unfold get_gauge, record_gauge. cbn [gauges].
  case_decide as Hk.
  - by rewrite Hk, lookup_insert_eq.
  - by rewrite lookup_insert_ne.
Qed.

Lemma counted_Count key name v labels us :
  counted key (Count name v labels :: us)
  = if decide (_make_key name labels = key) then v :: counted key us
    else counted key us.
Proof. unfold counted. cbn. by case_decide. Qed.

Lemma gauged_Gauge key name v labels us :
  gauged key (Gauge name v labels :: us)
  = if decide (_make_key name labels = key) then v :: gauged key us
    else gauged key us.
Proof. unfold gauged. cbn. by case_decide. Qed.

Lemma apply_updates_cons u us c :
  apply_updates (u :: us) c = apply_updates us (apply_update u c).
Proof. done. Qed.

(** After any sequence of [record_counter] and [record_gauge] calls,
    [get_counter] is what it was before plus the sum of the amounts recorded
    under the same key; a key never recorded reads 0 on a new collector.
    Two pairs of a name and labels share a counter exactly when
    [_make_key] gives them the same key. *)
Theorem get_counter_is_sum_of_recorded (us : list Update) (name : string)
    (labels : Labels) (c : MetricsCollector) :
  get_counter name labels (apply_updates us c)
  = get_counter name labels c + sum_Z (counted (_make_key name labels) us).
Proof.
  revert c. induction us as [|u us IH]; intros c.
  - cbn. lia.
  - rewrite apply_updates_cons, IH. destruct u as [n v l|n v l].
    + rewrite counted_Count. cbn [apply_update].
      rewrite get_counter_record_counter.
      case_decide; [cbn [sum_Z foldr]; fold (sum_Z (counted (_make_key name labels) us))|]; lia.
    + done.
Qed.

(** After any sequence of [record_counter] and [record_gauge] calls,
    [get_gauge] is the value of the last [record_gauge] under the same key,
    and what it was before when there is none. *)
Theorem get_gauge_is_last_recorded (us : list Update) (name : string)
    (labels : Labels) (c : MetricsCollector) :
  get_gauge name labels (apply_updates us c)
  = default (get_gauge name labels c)
      (last (gauged (_make_key name labels) us)).
Proof.
  revert c. induction us as [|u us IH]; intros c; [done|].
  rewrite apply_updates_cons, IH. destruct u as [n v l|n v l]; [done|].
  rewrite gauged_Gauge. cbn [apply_update].
  rewrite get_gauge_record_gauge. case_decide as Hk; [|done].
  destruct (gauged (_make_key name labels) us) as [|g gs] eqn:Hg; [done|].
  rewrite last_cons_cons. destruct (last (g :: gs)) eqn:Hl; [done|].
  by apply last_None in Hl.
Qed.

(** *** The order of the percentiles *)

#[local] Instance Qle_transitive : Transitive Qle.
Proof. intros x y z. apply Qle_trans. Qed.

#[local] Instance Qle_total_rel : Total Qle.
Proof.
  intros x y. destruct (Qlt_le_dec x y) as [H|H]; [left|right]; [|done].
  by apply Qlt_le_weak.
Qed.

Lemma sorted_lookup_le (l : list Q) (i j : nat) (x y : Q) :
  StronglySorted Qle l → (i ≤ j)%nat → l !! i = Some x → l !! j = Some y →
  (x <= y)%Q.
Proof.
  intros Hs. revert i j. induction Hs as [|a l Hs IH Hall]; intros i j Hij Hi Hj.
  - done.
  - destruct i as [|i], j as [|j]; simpl in *.
    + injection Hi as <-. injection Hj as <-. apply Qle_refl.
    + injection Hi as <-. rewrite Forall_forall in Hall.
      apply Hall. by eapply list_elem_of_lookup_2.
    + lia.
    + eapply IH; [|done..]. lia.
Qed.

Lemma _percentile_mono (values : list Q) (p q : Z) (x y : Q) :
  StronglySorted Qle values → 0 ≤ p → p ≤ q →
  _percentile values p = Ok x → _percentile values q = Ok y → (x <= y)%Q.
Proof.
  intros Hs Hp Hpq Hx Hy.
  destruct (decide (values = [])) as [->|Hne].
  { injection Hx as <-. injection Hy as <-. apply Qle_refl. }
  destruct (MonitoringFacts._percentile_elem values p Hne Hp) as (x' & Hx' & Hlx).
  destruct (MonitoringFacts._percentile_elem values q Hne ltac:(lia))
    as (y' & Hy' & Hly).
  assert (x' = x) as -> by congruence. assert (y' = y) as -> by congruence.
  eapply sorted_lookup_le; [done| |done..].
  pose proof (FloatFacts.percentile_index_mono p q (Z.of_nat (length values))
                Hp Hpq ltac:(lia)).
  pose proof (FloatFacts.percentile_index_nonneg p (Z.of_nat (length values))
                Hp ltac:(lia)).
  destruct values; [done|]. simpl length in *. lia.
Qed.

Lemma _percentile_max (values : list Q) (p : Z) (x v : Q) :
  StronglySorted Qle values →
  Z.of_nat (length values) ≤ percentile_index p (Z.of_nat (length values)) + 1 →
  0 ≤ p →
  _percentile values p = Ok x → v ∈ values → (v <= x)%Q.
Proof.
  intros Hs Hidx Hp Hx Hv.
  assert (Hne : values ≠ []) by (intros ->; by apply elem_of_nil in Hv).
  destruct (MonitoringFacts._percentile_elem values p Hne Hp) as (x' & Hx' & Hlx).
  assert (x' = x) as -> by congruence.
  apply list_elem_of_lookup in Hv as [i Hi].
  eapply sorted_lookup_le; [done| |done..].
  pose proof (lookup_lt_Some _ _ _ Hi). lia.
Qed.

(** Up to 100 values the 99th percentile is at the last index: checked for
    each length, as the index is computed in float arithmetic. *)
Lemma percentile_index_99 (len : Z) :
  0 < len ≤ 100 → len ≤ percentile_index 99 len + 1.
Proof.
  intros Hlen.
  assert (Hall : Forall (fun n => n ≤ percentile_index 99 n + 1) (seqZ 1 100)).
  { apply Forall_forall. intros n Hn.
    assert (Hb : forallb (fun n => n <=? percentile_index 99 n + 1)
                   (seqZ 1 100) = true) by (vm_compute; reflexivity).
    rewrite forallb_forall in Hb. apply Z.leb_le, Hb.
    by apply list_elem_of_In. }
  rewrite Forall_forall in Hall. apply Hall. apply elem_of_seqZ. lia.
Qed.

(** For every name, label map and collector whose recorded values are
    finite numbers (the values of the model; a NaN among the values leaves
    the sort of the code without a defined order) the statistics have
    [p50 <= p95 <= p99], and [count] is the number of points of the series.
    As long as a series has at most 100 points, no recorded value is above
    [p99]: the 99th percentile is then the maximum. The indices are those
    of the float arithmetic of the code; rounding keeps their order. *)
Theorem percentiles_are_ordered (name : string) (labels : Labels)
    (c : MetricsCollector) (points : list MetricPoint) :
  metrics c !! _make_key name labels = Some points →
  ∃ s, get_histogram_stats name labels c = Ok s
    ∧ count s = Z.of_nat (length points)
    ∧ (p50 s <= p95 s)%Q ∧ (p95 s <= p99 s)%Q
    ∧ (Z.of_nat (length points) ≤ 100 →
       ∀ pt, pt ∈ points → (value pt <= p99 s)%Q).
Proof.
  intros Hpoints. unfold get_histogram_stats, series. rewrite Hpoints.
  destruct points as [|pt points].
  { exists neutral_stats. split; [done|]. split; [done|].
    split; [done|]. split; [done|]. intros _ pt Hpt. by apply elem_of_nil in Hpt. }
  set (pts := pt :: points).
  set (vals := merge_sort Qle (map value pts)).
  assert (Hsorted : StronglySorted Qle vals).
  { unfold vals. apply StronglySorted_merge_sort; apply _. }
  assert (Hlen : length vals = length pts).
  { unfold vals. rewrite merge_sort_Permutation. apply length_map. }
  assert (Hvne : vals ≠ []).
  { intros Hnil. rewrite Hnil in Hlen. done. }
  destruct (MonitoringFacts.py_div_ok (py_sum vals) (Z.of_nat (length vals)))
    as [a ->].
  { rewrite Hlen. simpl. lia. }
  destruct (MonitoringFacts._percentile_elem vals 50 Hvne) as (v50 & H50 & _); [lia|].
  destruct (MonitoringFacts._percentile_elem vals 95 Hvne) as (v95 & H95 & _); [lia|].
  destruct (MonitoringFacts._percentile_elem vals 99 Hvne) as (v99 & H99 & _); [lia|].
  rewrite H50, H95, H99. eexists. split; [done|]. cbn [count p50 p95 p99].
  split; [by rewrite Hlen|].
  split; [by apply (_percentile_mono vals 50 95)|].
  split; [by apply (_percentile_mono vals 95 99)|].
  intros Hcount pt' Hpt'.
  apply (_percentile_max vals 99); [done| |lia|done|].
  - apply percentile_index_99. rewrite Hlen. simpl length in *. lia.
  - unfold vals. rewrite merge_sort_Permutation.
    apply list_elem_of_fmap. by exists pt'.
Qed.

(** At a collector that holds three points under one key. *)
Lemma percentiles_ordered_witness :
  let point v := {| timestamp := 10; value := v; labels := None |} in
  let points := [point 3%Q; point (1 # 2)%Q; point 2%Q] in
  let c :=
    {| max_points := 10; metrics := {[ "latency" := points ]};
       counters := ∅; gauges := ∅ |} in
  ∃ s, get_histogram_stats "latency" None c = Ok s
    ∧ count s = 3
    ∧ (p50 s <= p95 s)%Q ∧ (p95 s <= p99 s)%Q
    ∧ (3 ≤ 100 → ∀ pt, pt ∈ points → (value pt <= p99 s)%Q).
Proof.
  intros point points c.
  exact (percentiles_are_ordered "latency" None c points eq_refl).
Defined.

(** *** Statistics after recording *)

Lemma stats_members (name : string) (labels : Labels) (c : MetricsCollector) :
  ∃ s, get_histogram_stats name labels c = Ok s
    ∧ count s = Z.of_nat (length (series c (_make_key name labels)))
    ∧ (series c (_make_key name labels) ≠ [] →
       Forall (fun v => v ∈ map value (series c (_make_key name labels)))
         [p50 s; p95 s; p99 s]).
Proof.
  unfold get_histogram_stats.
  destruct (series c (_make_key name labels)) as [|pt points] eqn:Hser.
  { by exists neutral_stats. }
  set (pts := pt :: points).
  set (vals := merge_sort Qle (map value pts)).
  assert (Hlen : length vals = length pts).
  { unfold vals. rewrite merge_sort_Permutation. apply length_map. }
  assert (Hvne : vals ≠ []).
  { intros Hnil. rewrite Hnil in Hlen. done. }
  destruct (MonitoringFacts.py_div_ok (py_sum vals) (Z.of_nat (length vals)))
    as [a ->].
  { rewrite Hlen. simpl. lia. }
  destruct (MonitoringFacts._percentile_elem vals 50 Hvne) as (v50 & -> & H50); [lia|].
  destruct (MonitoringFacts._percentile_elem vals 95 Hvne) as (v95 & -> & H95); [lia|].
  destruct (MonitoringFacts._percentile_elem vals 99 Hvne) as (v99 & -> & H99); [lia|].
  eexists. split; [done|]. cbn [count p50 p95 p99].
  split; [by rewrite Hlen|]. intros _.
  assert (Hin : ∀ i v, vals !! i = Some v → v ∈ map value pts).
  { intros i v Hv. apply list_elem_of_lookup_2 in Hv. unfold vals in Hv.
    by rewrite merge_sort_Permutation in Hv. }
  apply Forall_cons. split; [by eapply Hin|].
  apply Forall_cons. split; [by eapply Hin|].
  apply Forall_cons. split; [by eapply Hin|]. apply Forall_nil_2.
Qed.

(** Recording and reading back: after any sequence of [record_histogram]
    calls on a collector of capacity [max_points], the statistics of a key
    count the points recorded under it, up to [max_points], and each of
    p50, p95 and p99 is the value of one of the last [max_points] points
    recorded under the key: a point that was evicted never shows. *)
Theorem stats_describe_recent_points (max_points : Z) (calls : list Call)
    (name : string) (labels : Labels) :
  0 ≤ max_points →
  let key := _make_key name labels in
  let recent := last_n (Z.to_nat max_points) (recorded key calls) in
  ∃ c s, record_all calls (init max_points) = Ok c
    ∧ get_histogram_stats name labels c = Ok s
    ∧ count s = Z.min (Z.of_nat (length (recorded key calls))) max_points
    ∧ (recent ≠ [] →
       Forall (fun v => v ∈ map value recent) [p50 s; p95 s; p99 s]).
Proof.
  intros Hcap key recent.
  destruct (MonitoringFacts.record_all_series calls [] (init max_points))
    as (c & Hc & _ & Hs); [done| |].
  { intros k. unfold series, recorded, last_n. simpl. by rewrite lookup_empty. }
  simpl in Hs.
  destruct (stats_members name labels c) as (s & Hst & Hcount & Hmem).
  fold key in Hcount, Hmem. rewrite (Hs key) in Hcount, Hmem.
  exists c, s. split; [done|]. split; [done|]. split; [|done].
  rewrite Hcount. unfold last_n. rewrite length_drop. lia.
Qed.

(** At a collector of capacity 2 and three calls under one key. *)
Lemma stats_describe_witness :
  let calls :=
    [ {| c_name := "latency"; c_value := 9%Q; c_labels := None; c_now := 10 |};
      {| c_name := "latency"; c_value := 2%Q; c_labels := None; c_now := 11 |};
      {| c_name := "latency"; c_value := 3%Q; c_labels := None; c_now := 12 |} ]
  in
  let recent := last_n (Z.to_nat 2) (recorded "latency" calls) in
  ∃ c s, record_all calls (init 2) = Ok c
    ∧ get_histogram_stats "latency" None c = Ok s
    ∧ count s = Z.min (Z.of_nat (length (recorded "latency" calls))) 2
    ∧ (recent ≠ [] →
       Forall (fun v => v ∈ map value recent) [p50 s; p95 s; p99 s]).
Proof.
  intros calls recent.
  apply (stats_describe_recent_points 2 calls "latency" None). lia.
Defined.

(** *** Keys of different metrics *)

Lemma has_char_app c (a b : string) :
  has_char c (a +:+ b) = has_char c a || has_char c b.
Proof.
  induction a as [|x a IH]; [done|].
  change (String x a +:+ b) with (String x (a +:+ b)).
  cbn [has_char]. rewrite IH. by rewrite orb_assoc.
Qed.

(** Two strings cut at the first [c] agree on both sides of it. *)
Lemma split_first (c : Ascii.ascii) (a b x y : string) :
  has_char (String c "") a = false → has_char (String c "") b = false →
  a +:+ String c x = b +:+ String c y → a = b ∧ x = y.
Proof.
  revert b. induction a as [|a0 a IH]; intros [|b0 b] Ha Hb Heq.
  - cbn in Heq. by injection Heq as ->.
  - cbn in Heq. injection Heq as <- _. cbn in Hb.
    by rewrite bool_decide_eq_true_2 in Hb.
  - cbn in Heq. injection Heq as -> _. cbn in Ha.
    by rewrite bool_decide_eq_true_2 in Ha.
  - cbn in Heq. injection Heq as -> Heq. cbn in Ha, Hb.
    apply orb_false_iff in Ha as [_ Ha]. apply orb_false_iff in Hb as [_ Hb].
    destruct (IH b Ha Hb Heq) as [-> ->]. done.
Qed.

Lemma split_first_at (c : Ascii.ascii) (a b x y : string) :
  has_char (String c "") a = false → has_char (String c "") b = false →
  a +:+ String c "" +:+ x = b +:+ String c "" +:+ y → a = b ∧ x = y.
Proof. apply split_first. Qed.

Lemma no_char_no_split (c : Ascii.ascii) (a b y : string) :
  has_char (String c "") a = false → a ≠ b +:+ String c y.
Proof.
  intros Ha ->. rewrite has_char_app in Ha. cbn in Ha.
  rewrite bool_decide_eq_true_2 in Ha by done.
  by rewrite orb_true_r in Ha.
Qed.

Lemma append_char_inj (c : Ascii.ascii) (x y : string) :
  x +:+ String c "" = y +:+ String c "" → x = y.
Proof.
  revert y. induction x as [|a x IH]; intros [|b y] Heq; cbn in Heq.
  - done.
  - injection Heq as _ Heq. by destruct y.
  - injection Heq as _ Heq. by destruct x.
  - injection Heq as -> Heq. f_equal. by apply IH.
Qed.

Lemma join_items_inj (l1 l2 : list (string * string)) :
  Forall (fun kv => has_char "," kv.1 = false ∧ has_char "," kv.2 = false) l1 →
  Forall (fun kv => has_char "," kv.1 = false ∧ has_char "," kv.2 = false) l2 →
  join "," (map item_text l1) = join "," (map item_text l2) →
  map item_text l1 = map item_text l2.
Proof.
  assert (Hplain : ∀ kv : string * string,
            has_char "," kv.1 = false ∧ has_char "," kv.2 = false →
            has_char "," (item_text kv) = false).
  { intros kv [H1 H2]. unfold item_text. rewrite !has_char_app, H1, H2. done. }
  assert (Hne : ∀ kv : string * string, item_text kv ≠ "").
  { intros [k v]. unfold item_text. cbn. by destruct k. }
  revert l2. induction l1 as [|x l1 IH]; intros l2 H1 H2 Heq.
  - destruct l2 as [|y l2]; [done|]. cbn [map join] in Heq. exfalso.
    destruct (map item_text l2) as [|z zs].
    + by destruct (Hne y).
    + destruct (item_text y) eqn:Hy; [by destruct (Hne y)|]. by cbn in Heq.
  - apply Forall_cons in H1 as [Hx H1].
    destruct l2 as [|y l2].
    { cbn [map join] in Heq. exfalso. destruct (map item_text l1) as [|z zs].
      - by destruct (Hne x).
      - destruct (item_text x) eqn:Hx'; [by destruct (Hne x)|]. by cbn in Heq. }
    apply Forall_cons in H2 as [Hy H2]. cbn [map].
    specialize (IH l2 H1 H2). cbn [map join] in Heq.
    destruct (map item_text l1) as [|z zs] eqn:Hl1,
             (map item_text l2) as [|w ws] eqn:Hl2.
    + by rewrite Heq.
    + exfalso. by eapply (no_char_no_split _ _ _ _ (Hplain x Hx)).
    + exfalso. symmetry in Heq.
      by eapply (no_char_no_split _ _ _ _ (Hplain y Hy)).
    + apply split_first_at in Heq as [-> Hrest]; [|by apply Hplain..].
      f_equal. by apply IH.
Qed.

Lemma item_text_inj (x y : string * string) :
  has_char "=" x.1 = false → has_char "=" y.1 = false →
  item_text x = item_text y → x = y.
Proof.
  destruct x as [k v], y as [k' v']. unfold item_text. cbn [fst snd].
  intros Hk Hk' Heq. by apply split_first_at in Heq as [-> ->].
Qed.

Lemma sorted_items_inj (d1 d2 : gmap string string) :
  sorted_items d1 = sorted_items d2 → d1 = d2.
Proof.
  intros Heq. apply map_to_list_inj. unfold sorted_items in Heq.
  rewrite <- (merge_sort_Permutation item_le (map_to_list d1)).
  rewrite <- (merge_sort_Permutation item_le (map_to_list d2)).
  by rewrite Heq.
Qed.

Lemma plain_sorted_items (d : gmap string string) :
  plain_labels (Some d) →
  Forall (fun kv => has_char "=" kv.1 = false ∧ has_char "," kv.1 = false
                    ∧ has_char "," kv.2 = false) (sorted_items d).
Proof.
  intros Hp. apply Forall_forall. intros [k v] Hin. unfold sorted_items in Hin.
  rewrite merge_sort_Permutation in Hin. apply elem_of_map_to_list in Hin.
  by apply Hp.
Qed.

Lemma make_key_labels_inj (d1 d2 : gmap string string) :
  plain_labels (Some d1) → plain_labels (Some d2) →
  join "," (map item_text (sorted_items d1))
  = join "," (map item_text (sorted_items d2)) →
  d1 = d2.
Proof.
  intros Hp1%plain_sorted_items Hp2%plain_sorted_items Heq.
  apply sorted_items_inj. apply join_items_inj in Heq.
  2,3: (eapply Forall_impl; [eassumption|]; by intros kv (_ & ? & ?)).
  revert Hp1 Hp2 Heq. generalize (sorted_items d1) (sorted_items d2).
  induction l as [|x l IH]; intros [|y l'] H1 H2 Heq; try done.
  apply Forall_cons in H1 as [(Hx & _) H1].
  apply Forall_cons in H2 as [(Hy & _) H2].
  cbn [map] in Heq. injection Heq as Hxy Heq.
  f_equal; [by apply item_text_inj|by apply IH].
Qed.

(** Keys do not collide for plain names and labels: when the names hold
    no brace, the label keys hold no [=] or [,] and the label values hold
    no [,], two calls get the same key only for the same name and the same
    labels, where no labels and empty labels count as the same. *)
Theorem plain_keys_do_not_collide (name1 name2 : string)
    (labels1 labels2 : Labels) :
  has_char "{" name1 = false → has_char "{" name2 = false →
  plain_labels labels1 → plain_labels labels2 →
  _make_key name1 labels1 = _make_key name2 labels2 →
  name1 = name2 ∧ label_set labels1 = label_set labels2.
Proof.
  intros Hn1 Hn2 Hp1 Hp2 Heq.
  assert (Hbare : ∀ name labels, label_set labels = ∅ →
                    _make_key name labels = name).
  { intros name [d|] Hd; [|done]. cbn in Hd. subst d. done. }
  assert (Hbraced : ∀ name labels, label_set labels ≠ ∅ →
            _make_key name labels
            = name +:+ "{"
                +:+ (join "," (map item_text (sorted_items (label_set labels)))
                       +:+ "}")).
  { intros name [d|] Hd; [|done]. cbn in Hd. unfold _make_key.
    by rewrite decide_False by done. }
  destruct (decide (label_set labels1 = ∅)) as [He1|Hne1],
           (decide (label_set labels2 = ∅)) as [He2|Hne2].
  - rewrite !Hbare in Heq by done. split; [done|congruence].
  - rewrite Hbare, Hbraced in Heq by done. exfalso.
    by eapply (no_char_no_split _ _ _ _ Hn1).
  - rewrite Hbraced, Hbare in Heq by done. exfalso. symmetry in Heq.
    by eapply (no_char_no_split _ _ _ _ Hn2).
  - rewrite !Hbraced in Heq by done.
    apply split_first_at in Heq as [-> Heq]; [|done..]. split; [done|].
    apply append_char_inj in Heq.
    apply make_key_labels_inj; [| |done].
    + intros k v Hkv. apply Hp1. by destruct labels1.
    + intros k v Hkv. apply Hp2. by destruct labels2.
Qed.

(** At one name and two label dictionaries built in different orders: the
    keys are the same text and the dictionaries are equal. *)
Lemma plain_keys_witness :
  let labels1 : Labels :=
    Some (<["method" := "GET"]> (<["status_code" := "200"]> ∅)) in
  let labels2 : Labels :=
    Some (<["status_code" := "200"]> (<["method" := "GET"]> ∅)) in
  _make_key "http_requests_total" labels1
  = "http_requests_total{method=GET,status_code=200}"
  ∧ "http_requests_total" = "http_requests_total"
  ∧ label_set labels1 = label_set labels2.
Proof.
  intros labels1 labels2.
  split; [vm_compute; reflexivity|].
  apply (plain_keys_do_not_collide "http_requests_total" "http_requests_total"
           labels1 labels2).
  - reflexivity.
  - reflexivity.
  - intros k v Hkv. cbn in Hkv.
    apply lookup_insert_Some in Hkv as [[<- <-]|[_ Hkv]];
      [repeat split; reflexivity|].
    apply lookup_insert_Some in Hkv as [[<- <-]|[_ Hkv]];
      [repeat split; reflexivity|].
    by rewrite lookup_empty in Hkv.
  - intros k v Hkv. cbn in Hkv.
    apply lookup_insert_Some in Hkv as [[<- <-]|[_ Hkv]];
      [repeat split; reflexivity|].
    apply lookup_insert_Some in Hkv as [[<- <-]|[_ Hkv]];
      [repeat split; reflexivity|].
    by rewrite lookup_empty in Hkv.
  - vm_compute. reflexivity.
Defined.

End CollectorFacts.

(** * Properties of the health checker's metrics *)

Module HealthCheckerFacts.
Import Monitoring.
Import HealthChecker.

(** *** Keys *)

Lemma has_brace_app (a b : string) :
  has_brace (a +:+ b) = has_brace a || has_brace b.
Proof.
  induction a as [|x a IH]; [done|].
  change (String x a +:+ b) with (String x (a +:+ b)).
  cbn [has_brace]. rewrite IH. by rewrite orb_assoc.
Qed.

Lemma has_brace_make_key name (d : gmap string string) :
  d ≠ ∅ → has_brace (_make_key name (Some d)) = true.
Proof.
  intros Hd. unfold _make_key. case_decide; [done|].
  rewrite !has_brace_app. cbn. by rewrite orb_true_r.
Qed.

Lemma make_key_braces name (d : gmap string string) :
  d ≠ ∅ →
  ∃ ls, _make_key name (Some d) = name +:+ "{" +:+ ls +:+ "}".
Proof. intros Hd. unfold _make_key. case_decide; [done|]. eauto. Qed.

Lemma make_key_bare name labels :
  has_brace name = false → has_brace (_make_key name labels) = false →
  _make_key name labels = name.
Proof.
  intros Hn Hk. destruct labels as [d|]; [|done].
  destruct (decide (d = ∅)) as [->|Hd]; [done|].
  by rewrite has_brace_make_key in Hk.
Qed.

Lemma append_brace_inj (x y : string) : x +:+ "}" = y +:+ "}" → x = y.
Proof.
  revert y. induction x as [|a x IH]; intros [|b y] Heq; cbn in Heq.
  - done.
  - injection Heq as _ Heq. by destruct y.
  - injection Heq as _ Heq. by destruct x.
  - injection Heq as -> Heq. f_equal. by apply IH.
Qed.

Lemma braces_inj name (x y : string) :
  name +:+ "{" +:+ x +:+ "}" = name +:+ "{" +:+ y +:+ "}" → x = y.
Proof.
  intros Heq. apply String.app_inj in Heq. apply String.app_inj in Heq.
  by apply append_brace_inj.
Qed.

(** *** The collector after recordings *)

Lemma labelled_new : labelled new_metrics.
Proof.
  split; [done|]. split; intros key [x Hx]; cbn in Hx;
    by rewrite lookup_empty in Hx.
Qed.

Lemma labelled_record_counter name v (d : gmap string string) m :
  d ≠ ∅ → labelled m → labelled (record_counter name v (Some d) m).
Proof.
  intros Hd (Hmax & Hc & Hm). split; [done|]. split; [|done].
  intros key. unfold record_counter. cbn [counters].
  destruct (decide (_make_key name (Some d) = key)) as [<-|Hne].
  - intros _. by apply has_brace_make_key.
  - rewrite lookup_insert_ne by done. apply Hc.
Qed.

Lemma labelled_record_histogram name v (d : gmap string string) now m :
  d ≠ ∅ → labelled m →
  ∃ m', record_histogram name v (Some d) now m = Ok m'
    ∧ labelled m' ∧ counters m' = counters m.
Proof.
  intros Hd (Hmax & Hc & Hm). unfold record_histogram, metrics_getitem.
  assert (∃ pts, match metrics m !! _make_key name (Some d) with
                 | Some d0 => Ok d0
                 | None => new_deque (max_points m)
                 end = Ok pts) as [pts ->].
  { destruct (metrics m !! _ ) as [pts|]; [by eauto|].
    rewrite Hmax. by exists []. }
  eexists. split; [done|]. split; [|done].
  split; [done|]. split; [done|]. intros key. cbn [metrics].
  destruct (decide (_make_key name (Some d) = key)) as [<-|Hne].
  - intros _. by apply has_brace_make_key.
  - rewrite lookup_insert_ne by done. apply Hm.
Qed.

Lemma labels2_nonempty (k1 v1 k2 v2 : string) :
  <[k1 := v1]> (<[k2 := v2]> (∅ : gmap string string)) ≠ ∅.
Proof. apply insert_non_empty. Qed.

Lemma labels1_nonempty (k1 v1 : string) :
  <[k1 := v1]> (∅ : gmap string string) ≠ ∅.
Proof. apply insert_non_empty. Qed.

Lemma cnt_record_counter name v labels m key :
  cnt (record_counter name v labels m) key
  = if decide (_make_key name labels = key) then cnt m key + v else cnt m key.
Proof.
  unfold cnt, record_counter. cbn [counters]. case_decide as Hk.
  - by rewrite Hk, lookup_insert_eq.
  - by rewrite lookup_insert_ne.
Qed.

Ltac other_name :=
  let H := fresh in
  intros ? ? H; cbn in H; discriminate H.

(** A recording step: the total is counted, a histogram is recorded, and
    the error is counted when [failed] holds. *)
Lemma counted_step (total errors : string) (d : gmap string string)
    (failed : bool) (m m2 : MetricsCollector) (total0 errors0 : string) :
  d ≠ ∅ →
  counters m2 = counters (record_counter total 1 (Some d) m) →
  (∀ x y, errors0 +:+ "{" +:+ x +:+ "}" ≠ total +:+ "{" +:+ y +:+ "}") →
  (errors0 = errors ∧ total0 = total
   ∨ ∀ x y, errors0 +:+ "{" +:+ x +:+ "}" ≠ errors +:+ "{" +:+ y +:+ "}") →
  errors_below total0 errors0 m →
  errors_below total0 errors0
    (if failed then record_counter errors 1 (Some d) m2 else m2).
Proof.
  intros Hd Hc Hne1 Hcase Hinv ls.
  destruct (make_key_braces total d Hd) as [l Hkt].
  destruct (make_key_braces errors d Hd) as [l' Hke].
  assert (l' = l) as ->.
  { unfold _make_key in Hkt, Hke. case_decide; [done|].
    apply String.app_inj, String.app_inj, append_brace_inj in Hkt.
    apply String.app_inj, String.app_inj, append_brace_inj in Hke.
    congruence. }
  assert (Hm2 : ∀ key, cnt m2 key
                = if decide (total +:+ "{" +:+ l +:+ "}" = key)
                  then cnt m key + 1 else cnt m key).
  { intros key. unfold cnt at 1. rewrite Hc.
    fold (cnt (record_counter total 1 (Some d) m) key).
    by rewrite cnt_record_counter, Hkt. }
  assert (Hlow : cnt m2 (errors0 +:+ "{" +:+ ls +:+ "}")
                 = cnt m (errors0 +:+ "{" +:+ ls +:+ "}")).
  { rewrite Hm2. case_decide as Hk; [|done]. by destruct (Hne1 ls l). }
  assert (Hup : cnt m (total0 +:+ "{" +:+ ls +:+ "}")
                ≤ cnt m2 (total0 +:+ "{" +:+ ls +:+ "}")).
  { rewrite Hm2. case_decide; lia. }
  specialize (Hinv ls).
  destruct failed; [|lia].
  rewrite !cnt_record_counter, Hke.
  destruct (decide (errors +:+ "{" +:+ l +:+ "}"
                    = errors0 +:+ "{" +:+ ls +:+ "}")) as [Heq|Hneq].
  - destruct Hcase as [[-> ->]|Hother]; [|by destruct (Hother ls l)].
    apply braces_inj in Heq as ->.
    destruct (decide (errors +:+ "{" +:+ ls +:+ "}"
                      = total +:+ "{" +:+ ls +:+ "}")) as [Hbad|_];
      [by destruct (Hne1 ls ls)|].
    rewrite Hlow, Hm2. rewrite decide_True by done. lia.
  - case_decide; lia.
Qed.

Lemma record_labelled_balanced (r : Recording) (m : MetricsCollector) :
  labelled m → balanced m →
  ∃ m', record r m = Ok m' ∧ labelled m' ∧ balanced m'.
Proof.
  intros Hl (Hb1 & Hb2 & Hb3). destruct r as
    [method path status_code duration now
    |model duration success input_tokens now now'
    |duration success now]; cbn [record].
  - unfold record_request.
    set (d := <["method" := method]> (<["status_code" := pretty status_code]> ∅)).
    assert (Hd : d ≠ ∅) by apply insert_non_empty.
    pose proof (labelled_record_counter "http_requests_total" 1 d m Hd Hl) as Hl1.
    destruct (labelled_record_histogram "http_request_duration_ms"
                (duration * 1000)%Q d now _ Hd Hl1) as (m2 & -> & Hl2 & Hc2).
    exists (if 400 <=? status_code
            then record_counter "http_requests_errors_total" 1 (Some d) m2
            else m2).
    split; [by destruct (400 <=? status_code)|]. split.
    { destruct (400 <=? status_code); [|done].
      by apply labelled_record_counter. }
    split; [|split].
    + apply (counted_step "http_requests_total" _ d _ m m2); [done|done|other_name|by left|done].
    + apply (counted_step "http_requests_total" _ d _ m m2); [done|done|other_name|right; other_name|done].
    + apply (counted_step "http_requests_total" _ d _ m m2); [done|done|other_name|right; other_name|done].
  - unfold record_ml_inference.
    set (d := <["model" := model]> (<["success" := str_bool success]> ∅)).
    assert (Hd : d ≠ ∅) by apply insert_non_empty.
    pose proof (labelled_record_counter "ml_inferences_total" 1 d m Hd Hl) as Hl1.
    destruct (labelled_record_histogram "ml_inference_duration_ms"
                (duration * 1000)%Q d now _ Hd Hl1) as (m2 & -> & Hl2 & Hc2).
    assert (∃ m3, (if 0 <? input_tokens
                   then record_histogram "ml_input_tokens"
                          (inject_Z input_tokens) (Some d) now' m2
                   else Ok m2) = Ok m3
                  ∧ labelled m3 ∧ counters m3 = counters m2)
      as (m3 & -> & Hl3 & Hc3).
    { destruct (0 <? input_tokens); [|by exists m2].
      by apply labelled_record_histogram. }
    rewrite Hc2 in Hc3.
    exists (if negb success
            then record_counter "ml_inference_errors_total" 1 (Some d) m3
            else m3).
    split; [by destruct (negb success)|]. split.
    { destruct (negb success); [|done]. by apply labelled_record_counter. }
    split; [|split].
    + apply (counted_step "ml_inferences_total" _ d _ m m3); [done|done|other_name|right; other_name|done].
    + apply (counted_step "ml_inferences_total" _ d _ m m3); [done|done|other_name|by left|done].
    + apply (counted_step "ml_inferences_total" _ d _ m m3); [done|done|other_name|right; other_name|done].
  - unfold record_database_query.
    set (d := <["success" := str_bool success]> ∅).
    assert (Hd : d ≠ ∅) by apply insert_non_empty.
    pose proof (labelled_record_counter "database_queries_total" 1 d m Hd Hl) as Hl1.
    destruct (labelled_record_histogram "database_query_duration_ms"
                (duration * 1000)%Q d now _ Hd Hl1) as (m2 & -> & Hl2 & Hc2).
    exists (if negb success
            then record_counter "database_errors_total" 1 (Some d) m2
            else m2).
    split; [by destruct (negb success)|]. split.
    { destruct (negb success); [|done]. by apply labelled_record_counter. }
    split; [|split].
    + apply (counted_step "database_queries_total" _ d _ m m2); [done|done|other_name|right; other_name|done].
    + apply (counted_step "database_queries_total" _ d _ m m2); [done|done|other_name|right; other_name|done].
    + apply (counted_step "database_queries_total" _ d _ m m2); [done|done|other_name|by left|done].
Qed.

Lemma record_calls_labelled_balanced (rs : list Recording) : ∀ m,
  labelled m → balanced m →
  ∃ m', record_calls rs m = Ok m' ∧ labelled m' ∧ balanced m'.
Proof.
  induction rs as [|r rs IH]; intros m Hl Hb; [by exists m|].
  cbn [record_calls].
  destruct (record_labelled_balanced r m Hl Hb) as (m1 & -> & Hl1 & Hb1).
  by apply IH.
Qed.

Lemma balanced_new : balanced new_metrics.
Proof. split; [|split]; intros ls; unfold cnt; cbn; by rewrite !lookup_empty. Qed.

Lemma labelled_summary (m : MetricsCollector) :
  labelled m → _get_metrics_summary m = Ok zero_summary.
Proof.
  intros (_ & Hc & Hm).
  assert (Hcnt : ∀ name, has_brace name = false → get_counter name None m = 0).
  { intros name Hn. unfold get_counter. cbn [_make_key].
    destruct (counters m !! name) as [x|] eqn:Hx; [|done].
    rewrite Hc in Hn by eauto. done. }
  assert (Hst : ∀ name, has_brace name = false →
                get_histogram_stats name None m = Ok neutral_stats).
  { intros name Hn. unfold get_histogram_stats, series. cbn [_make_key].
    destruct (metrics m !! name) as [x|] eqn:Hx; [|done].
    rewrite Hm in Hn by eauto. done. }
  unfold _get_metrics_summary. rewrite !Hst by done. rewrite !Hcnt by done.
  done.
Qed.

(** The summary of the health report reads the counters and series stored
    under the bare metric names, while the recording methods store theirs
    under keys with labels. After any sequence of [record_request],
    [record_ml_inference] and [record_database_query] calls on a new
    [HealthChecker], every call succeeds and [_get_metrics_summary] still
    reports zero requests, inferences, queries and errors, and the neutral
    statistics. *)
Theorem summary_ignores_labelled_metrics (rs : list Recording) :
  ∃ m, record_calls rs new_metrics = Ok m
    ∧ _get_metrics_summary m = Ok zero_summary.
Proof.
  destruct (record_calls_labelled_balanced rs new_metrics labelled_new balanced_new)
    as (m & Hm & Hl & _).
  exists m. split; [done|]. by apply labelled_summary.
Qed.

Lemma errors_below_get_counter total errors labels m :
  has_brace total = false → has_brace errors = false →
  labelled m → errors_below total errors m →
  get_counter errors labels m ≤ get_counter total labels m.
Proof.
  intros Ht He (_ & Hc & _) Hb. unfold get_counter.
  assert (Hbare : ∀ name, has_brace name = false →
            labels = None ∨ labels = Some ∅ →
            default 0 (counters m !! _make_key name labels) = 0).
  { intros name Hn Hlab. assert (_make_key name labels = name) as ->.
    { by destruct Hlab as [-> | ->]. }
    destruct (counters m !! name) as [x|] eqn:Hx; [|done].
    rewrite Hc in Hn by eauto. done. }
  destruct labels as [d|]; [|rewrite !Hbare by auto; done].
  destruct (decide (d = ∅)) as [->|Hd]; [rewrite !Hbare by auto; done|].
  specialize (Hb (join "," (map (fun kv => kv.1 +:+ "=" +:+ kv.2) (sorted_items d)))).
  unfold cnt in Hb. unfold _make_key. by rewrite !decide_False by done.
Qed.

(** After any sequence of recording calls on a new [HealthChecker], for
    every label map the error counter is at most the total counter it
    belongs to: request errors and requests, inference errors and
    inferences, database errors and queries. *)
Theorem errors_never_exceed_totals (rs : list Recording) (labels : Labels) :
  ∃ m, record_calls rs new_metrics = Ok m
    ∧ get_counter "http_requests_errors_total" labels m
      ≤ get_counter "http_requests_total" labels m
    ∧ get_counter "ml_inference_errors_total" labels m
      ≤ get_counter "ml_inferences_total" labels m
    ∧ get_counter "database_errors_total" labels m
      ≤ get_counter "database_queries_total" labels m.
Proof.
  destruct (record_calls_labelled_balanced rs new_metrics labelled_new balanced_new)
    as (m & Hm & Hl & Hb1 & Hb2 & Hb3).
  exists m. split; [done|].
  split; [|split]; by apply errors_below_get_counter.
Qed.

(** *** The overall status *)

Lemma status_among (checks : gmap string HealthCheckResult) (st : string) :
  st ∈ map hc_status (map_to_list checks).*2
  ↔ ∃ name r, checks !! name = Some r ∧ hc_status r = st.
Proof.
  rewrite list_elem_of_In, in_map_iff. split.
  - intros (r & Hst & Hr). apply list_elem_of_In, list_elem_of_fmap in Hr
      as ([name r'] & -> & Hin).
    apply elem_of_map_to_list in Hin. by exists name, r'.
  - intros (name & r & Hr & Hst). exists r. split; [done|].
    apply list_elem_of_In, list_elem_of_fmap. exists (name, r).
    split; [done|]. by apply elem_of_map_to_list.
Qed.

(** [get_overall_status] is the worst status among the checks: it is
    [fail] exactly when some check has the status [fail], [warn] exactly
    when none has [fail] and some has [warn], and [pass] in every other
    case, which includes no check at all and checks with any other status
    text. *)
Theorem overall_status_is_worst (checks : gmap string HealthCheckResult) :
  let some_has st := ∃ name r, checks !! name = Some r ∧ hc_status r = st in
  (get_overall_status checks = "fail" ↔ some_has "fail")
  ∧ (get_overall_status checks = "warn"
     ↔ ¬ some_has "fail" ∧ some_has "warn")
  ∧ (get_overall_status checks = "pass"
     ↔ ¬ some_has "fail" ∧ ¬ some_has "warn").
Proof.
  intros some_has. unfold get_overall_status.
  pose proof (status_among checks "fail") as Hf.
  pose proof (status_among checks "warn") as Hw.
  fold (some_has "fail") in Hf. fold (some_has "warn") in Hw.
  repeat case_bool_decide; split_and!; split; try done; try tauto;
    intros; tauto.
Qed.

Lemma lookup_run_all_checks checks elapsed stamp name :
  run_all_checks checks elapsed stamp !! name
  = (fun _ => run_check checks name (elapsed name) (stamp name))
      <$> checks !! name.
Proof.
  unfold run_all_checks. rewrite map_lookup_imap.
  by destruct (checks !! name).
Qed.

(** [run_all_checks] gives one result for each registered check and no
    other, and the overall status of these results is [fail] exactly when
    some check raises, times out or returns a result with the status
    [fail]. *)
Theorem failing_check_fails_report (checks : gmap string CheckOutcome)
    (elapsed : string -> Q) (stamp : string -> string) :
  dom (run_all_checks checks elapsed stamp) = dom checks
  ∧ (get_overall_status (run_all_checks checks elapsed stamp) = "fail"
     ↔ ∃ name outcome,
         checks !! name = Some outcome
         ∧ match outcome with
           | Returns r => hc_status r = "fail"
           | Raises _ | TimesOut => True
           end).
Proof.
  split.
  - apply set_eq. intros name. rewrite !elem_of_dom, lookup_run_all_checks.
    by rewrite fmap_is_Some.
  - destruct (overall_status_is_worst (run_all_checks checks elapsed stamp))
      as (-> & _). split.
    + intros (name & r & Hr & Hst). rewrite lookup_run_all_checks in Hr.
      destruct (checks !! name) as [outcome|] eqn:Ho; [|done].
      exists name, outcome. split; [done|].
      injection Hr as <-. unfold run_check in Hst. rewrite Ho in Hst.
      by destruct outcome.
    + intros (name & outcome & Ho & Hst).
      exists name, (run_check checks name (elapsed name) (stamp name)).
      rewrite lookup_run_all_checks, Ho. split; [done|].
      unfold run_check. rewrite Ho. by destruct outcome.
Qed.

End HealthCheckerFacts.

(** * Properties of the duration text *)

Module DurationFacts.
Import HealthChecker.

Lemma Qfloor_unique (q : Q) (z : Z) :
  (inject_Z z <= q)%Q → (q < inject_Z (z + 1))%Q → Qfloor q = z.
Proof.
  intros Hlo Hhi.
  assert (z ≤ Qfloor q).
  { rewrite <- (Qfloor_Z z). by apply Qfloor_resp_le. }
  assert (Qfloor q < z + 1); [|lia].
  apply Z.lt_nge. intros Hge. rewrite Zle_Qle in Hge.
  pose proof (Qfloor_le q). lra.
Qed.

Lemma Qfloor_bounds (q : Q) :
  (inject_Z (Qfloor q) <= q)%Q ∧ (q < inject_Z (Qfloor q) + 1)%Q.
Proof.
  split; [apply Qfloor_le|]. pose proof (Qlt_floor q) as H.
  rewrite inject_Z_plus in H. exact H.
Qed.

Lemma Qltb_floor (x : Q) (k : Z) : Qltb x (inject_Z k) = (Qfloor x <? k).
Proof.
  unfold Qltb. destruct (Qfloor_bounds x) as [Hlo Hhi].
  destruct (Z.ltb_spec (Qfloor x) k) as [Hlt|Hge].
  - apply negb_true_iff. destruct (Qle_bool (inject_Z k) x) eqn:Hb; [|done].
    apply Qle_bool_iff in Hb. exfalso.
    assert (Qfloor x + 1 ≤ k) as Hk by lia. rewrite Zle_Qle in Hk.
    rewrite inject_Z_plus in Hk. change (inject_Z 1) with 1%Q in Hk. lra.
  - apply negb_false_iff, Qle_bool_iff. rewrite Zle_Qle in Hge. lra.
Qed.

Lemma Qltb_ge (x y : Q) : (y <= x)%Q → Qltb x y = false.
Proof. intros H. unfold Qltb. apply negb_false_iff. by apply Qle_bool_iff. Qed.

Lemma py_int_floor (x : Q) : (0 <= x)%Q → py_int x = Qfloor x.
Proof.
  destruct x as [a b]. unfold Qle, py_int, Qfloor. cbn. intros Ha.
  apply Z.quot_div_nonneg; lia.
Qed.

Lemma Qfloor_div (y : Q) (k : positive) :
  Qfloor (y / inject_Z (Z.pos k)) = Qfloor y / Z.pos k.
Proof.
  destruct y as [a b]. unfold Qfloor, Qdiv, Qmult, Qinv. cbn.
  rewrite Z.mul_1_r, Pos2Z.inj_mul. symmetry. apply Z.div_div; lia.
Qed.

(** *** The remainder *)

Lemma fmod_exact (y : Q) (k : positive) :
  (0 <= y)%Q →
  fmod y (inject_Z (Z.pos k))
  = (y - inject_Z (Z.pos k) * inject_Z (Qfloor y / Z.pos k))%Q.
Proof.
  intros Hy. unfold fmod. rewrite py_int_floor, Qfloor_div; [done|].
  apply Qle_shift_div_l; [done|]. by rewrite Qmult_0_l.
Qed.

Lemma fmod_bounds (y : Q) (k : positive) :
  (0 <= y)%Q →
  (0 <= fmod y (inject_Z (Z.pos k)))%Q
  ∧ (fmod y (inject_Z (Z.pos k)) < inject_Z (Z.pos k))%Q
  ∧ Qfloor (fmod y (inject_Z (Z.pos k))) = Qfloor y mod Z.pos k.
Proof.
  intros Hy. rewrite fmod_exact by done.
  destruct (Qfloor_bounds y) as [Hlo Hhi].
  set (m := Qfloor y) in *. set (q := m / Z.pos k).
  pose proof (Z.mod_pos_bound m (Z.pos k) ltac:(lia)) as Hmod.
  pose proof (Z.div_mod m (Z.pos k) ltac:(lia)) as Hdm. fold q in Hdm.
  assert (Heq : (inject_Z m == inject_Z (Z.pos k) * inject_Z q
                              + inject_Z (m mod Z.pos k))%Q).
  { rewrite <- inject_Z_mult, <- inject_Z_plus. by rewrite <- Hdm. }
  assert (H0 : (0 <= inject_Z (m mod Z.pos k))%Q).
  { change 0%Q with (inject_Z 0). rewrite <- Zle_Qle. lia. }
  assert (H1 : (inject_Z (m mod Z.pos k) + 1 <= inject_Z (Z.pos k))%Q).
  { change 1%Q with (inject_Z 1). rewrite <- inject_Z_plus, <- Zle_Qle. lia. }
  split; [lra|]. split; [lra|].
  apply Qfloor_unique; [lra|]. rewrite inject_Z_plus.
  change (inject_Z 1) with 1%Q. lra.
Qed.

Lemma sign_differs_nonneg (k : positive) (m : Q) :
  (0 <= m)%Q → sign_differs (inject_Z (Z.pos k)) m = false.
Proof.
  intros Hm. unfold sign_differs. by rewrite !Qltb_ge.
Qed.

Lemma py_mod_fmod (y : Q) (k : positive) :
  (0 <= y)%Q →
  (py_mod y (inject_Z (Z.pos k)) == fmod y (inject_Z (Z.pos k)))%Q.
Proof.
  intros Hy. destruct (fmod_bounds y k Hy) as (H0 & _). unfold py_mod.
  destruct (Qeq_bool (fmod y (inject_Z (Z.pos k))) 0) eqn:Hz.
  - apply Qeq_bool_iff in Hz. by rewrite Hz.
  - by rewrite sign_differs_nonneg.
Qed.

Lemma py_mod_int (y : Q) (k : positive) :
  (0 <= y)%Q →
  py_int (py_mod y (inject_Z (Z.pos k))) = Qfloor y mod Z.pos k.
Proof.
  intros Hy. destruct (fmod_bounds y k Hy) as (H0 & _ & Hf).
  pose proof (py_mod_fmod y k Hy) as Heq.
  rewrite py_int_floor by (by rewrite Heq).
  by rewrite (Qfloor_comp _ _ Heq).
Qed.

(** *** The quotient *)

(** Below [2^53] no float operation of the quotient rounds. *)
Lemma py_floordiv_exact (y : Q) (k : positive) :
  (0 <= y)%Q → (y < inject_Z (2 ^ 53))%Q →
  (py_floordiv y (inject_Z (Z.pos k)) == inject_Z (Qfloor y / Z.pos k))%Q.
Proof.
  intros Hy Hlt.
  destruct (fmod_bounds y k Hy) as (H0 & _).
  destruct (Qfloor_bounds y) as [Hlo Hhi].
  assert (Hfl0 : 0 ≤ Qfloor y).
  { rewrite <- (Qfloor_Z 0). by apply Qfloor_resp_le. }
  assert (Hfl : Qfloor y < 2 ^ 53).
  { apply Z.lt_nge. intros Hge. rewrite Zle_Qle in Hge. lra. }
  set (q := Qfloor y / Z.pos k).
  assert (Hq0 : 0 ≤ q) by (apply Z.div_pos; lia).
  assert (Hkq : Z.pos k * q ≤ Qfloor y) by (apply Z.mul_div_le; lia).
  assert (Hq : q < 2 ^ 53) by nia.
  unfold py_floordiv. rewrite sign_differs_nonneg by done.
  rewrite andb_false_r.
  assert (Hsub : (y - fmod y (inject_Z (Z.pos k))
                  == inject_Z (Z.pos k * q))%Q).
  { rewrite fmod_exact by done. fold q. rewrite inject_Z_mult. ring. }
  assert (Hb1 : (Monitoring.binary64 (y - fmod y (inject_Z (Z.pos k)))
                 == inject_Z (Z.pos k * q))%Q).
  { rewrite (FloatFacts.binary64_proper _ _ Hsub).
    apply FloatFacts.binary64_int. lia. }
  assert (Hquot : (Monitoring.binary64 (y - fmod y (inject_Z (Z.pos k)))
                   / inject_Z (Z.pos k) == inject_Z q)%Q).
  { rewrite Hb1, inject_Z_mult. field. discriminate. }
  assert (Hd : (Monitoring.binary64
                  (Monitoring.binary64 (y - fmod y (inject_Z (Z.pos k)))
                   / inject_Z (Z.pos k)) == inject_Z q)%Q).
  { rewrite (FloatFacts.binary64_proper _ _ Hquot).
    apply FloatFacts.binary64_int. lia. }
  set (d := Monitoring.binary64
              (Monitoring.binary64 (y - fmod y (inject_Z (Z.pos k)))
               / inject_Z (Z.pos k))) in *.
  destruct (Qeq_bool d 0) eqn:Hz.
  - apply Qeq_bool_iff in Hz. by rewrite <- Hd, Hz.
  - rewrite (Qfloor_comp _ _ Hd), Qfloor_Z.
    assert (Hzero : (d - inject_Z q == 0)%Q) by (rewrite Hd; ring).
    rewrite (FloatFacts.binary64_proper _ _ Hzero). reflexivity.
Qed.

Lemma py_floordiv_int (y : Q) (k : positive) :
  (0 <= y)%Q → (y < inject_Z (2 ^ 53))%Q →
  py_int (py_floordiv y (inject_Z (Z.pos k))) = Qfloor y / Z.pos k.
Proof.
  intros Hy Hlt. pose proof (py_floordiv_exact y k Hy Hlt) as Heq.
  assert (H0 : 0 ≤ Qfloor y / Z.pos k).
  { apply Z.div_pos; [|lia]. rewrite <- (Qfloor_Z 0). by apply Qfloor_resp_le. }
  rewrite py_int_floor.
  - by rewrite (Qfloor_comp _ _ Heq), Qfloor_Z.
  - rewrite Heq. change 0%Q with (inject_Z 0). by rewrite <- Zle_Qle.
Qed.

Lemma py_mod_floordiv_int (y : Q) (k j : positive) :
  (0 <= y)%Q → Z.pos k ≤ 2 ^ 53 →
  py_int (py_floordiv (py_mod y (inject_Z (Z.pos k))) (inject_Z (Z.pos j)))
  = Qfloor y mod Z.pos k / Z.pos j.
Proof.
  intros Hy Hk. destruct (fmod_bounds y k Hy) as (H0 & Hlt & Hf).
  pose proof (py_mod_fmod y k Hy) as Heq.
  rewrite py_floordiv_int.
  - by rewrite (Qfloor_comp _ _ Heq), Hf.
  - by rewrite Heq.
  - rewrite Heq. eapply Qlt_le_trans; [exact Hlt|]. by rewrite <- Zle_Qle.
Qed.

(** For a duration that is not negative and is below [2^53] seconds,
    [_format_duration] depends only on the whole seconds: the fraction is
    dropped and the parts of the text are the quotients and remainders of
    integer division, so a duration is never rounded up into the next
    minute, hour or day. From [2^53] seconds on the float quotient may be
    rounded, and the text may differ from integer division. *)
Theorem format_duration_uses_whole_seconds (seconds : Q) :
  (0 <= seconds)%Q → (seconds < inject_Z (2 ^ 53))%Q →
  _format_duration seconds = whole_seconds_text (Qfloor seconds).
Proof.
  intros Hpos Hlt. unfold _format_duration, whole_seconds_text.
  change 60%Q with (inject_Z 60). change 3600%Q with (inject_Z 3600).
  change 86400%Q with (inject_Z 86400).
  rewrite !Qltb_floor, !py_mod_floordiv_int, !py_floordiv_int, !py_mod_int
    by (done || lia).
  by rewrite py_int_floor.
Qed.

(** Above [2^53] seconds the float quotient is rounded: at [1e22] seconds
    the days of the text are not those of integer division. *)
Lemma format_duration_rounds_above :
  _format_duration (inject_Z (10 ^ 22)) = "115740740740740736d 17h"
  ∧ whole_seconds_text (10 ^ 22) = "115740740740740740d 17h".
Proof. split; vm_compute; reflexivity. Qed.

(** At the float 3599.9: 59 minutes and 59 seconds. *)
Lemma format_duration_witness :
  _format_duration (Monitoring.binary64 (35999 # 10)) = "59m 59s".
Proof.
  rewrite (format_duration_uses_whole_seconds
             (Monitoring.binary64 (35999 # 10)));
    [|by vm_compute..].
  vm_compute. reflexivity.
Defined.

End DurationFacts.
